(** * spacetimeripple: the ripple ledger and the field compositor

    A shallow embedding of the parts of the program that carry its
    logic:

    - [RippleManager] of [src/main.js]: the fixed pool of ripple records,
      the rate-limited insertion [addRipple] and the per-frame aging and
      packing pass [update];
    - [calculateRipple] and [fragmentMain] of [src/shaders/wavy-grid.wgsl]:
      the per-ripple contribution, its sum over the uniform array and the
      grid compositing;
    - the page around them, [initWebGPU] and [init] of [src/main.js]: the
      sizing of the canvas, the pointer handlers and the animation frame
      that feeds the manager and uploads its buffer, as a machine over
      the events the browser delivers ([App]);
    - the noise of the shader, [perlin3d] with [permute] and [fade].

    Numbers.  JavaScript numbers are IEEE doubles and the shader computes
    in [f32].  The ledger is therefore written once over an abstract
    arithmetic ([Arith]): every statement that only depends on the control
    flow of the code is proved for all arithmetics at once, rounding and
    not-a-number included.  Statements that depend on the laws of
    arithmetic are proved for exact rationals kept in lowest terms
    ([ArithQ]); [ArithDouble] is the arithmetic JavaScript itself uses, in
    which the scenarios are evaluated once more.  The shader is written
    over the real numbers; a division whose divisor is computed has no
    value there when the divisor is zero, and is modelled as [None].  The
    one place where that happens is evaluated in binary32 as well
    ([Binary32]).  A quotient of rationals by zero has the value 0 in
    [ArithQ]; the page divides by the size of the window and of the
    canvas, and the statements about those quotients assume the divisor
    positive. *)

From Stdlib Require Import ZArith QArith Qreduction Qround Reals Lra.
From Stdlib Require Lqa Floats.
From stdpp Require Import base list sorting.

(** ** Arithmetic of the host language *)

(** The operations [RippleManager] applies to numbers.  [fround] is the
    conversion a store into a [Float32Array] performs. *)
Class Arith (num : Type) : Type := {
  num_lit : Q -> num;
  num_sub : num -> num -> num;
  num_div : num -> num -> num;
  num_lt : num -> num -> bool;
  num_ge : num -> num -> bool;
  num_gt : num -> num -> bool;
  fround : num -> num
}.

(** Exact rationals, every result reduced to lowest terms so that equal
    values are equal terms.  No rounding takes place: [fround] is the
    identity. *)
#[global] Instance ArithQ : Arith Q := {
  num_lit q := Qred q;
  num_sub a b := Qred (a - b);
  num_div a b := Qred (a / b);
  num_lt a b := if Qlt_le_dec a b then true else false;
  num_ge a b := if Qlt_le_dec a b then false else true;
  num_gt a b := if Qlt_le_dec b a then true else false;
  fround a := a
}.

(** IEEE binary64, the numbers of JavaScript.  A literal is the double
    nearest to it: the correctly rounded quotient of its numerator and
    denominator (the literals of the program are non-negative).  A store
    into a [Float32Array] rounds to the nearest binary32 number, ties to
    even, overflowing to an infinity. *)
Definition to_binary32 (x : SpecFloat.spec_float) : SpecFloat.spec_float :=
  match x with
  | SpecFloat.S754_finite s m e => SpecFloat.binary_round 24 128 s m e
  | _ => x
  end.

Definition double_fround (x : PrimFloat.float) : PrimFloat.float :=
  FloatOps.SF2Prim (to_binary32 (FloatOps.Prim2SF x)).

Definition double_lit (q : Q) : PrimFloat.float :=
  PrimFloat.div
    (PrimFloat.of_uint63 (Uint63.of_Z (Qnum q)))
    (PrimFloat.of_uint63 (Uint63.of_Z (Zpos (Qden q)))).

#[global] Instance ArithDouble : Arith PrimFloat.float := {
  num_lit := double_lit;
  num_sub := PrimFloat.sub;
  num_div := PrimFloat.div;
  num_lt := PrimFloat.ltb;
  num_ge a b := PrimFloat.leb b a;
  num_gt a b := PrimFloat.ltb b a;
  fround := double_fround
}.

(** ** The ripple record *)

Module Ripple.

Record t (num : Type) : Type := mk {
  x : num;
  y : num;
  startTime : num;
  strength : num;
  active : bool
}.

Arguments mk {num} _ _ _ _ _.
Arguments x {num} _.
Arguments y {num} _.
Arguments startTime {num} _.
Arguments strength {num} _.
Arguments active {num} _.

End Ripple.

(** ** class RippleManager *)

Module RippleManager.

Record t (num : Type) : Type := mk {
  maxRipples : nat;
  ripples : list (Ripple.t num);
  nextRippleIndex : nat;
  lastRippleTime : num;
  minRippleInterval : num;
  maxAge : num;
  activeRippleCount : nat;
  rippleData : list num
}.

Arguments mk {num} _ _ _ _ _ _ _ _.
Arguments maxRipples {num} _.
Arguments ripples {num} _.
Arguments nextRippleIndex {num} _.
Arguments lastRippleTime {num} _.
Arguments minRippleInterval {num} _.
Arguments maxAge {num} _.
Arguments activeRippleCount {num} _.
Arguments rippleData {num} _.

(** What [update] returns: the packed buffer and the number of packed
    records.  [data] is the manager's own [rippleData]. *)
Record Result (num : Type) : Type := mkResult {
  data : list num;
  activeCount : nat
}.

Arguments mkResult {num} _ _.
Arguments data {num} _.
Arguments activeCount {num} _.

Section Methods.

Context {num : Type} `{!Arith num}.

(** [constructor(maxRipples = 128)]: every slot holds an inactive record,
    the [Float32Array] of [maxRipples * 4] elements starts zeroed. *)
Definition new (maxRipples : nat) : t num :=
  {| maxRipples := maxRipples;
     ripples := replicate maxRipples
       (Ripple.mk (num_lit 0) (num_lit 0) (num_lit 0) (num_lit 0) false);
     nextRippleIndex := 0;
     lastRippleTime := num_lit 0;
     minRippleInterval := num_lit 25;
     maxAge := num_lit 2;
     activeRippleCount := 0;
     rippleData := replicate (maxRipples * 4) (num_lit 0) |}.

(** The record [addRipple] leaves in the slot it writes. *)
Definition fresh (x y timestamp : num) : Ripple.t num :=
  {| Ripple.x := x;
     Ripple.y := y;
     Ripple.startTime := num_div timestamp (num_lit 1000);
     Ripple.strength := num_lit 1;
     Ripple.active := true |}.

(** [addRipple(x, y, timestamp)].  The object in slot [nextRippleIndex] has
    all five fields reassigned, which is the slot replaced by [fresh]; the
    cursor always points at one of the [maxRipples] slots. *)
Definition addRipple (x y timestamp : num) (s : t num) : t num :=
  if num_lt (num_sub timestamp (lastRippleTime s)) (minRippleInterval s)
  then s
  else
    {| maxRipples := maxRipples s;
       ripples := <[nextRippleIndex s := fresh x y timestamp]> (ripples s);
       nextRippleIndex := (nextRippleIndex s + 1) mod maxRipples s;
       lastRippleTime := timestamp;
       minRippleInterval := minRippleInterval s;
       maxAge := maxAge s;
       activeRippleCount := activeRippleCount s;
       rippleData := rippleData s |}.

Definition STRENGTH_THRESHOLD : num := num_lit (1 # 100).

Definition set_ripple (i : nat) (r : Ripple.t num) (s : t num) : t num :=
  {| maxRipples := maxRipples s;
     ripples := <[i := r]> (ripples s);
     nextRippleIndex := nextRippleIndex s;
     lastRippleTime := lastRippleTime s;
     minRippleInterval := minRippleInterval s;
     maxAge := maxAge s;
     activeRippleCount := activeRippleCount s;
     rippleData := rippleData s |}.

Definition set_activeRippleCount (n : nat) (s : t num) : t num :=
  {| maxRipples := maxRipples s;
     ripples := ripples s;
     nextRippleIndex := nextRippleIndex s;
     lastRippleTime := lastRippleTime s;
     minRippleInterval := minRippleInterval s;
     maxAge := maxAge s;
     activeRippleCount := n;
     rippleData := rippleData s |}.

Definition set_rippleData (d : list num) (s : t num) : t num :=
  {| maxRipples := maxRipples s;
     ripples := ripples s;
     nextRippleIndex := nextRippleIndex s;
     lastRippleTime := lastRippleTime s;
     minRippleInterval := minRippleInterval s;
     maxAge := maxAge s;
     activeRippleCount := activeRippleCount s;
     rippleData := d |}.

(** The four stores [rippleData[baseIndex .. baseIndex + 3] = ...].  A
    typed array ignores a store past its end, as the list update does. *)
Definition store_ripple (baseIndex : nat) (ripple : Ripple.t num)
    (d : list num) : list num :=
  <[baseIndex + 3 := fround (Ripple.startTime ripple)]>
    (<[baseIndex + 2 := fround (Ripple.strength ripple)]>
      (<[baseIndex + 1 := fround (Ripple.y ripple)]>
        (<[baseIndex := fround (Ripple.x ripple)]> d))).

(** One iteration of the first loop of [update], at slot [i].  Reading a
    slot that does not exist would throw in JavaScript; it is given no
    effect here, and does not occur: the constructor creates all
    [maxRipples] slots and nothing removes one. *)
Definition update_slot (currentTime : num) (s : t num) (i : nat) : t num :=
  match ripples s !! i with
  | None => s
  | Some ripple =>
      if negb (Ripple.active ripple) then s
      else
        let age := num_sub currentTime (Ripple.startTime ripple) in
        if num_ge age (maxAge s) then
          set_ripple i
            (Ripple.mk (Ripple.x ripple) (Ripple.y ripple)
               (Ripple.startTime ripple) (num_lit 0) false) s
        else
          let strength := num_sub (num_lit 1) (num_div age (maxAge s)) in
          if num_gt strength STRENGTH_THRESHOLD then
            let ripple' :=
              Ripple.mk (Ripple.x ripple) (Ripple.y ripple)
                (Ripple.startTime ripple) strength true in
            let baseIndex := activeRippleCount s * 4 in
            set_activeRippleCount (activeRippleCount s + 1)
              (set_rippleData (store_ripple baseIndex ripple' (rippleData s))
                 (set_ripple i ripple' s))
          else
            set_ripple i
              (Ripple.mk (Ripple.x ripple) (Ripple.y ripple)
                 (Ripple.startTime ripple) strength false) s
  end.

(** One iteration of the second loop: [rippleData[i * 4 + 2] = 0]. *)
Definition clear_slot (s : t num) (i : nat) : t num :=
  set_rippleData (<[i * 4 + 2 := fround (num_lit 0)]> (rippleData s)) s.

(** [update(timestamp)]: the state it leaves and the object it returns. *)
Definition update (timestamp : num) (s : t num) : t num * Result num :=
  let currentTime := num_div timestamp (num_lit 1000) in
  let s0 := set_activeRippleCount 0 s in
  let s1 := foldl (update_slot currentTime) s0 (seq 0 (maxRipples s0)) in
  let s2 :=
    foldl clear_slot s1
      (seq (activeRippleCount s1) (maxRipples s1 - activeRippleCount s1)) in
  (s2, {| data := rippleData s2; activeCount := activeRippleCount s2 |}).

End Methods.

Arguments update : simpl never.

End RippleManager.

(** ** wavy-grid.wgsl *)

(** Deciding the order and equality of real numbers, for [decide]. *)
#[global] Instance Req_decision : EqDecision R := Req_dec_T.
#[global] Instance Rlt_decision : RelDecision Rlt := Rlt_dec.
#[global] Instance Rle_decision : RelDecision Rle := Rle_dec.
#[global] Instance Rgt_decision : RelDecision Rgt := Rgt_dec.
#[global] Instance Rge_decision : RelDecision Rge := Rge_dec.

Module Vec2f.
Record t : Type := mk { x : R; y : R }.
End Vec2f.

Module Vec3f.
Record t : Type := mk { x : R; y : R; z : R }.
End Vec3f.

Module Vec4f.
Record t : Type := mk { x : R; y : R; z : R; w : R }.
End Vec4f.

(** [struct RippleData]: one 16-byte element of the uniform array. *)
Module RippleData.
Record t : Type := mk {
  position : Vec2f.t;
  strength : R;
  startTime : R
}.
End RippleData.

Module WavyGrid.

Local Open Scope R_scope.

Record Uniforms : Type := mkUniforms {
  time : R;
  aspect_ratio : R;
  _padding1 : R;
  _padding2 : R
}.

Definition PI : R := 3.14159265359.
Definition GRID_VERTICAL_SIZE : R := 15.
Definition GRID_HORIZONTAL_SIZE : R := 20.
Definition LINE_WIDTH : R := 0.015.
Definition DISTORTION_SCALE : R := 0.01.
Definition ANIMATION_SPEED : R := 0.5.
Definition RIPPLE_WAVELENGTH : R := 0.1.
Definition RIPPLE_SPEED : R := 0.1.
Definition RIPPLE_AMPLITUDE : R := 0.02.
Definition MAX_RIPPLE_RADIUS : R := 0.3.
Definition MIN_RIPPLE_RADIUS : R := 0.02.
Definition RIPPLE_EDGE_SHARPNESS : R := 3.

(** *** Builtin functions, by their defining formulas *)

(** A division whose divisor is computed at run time: no value when the
    divisor is zero.  Divisions by a literal are written with [/]. *)
Definition checked_div (a b : R) : option R :=
  if decide (b = 0) then None else Some (a / b).

Definition floor (e : R) : R := IZR (Int_part e).
Definition fract (e : R) : R := e - floor e.
Definition trunc (e : R) : R :=
  if decide (0 <= e) then floor e else - floor (- e).
(** [e1 % e2] on floats; every use has the literal divisor 289. *)
Definition fmod (e1 e2 : R) : R := e1 - e2 * trunc (e1 / e2).
Definition step (edge x : R) : R := if decide (edge <= x) then 1 else 0.
Definition clamp (e low high : R) : R := Rmin (Rmax e low) high.
Definition mix (e1 e2 e3 : R) : R := e1 * (1 - e3) + e2 * e3.

(** [smoothstep] by its formula, which [fragmentMain] also uses with
    [low > high] for a falling edge. *)
Definition smoothstep (low high x : R) : option R :=
  q ← checked_div (x - low) (high - low);
  let t := clamp q 0 1 in
  Some (t * t * (3 - 2 * t)).

Definition distance (a b : Vec2f.t) : R :=
  sqrt ((Vec2f.x a - Vec2f.x b) * (Vec2f.x a - Vec2f.x b)
        + (Vec2f.y a - Vec2f.y b) * (Vec2f.y a - Vec2f.y b)).

Definition dot3 (a b : Vec3f.t) : R :=
  Vec3f.x a * Vec3f.x b + Vec3f.y a * Vec3f.y b + Vec3f.z a * Vec3f.z b.

Definition map3 (f : R -> R) (a : Vec3f.t) : Vec3f.t :=
  Vec3f.mk (f (Vec3f.x a)) (f (Vec3f.y a)) (f (Vec3f.z a)).

Definition map4 (f : R -> R) (a : Vec4f.t) : Vec4f.t :=
  Vec4f.mk (f (Vec4f.x a)) (f (Vec4f.y a)) (f (Vec4f.z a)) (f (Vec4f.w a)).

Definition zip4 (f : R -> R -> R) (a b : Vec4f.t) : Vec4f.t :=
  Vec4f.mk (f (Vec4f.x a) (Vec4f.x b)) (f (Vec4f.y a) (Vec4f.y b))
           (f (Vec4f.z a) (Vec4f.z b)) (f (Vec4f.w a) (Vec4f.w b)).

Definition splat4 (e : R) : Vec4f.t := Vec4f.mk e e e e.

Definition scale3 (a : Vec3f.t) (k : R) : Vec3f.t := map3 (fun e => e * k) a.

(** *** Perlin noise *)

Definition permute (x : Vec4f.t) : Vec4f.t :=
  map4 (fun e => fmod ((e * 34 + 1) * e) 289) x.

Definition taylorInvSqrt (r : Vec4f.t) : Vec4f.t :=
  map4 (fun e => 1.79284291400159 - 0.85373472095314 * e) r.

Definition fade (t : Vec3f.t) : Vec3f.t :=
  map3 (fun e => e * e * e * (e * (e * 6 - 15) + 10)) t.

(** The gradient components of one z-layer: [gx], [gy], [gz] from the
    permuted lattice indices [ixy0] (or [ixy1]). *)
Definition gradients (ixy : Vec4f.t) : Vec4f.t * Vec4f.t * Vec4f.t :=
  let gx := map4 (fun e => e * (1 / 7)) ixy in
  let gy := map4 (fun e => fract (floor e * (1 / 7)) - 0.5) gx in
  let gx := map4 fract gx in
  let gz := zip4 Rminus (zip4 Rminus (splat4 0.5) (map4 Rabs gx)) (map4 Rabs gy) in
  let sz := zip4 step gz (splat4 0) in
  let gx := zip4 Rplus gx (zip4 Rmult sz (map4 (fun e => step 0 e - 0.5) gx)) in
  let gy := zip4 Rplus gy (zip4 Rmult sz (map4 (fun e => step 0 e - 0.5) gy)) in
  (gx, gy, gz).

Definition perlin3d (P : Vec3f.t) : R :=
  let Pi0 := map3 floor P in
  let Pi1 := map3 (fun e => e + 1) Pi0 in
  let Pi0 := map3 (fun e => fmod e 289) Pi0 in
  let Pi1 := map3 (fun e => fmod e 289) Pi1 in
  let Pf0 := map3 fract P in
  let Pf1 := map3 (fun e => e - 1) Pf0 in
  let ix := Vec4f.mk (Vec3f.x Pi0) (Vec3f.x Pi1) (Vec3f.x Pi0) (Vec3f.x Pi1) in
  let iy := Vec4f.mk (Vec3f.y Pi0) (Vec3f.y Pi0) (Vec3f.y Pi1) (Vec3f.y Pi1) in
  let iz0 := splat4 (Vec3f.z Pi0) in
  let iz1 := splat4 (Vec3f.z Pi1) in
  let ixy := permute (zip4 Rplus (permute ix) iy) in
  let ixy0 := permute (zip4 Rplus ixy iz0) in
  let ixy1 := permute (zip4 Rplus ixy iz1) in
  let '(gx0, gy0, gz0) := gradients ixy0 in
  let '(gx1, gy1, gz1) := gradients ixy1 in
  let g000 := Vec3f.mk (Vec4f.x gx0) (Vec4f.x gy0) (Vec4f.x gz0) in
  let g100 := Vec3f.mk (Vec4f.y gx0) (Vec4f.y gy0) (Vec4f.y gz0) in
  let g010 := Vec3f.mk (Vec4f.z gx0) (Vec4f.z gy0) (Vec4f.z gz0) in
  let g110 := Vec3f.mk (Vec4f.w gx0) (Vec4f.w gy0) (Vec4f.w gz0) in
  let g001 := Vec3f.mk (Vec4f.x gx1) (Vec4f.x gy1) (Vec4f.x gz1) in
  let g101 := Vec3f.mk (Vec4f.y gx1) (Vec4f.y gy1) (Vec4f.y gz1) in
  let g011 := Vec3f.mk (Vec4f.z gx1) (Vec4f.z gy1) (Vec4f.z gz1) in
  let g111 := Vec3f.mk (Vec4f.w gx1) (Vec4f.w gy1) (Vec4f.w gz1) in
  let norm0 :=
    taylorInvSqrt
      (Vec4f.mk (dot3 g000 g000) (dot3 g010 g010) (dot3 g100 g100) (dot3 g110 g110)) in
  let g000 := scale3 g000 (Vec4f.x norm0) in
  let g010 := scale3 g010 (Vec4f.y norm0) in
  let g100 := scale3 g100 (Vec4f.z norm0) in
  let g110 := scale3 g110 (Vec4f.w norm0) in
  let norm1 :=
    taylorInvSqrt
      (Vec4f.mk (dot3 g001 g001) (dot3 g011 g011) (dot3 g101 g101) (dot3 g111 g111)) in
  let g001 := scale3 g001 (Vec4f.x norm1) in
  let g011 := scale3 g011 (Vec4f.y norm1) in
  let g101 := scale3 g101 (Vec4f.z norm1) in
  let g111 := scale3 g111 (Vec4f.w norm1) in
  let n000 := dot3 g000 Pf0 in
  let n100 := dot3 g100 (Vec3f.mk (Vec3f.x Pf1) (Vec3f.y Pf0) (Vec3f.z Pf0)) in
  let n010 := dot3 g010 (Vec3f.mk (Vec3f.x Pf0) (Vec3f.y Pf1) (Vec3f.z Pf0)) in
  let n110 := dot3 g110 (Vec3f.mk (Vec3f.x Pf1) (Vec3f.y Pf1) (Vec3f.z Pf0)) in
  let n001 := dot3 g001 (Vec3f.mk (Vec3f.x Pf0) (Vec3f.y Pf0) (Vec3f.z Pf1)) in
  let n101 := dot3 g101 (Vec3f.mk (Vec3f.x Pf1) (Vec3f.y Pf0) (Vec3f.z Pf1)) in
  let n011 := dot3 g011 (Vec3f.mk (Vec3f.x Pf0) (Vec3f.y Pf1) (Vec3f.z Pf1)) in
  let n111 := dot3 g111 Pf1 in
  let fade_xyz := fade Pf0 in
  let n_z :=
    zip4 (fun a b => mix a b (Vec3f.z fade_xyz))
      (Vec4f.mk n000 n100 n010 n110) (Vec4f.mk n001 n101 n011 n111) in
  let n_yz_x := mix (Vec4f.x n_z) (Vec4f.z n_z) (Vec3f.y fade_xyz) in
  let n_yz_y := mix (Vec4f.y n_z) (Vec4f.w n_z) (Vec3f.y fade_xyz) in
  let n_xyz := mix n_yz_x n_yz_y (Vec3f.x fade_xyz) in
  2.2 * n_xyz.

(** *** The ripple field *)

Section Fragment.

(** The two uniform bindings of the fragment stage. *)
Variable uniforms : Uniforms.
Variable ripples : list RippleData.t.

Definition calculateRipple (uv : Vec2f.t) (ripple : RippleData.t) : option R :=
  let adjustedUV := Vec2f.mk (Vec2f.x uv * aspect_ratio uniforms) (Vec2f.y uv) in
  let adjustedPosition :=
    Vec2f.mk (Vec2f.x (RippleData.position ripple) * aspect_ratio uniforms)
             (Vec2f.y (RippleData.position ripple)) in
  let dist := distance adjustedUV adjustedPosition in
  let age := time uniforms - RippleData.startTime ripple in
  let targetRadius := age * RIPPLE_SPEED in
  let radius := Rmin targetRadius MAX_RIPPLE_RADIUS in
  if decide (dist > radius \/ dist < MIN_RIPPLE_RADIUS
             \/ RippleData.strength ripple <= 0)
  then Some 0
  else
    normalizedDist ←
      checked_div (dist - MIN_RIPPLE_RADIUS) (radius - MIN_RIPPLE_RADIUS);
    let phase := (normalizedDist * 2 - age * 2) * PI in
    edge ← smoothstep (radius * 0.7) radius dist;
    let edgeFalloff := 1 - edge in
    startFalloff ← smoothstep MIN_RIPPLE_RADIUS (MIN_RIPPLE_RADIUS * 2) dist;
    Some (sin phase
          * RippleData.strength ripple
          * RIPPLE_AMPLITUDE
          * edgeFalloff
          * startFalloff
          * exp (- dist * RIPPLE_EDGE_SHARPNESS)).

(** The quantities [calculateRipple] binds with [let], by name: the age
    of the ripple, the radius its front has reached and the
    aspect-corrected distance of the sample from its centre. *)
Definition rippleAge (ripple : RippleData.t) : R :=
  time uniforms - RippleData.startTime ripple.

Definition rippleRadius (ripple : RippleData.t) : R :=
  Rmin (rippleAge ripple * RIPPLE_SPEED) MAX_RIPPLE_RADIUS.

Definition rippleDist (uv : Vec2f.t) (ripple : RippleData.t) : R :=
  distance
    (Vec2f.mk (Vec2f.x uv * aspect_ratio uniforms) (Vec2f.y uv))
    (Vec2f.mk (Vec2f.x (RippleData.position ripple) * aspect_ratio uniforms)
              (Vec2f.y (RippleData.position ripple))).

(** [for (var i = 0; i < n; i++) { total += calculateRipple(uv, ripples[i]); }]
    from [total = 0]; [fragmentMain] runs it with [n = 128], the size of
    the array. *)
Definition rippleLoop (uv : Vec2f.t) (n : nat) : option R :=
  foldl
    (fun total i =>
       t ← total;
       ripple ← ripples !! i;
       c ← calculateRipple uv ripple;
       Some (t + c))
    (Some 0) (seq 0 n).

(** The distance from the scaled, distorted coordinate to the nearest
    grid line. *)
Definition distToLine (distortedUV : Vec2f.t) : R :=
  let scaledUV :=
    Vec2f.mk (Vec2f.x distortedUV * GRID_HORIZONTAL_SIZE)
             (Vec2f.y distortedUV * GRID_VERTICAL_SIZE) in
  let gridUV := Vec2f.mk (fract (Vec2f.x scaledUV)) (fract (Vec2f.y scaledUV)) in
  Rmin (Rmin (Vec2f.x gridUV) (1 - Vec2f.x gridUV))
       (Rmin (Vec2f.y gridUV) (1 - Vec2f.y gridUV)).

Definition lineIntensity (distToLine : R) : option R :=
  smoothstep LINE_WIDTH 0 distToLine.

Definition backgroundColor : Vec3f.t := Vec3f.mk 0.05 0.05 0.15.
Definition lineColor : Vec3f.t := Vec3f.mk 1 1 1.

(** The last part of [fragmentMain], from [distortedUV] on. *)
Definition gridColor (distortedUV : Vec2f.t) : option Vec4f.t :=
  intensity ← lineIntensity (distToLine distortedUV);
  let finalColor :=
    Vec3f.mk (mix (Vec3f.x backgroundColor) (Vec3f.x lineColor) intensity)
             (mix (Vec3f.y backgroundColor) (Vec3f.y lineColor) intensity)
             (mix (Vec3f.z backgroundColor) (Vec3f.z lineColor) intensity) in
  Some (Vec4f.mk (Vec3f.x finalColor) (Vec3f.y finalColor) (Vec3f.z finalColor) 1).

Definition fragmentMain (uv : Vec2f.t) : option Vec4f.t :=
  let noise1 :=
    perlin3d (Vec3f.mk (Vec2f.x uv * 12) (Vec2f.y uv * 12)
                       (time uniforms * ANIMATION_SPEED)) in
  let noise2 :=
    perlin3d (Vec3f.mk (Vec2f.x uv * 12 + 100) (Vec2f.y uv * 12 + 100)
                       (time uniforms * ANIMATION_SPEED)) in
  totalRippleDistortion ← rippleLoop uv 128;
  let distortedUV :=
    Vec2f.mk (Vec2f.x uv + noise1 * DISTORTION_SCALE + totalRippleDistortion)
             (Vec2f.y uv + noise2 * DISTORTION_SCALE + totalRippleDistortion) in
  gridColor distortedUV.

End Fragment.

End WavyGrid.

(** ** [calculateRipple] in binary32, up to the normalisation *)

Module Binary32.

Definition f32 : Type := SpecFloat.spec_float.

Definition add : f32 -> f32 -> f32 := SpecFloat.SFadd 24 128.
Definition sub : f32 -> f32 -> f32 := SpecFloat.SFsub 24 128.
Definition mul : f32 -> f32 -> f32 := SpecFloat.SFmul 24 128.
Definition div : f32 -> f32 -> f32 := SpecFloat.SFdiv 24 128.
Definition sqrt : f32 -> f32 := SpecFloat.SFsqrt 24 128.
Definition ltb : f32 -> f32 -> bool := SpecFloat.SFltb.
Definition leb : f32 -> f32 -> bool := SpecFloat.SFleb.

(** [min(e1, e2)]: [e2] if [e2 < e1], [e1] otherwise. *)
Definition min (e1 e2 : f32) : f32 := if ltb e2 e1 then e2 else e1.

Definition of_pos (p : positive) : f32 :=
  SpecFloat.binary_normalize 24 128 (Zpos p) 0 false.

(** The binary32 number nearest to the decimal literal [n / d]. *)
Definition lit (n d : positive) : f32 := div (of_pos n) (of_pos d).

Definition zero : f32 := SpecFloat.S754_zero false.
Definition one : f32 := of_pos 1.

Definition RIPPLE_SPEED : f32 := lit 1 10.
Definition MAX_RIPPLE_RADIUS : f32 := lit 3 10.
Definition MIN_RIPPLE_RADIUS : f32 := lit 2 100.

(** Lines 118 to 134 of the shader: [None] when the early exit is taken,
    else the quotient [normalizedDist]. *)
Definition normalizedDist (time aspect_ratio : f32) (uv position : f32 * f32)
    (strength startTime : f32) : option f32 :=
  let adjustedUV := (mul uv.1 aspect_ratio, uv.2) in
  let adjustedPosition := (mul position.1 aspect_ratio, position.2) in
  let dx := sub adjustedUV.1 adjustedPosition.1 in
  let dy := sub adjustedUV.2 adjustedPosition.2 in
  let dist := sqrt (add (mul dx dx) (mul dy dy)) in
  let age := sub time startTime in
  let targetRadius := mul age RIPPLE_SPEED in
  let radius := min targetRadius MAX_RIPPLE_RADIUS in
  if ltb radius dist || ltb dist MIN_RIPPLE_RADIUS || leb strength zero
  then None
  else Some (div (sub dist MIN_RIPPLE_RADIUS) (sub radius MIN_RIPPLE_RADIUS)).

(** The time 0.19999998807907104 (bits [0x3E4CCCCC]), one binary32 step
    below 0.2: multiplied by the speed it rounds to the inner radius. *)
Definition front_time : f32 := SpecFloat.S754_finite false 13421772 (-26).

End Binary32.

(** ** Ledger states and histories *)

Import RippleManager.

Section Ledger.

Context {num : Type} `{!Arith num}.

(** What the constructor establishes and both methods keep: a pool of
    [maxRipples] records, a buffer of four numbers per record, the write
    cursor inside the pool, and the two settings nothing assigns again. *)
Definition wf (s : t num) : Prop :=
  0 < maxRipples s
  /\ length (ripples s) = maxRipples s
  /\ length (rippleData s) = maxRipples s * 4
  /\ nextRippleIndex s < maxRipples s
  /\ minRippleInterval s = num_lit 25
  /\ maxAge s = num_lit 2.

(** The states of the manager the page creates ([new RippleManager()]),
    after any sequence of calls of its two methods. *)
Inductive reachable : t num -> Prop :=
  | reachable_new : reachable (new 128)
  | reachable_addRipple x y timestamp s :
      reachable s -> reachable (addRipple x y timestamp s)
  | reachable_update timestamp s :
      reachable s -> reachable (update timestamp s).1.

(** The state [addRipple] leaves when it does not return early. *)
Definition accept (x y timestamp : num) (s : t num) : t num :=
  {| maxRipples := maxRipples s;
     ripples := <[nextRippleIndex s := fresh x y timestamp]> (ripples s);
     nextRippleIndex := (nextRippleIndex s + 1) mod maxRipples s;
     lastRippleTime := timestamp;
     minRippleInterval := minRippleInterval s;
     maxAge := maxAge s;
     activeRippleCount := activeRippleCount s;
     rippleData := rippleData s |}.

(** A sequence of calls [addRipple(x, y, timestamp)], oldest first. *)
Definition insert_all (s : t num) (l : list (num * num * num)) : t num :=
  foldl (fun s '(x, y, timestamp) => addRipple x y timestamp s) s l.

Definition accept_all (s : t num) (l : list (num * num * num)) : t num :=
  foldl (fun s '(x, y, timestamp) => accept x y timestamp s) s l.

Definition fresh_of (c : num * num * num) : Ripple.t num :=
  let '(x, y, timestamp) := c in fresh x y timestamp.

(** Each insert of the sequence passes the test of [addRipple]: its
    timestamp is not less than 25 ms after the one accepted before it,
    the first after [last]. *)
Fixpoint accepted_after (last : num) (l : list (num * num * num)) : Prop :=
  match l with
  | [] => True
  | (_, _, timestamp) :: l' =>
      num_lt (num_sub timestamp last) (num_lit 25) = false
      /\ accepted_after timestamp l'
  end.

(** What one iteration of the first loop of [update] does to the record
    of its slot. *)
Definition aged (currentTime maxAge : num) (r : Ripple.t num) : Ripple.t num :=
  if negb (Ripple.active r) then r
  else
    let age := num_sub currentTime (Ripple.startTime r) in
    if num_ge age maxAge then
      Ripple.mk (Ripple.x r) (Ripple.y r) (Ripple.startTime r) (num_lit 0) false
    else
      let strength := num_sub (num_lit 1) (num_div age maxAge) in
      Ripple.mk (Ripple.x r) (Ripple.y r) (Ripple.startTime r) strength
        (num_gt strength STRENGTH_THRESHOLD).

(** The records of a pool that are active, in slot order. *)
Definition live (l : list (Ripple.t num)) : list (Ripple.t num) :=
  filter (fun r => Ripple.active r = true) l.

(** The slots of a pool that hold an active record, in increasing order. *)
Definition live_slots (l : list (Ripple.t num)) : list nat :=
  filter (fun i => Ripple.active <$> l !! i = Some true) (seq 0 (length l)).

(** The records [l] stored one after the other from record position [k] of
    the buffer. *)
Fixpoint pack (k : nat) (l : list (Ripple.t num)) (d : list num) : list num :=
  match l with
  | [] => d
  | r :: l' => pack (S k) l' (store_ripple (k * 4) r d)
  end.

(** The strength fields of the record positions [c], ..., [c + n - 1] of
    the buffer cleared. *)
Definition clear (c n : nat) (d : list num) : list num :=
  foldl (fun d i => <[i * 4 + 2 := fround (num_lit 0)]> d) d (seq c n).

(** The four numbers the buffer holds for a packed record. *)
Definition packed (r : Ripple.t num) : list num :=
  [fround (Ripple.x r); fround (Ripple.y r);
   fround (Ripple.strength r); fround (Ripple.startTime r)].

(** Record position [k] of the buffer. *)
Definition entry (d : list num) (k : nat) : list num :=
  take 4 (drop (k * 4) d).

(** A buffer as a list of point stores. *)
Definition apply_writes (ws : list (nat * num)) (d : list num) : list num :=
  foldl (fun d w => <[w.1 := w.2]> d) d ws.

Fixpoint last_write (p : nat) (ws : list (nat * num)) : option num :=
  match ws with
  | [] => None
  | w :: ws' =>
      match last_write p ws' with
      | Some v => Some v
      | None => if decide (w.1 = p) then Some w.2 else None
      end
  end.

Definition store_writes (baseIndex : nat) (r : Ripple.t num) : list (nat * num) :=
  [(baseIndex, fround (Ripple.x r)); (baseIndex + 1, fround (Ripple.y r));
   (baseIndex + 2, fround (Ripple.strength r));
   (baseIndex + 3, fround (Ripple.startTime r))].

Fixpoint pack_writes (k : nat) (l : list (Ripple.t num)) : list (nat * num) :=
  match l with
  | [] => []
  | r :: l' => store_writes (k * 4) r ++ pack_writes (S k) l'
  end.

Definition clear_writes (c n : nat) : list (nat * num) :=
  (fun i => (i * 4 + 2, fround (num_lit 0))) <$> seq c n.

End Ledger.

(** The same in terms of the order of the rationals: each timestamp is at
    least 25 ms after the one before, the first after [last]. *)
Fixpoint spaced (last : Q) (l : list (Q * Q * Q)) : Prop :=
  match l with
  | [] => True
  | (_, _, timestamp) :: l' => (25 <= timestamp - last)%Q /\ spaced timestamp l'
  end.

(** Inserts at (0.5, 0.5), one every 25 ms from [25 * (k + 1)] ms on. *)
Definition steady_inserts (k n : nat) : list (Q * Q * Q) :=
  (fun i => ((1 # 2)%Q, (1 # 2)%Q, inject_Z (25 * Z.of_nat (S i)))) <$> seq k n.

(** The buffer as the fragment stage reads it: [array<RippleData, n>] over
    the uploaded numbers, four per element. *)
Definition ripplesOfBuffer (d : list R) (n : nat) : list RippleData.t :=
  (fun i =>
     RippleData.mk
       (Vec2f.mk (default 0%R (d !! (i * 4))) (default 0%R (d !! (i * 4 + 1))))
       (default 0%R (d !! (i * 4 + 2)))
       (default 0%R (d !! (i * 4 + 3)))) <$> seq 0 n.

(** A sample on the inner radius of a ripple whose front has just reached
    that radius: age 0.2 s, so the front is at 0.2 * 0.1 = 0.02, and the
    sample is 0.02 to the right of the centre. *)
Definition front_uniforms : WavyGrid.Uniforms :=
  WavyGrid.mkUniforms 0.2 1 0 0.

Definition front_ripple : RippleData.t :=
  RippleData.mk (Vec2f.mk 0 0) 1 0.

Definition front_uv : Vec2f.t := Vec2f.mk 0.02 0.

(** A sequence of calls [update(timestamp)], oldest first, with no insert
    in between. *)
Definition update_all {num : Type} `{!Arith num}
    (s : t num) (timestamps : list num) : t num :=
  foldl (fun s timestamp => (update timestamp s).1) s timestamps.

(** The sum of a list of contributions, each of which may be undefined. *)
Definition sum_defined (l : list (option R)) : option R :=
  foldr (fun oc acc => c ← oc; t ← acc; Some (c + t)%R) (Some 0%R) l.

(** ** The page: [initWebGPU] and [init] *)

(** The further operations [updateCanvasSize] applies to numbers:
    multiplication, [Math.round], and the truth value of a number, which
    [window.devicePixelRatio || 1] tests (false for zero and for
    not-a-number). *)
Class CanvasArith (num : Type) : Type := {
  num_mul : num -> num -> num;
  num_round : num -> num;
  num_truthy : num -> bool
}.

(** Exact rationals: [Math.round] is the nearest integer, a tie going
    up, which is the floor of the argument plus one half. *)
#[global] Instance CanvasArithQ : CanvasArith Q := {
  num_mul a b := Qred (a * b);
  num_round a := inject_Z (Qfloor (a + (1 # 2)));
  num_truthy a := negb (Qeq_bool a 0)
}.

(** The attributes of the canvas element the script assigns: the display
    size [style.width], [style.height] (in CSS pixels) and the size of
    the drawing buffer [width], [height], which the script only ever sets
    to a rounded number. *)
Module Canvas.

Record t (num : Type) : Type := mk {
  style_width : num;
  style_height : num;
  width : num;
  height : num
}.

Arguments mk {num} _ _ _ _.
Arguments style_width {num} _.
Arguments style_height {num} _.
Arguments width {num} _.
Arguments height {num} _.

End Canvas.

(** The four fields of [canvas.getBoundingClientRect()] the script
    reads. *)
Module DOMRect.

Record t (num : Type) : Type := mk {
  left : num;
  top : num;
  width : num;
  height : num
}.

Arguments mk {num} _ _ _ _.
Arguments left {num} _.
Arguments top {num} _.
Arguments width {num} _.
Arguments height {num} _.

End DOMRect.

(** The style of the cursor dot: [left] and [top] in pixels, and
    [opacity], which is only ever set to ['1'] ([true]) or ['0']. *)
Module CursorDot.

Record t (num : Type) : Type := mk {
  left : num;
  top : num;
  opacity : bool
}.

Arguments mk {num} _ _ _.
Arguments left {num} _.
Arguments top {num} _.
Arguments opacity {num} _.

End CursorDot.

Module App.

(** The variables of [init] that change after start-up, the canvas
    attributes [updateCanvasSize] assigns, and the contents of the two
    uniform buffers, one number per [f32].  [cursorDot] is [None] until
    the script first assigns the style of the dot. *)
Record t (num : Type) : Type := mk {
  canvas : Canvas.t num;
  rippleUniformBuffer : list num;
  timeUniformBuffer : list num;
  rippleManager : RippleManager.t num;
  cursorDot : option (CursorDot.t num);
  isMouseDown : bool;
  lastMouseX : num;
  lastMouseY : num;
  lastClientX : num;
  lastClientY : num;
  canvasRect : DOMRect.t num
}.

Arguments mk {num} _ _ _ _ _ _ _ _ _ _ _.
Arguments canvas {num} _.
Arguments rippleUniformBuffer {num} _.
Arguments timeUniformBuffer {num} _.
Arguments rippleManager {num} _.
Arguments cursorDot {num} _.
Arguments isMouseDown {num} _.
Arguments lastMouseX {num} _.
Arguments lastMouseY {num} _.
Arguments lastClientX {num} _.
Arguments lastClientY {num} _.
Arguments canvasRect {num} _.

(** What the browser delivers to the page: a window resize, which runs
    [updateCanvasSize] (with the window's inner size and pixel ratio at
    that time); a run of [updateCanvasRect], by the resize observer or
    after a window resize (with the bounding rectangle the canvas then
    has); the four pointer events (a press also reads
    [performance.now()]); and an animation frame. *)
Inductive event (num : Type) : Type :=
  | Resize (innerWidth innerHeight devicePixelRatio : num)
  | Layout (rect : DOMRect.t num)
  | PointerDown (clientX clientY now : num)
  | PointerMove (clientX clientY : num)
  | PointerUp
  | PointerLeave
  | Frame (timestamp : num).

Arguments Resize {num} _ _ _.
Arguments Layout {num} _.
Arguments PointerDown {num} _ _ _.
Arguments PointerMove {num} _ _.
Arguments PointerUp {num}.
Arguments PointerLeave {num}.
Arguments Frame {num} _.

Section Handlers.

Context {num : Type} `{!Arith num} `{!CanvasArith num}.

(** [updateCanvasSize] of [initWebGPU]: the largest 4:3 rectangle inside
    the window, and a drawing buffer of that size in device pixels. *)
Definition updateCanvasSize (innerWidth innerHeight devicePixelRatio : num) :
    Canvas.t num :=
  let targetAspectRatio := num_div (num_lit 4) (num_lit 3) in
  let windowWidth := innerWidth in
  let windowHeight := innerHeight in
  let windowAspectRatio := num_div windowWidth windowHeight in
  let '(width, height) :=
    if num_gt windowAspectRatio targetAspectRatio
    then (num_mul windowHeight targetAspectRatio, windowHeight)
    else (windowWidth, num_div windowWidth targetAspectRatio) in
  let dpr :=
    if num_truthy devicePixelRatio then devicePixelRatio else num_lit 1 in
  {| Canvas.style_width := width;
     Canvas.style_height := height;
     Canvas.width := num_round (num_mul width dpr);
     Canvas.height := num_round (num_mul height dpr) |}.

Definition getNormalizedCoordinates (canvasRect : DOMRect.t num)
    (clientX clientY : num) : num * num :=
  (num_div (num_sub clientX (DOMRect.left canvasRect))
     (DOMRect.width canvasRect),
   num_sub (num_lit 1)
     (num_div (num_sub clientY (DOMRect.top canvasRect))
        (DOMRect.height canvasRect))).

Definition updateCursorDot (clientX clientY : num) (visible : bool) :
    CursorDot.t num :=
  {| CursorDot.left := clientX;
     CursorDot.top := clientY;
     CursorDot.opacity := visible |}.

(** [device.queue.writeBuffer(buffer, 0, data)]: the data replace the
    beginning of the buffer.  Data longer than the buffer are a
    validation error, which throws: [None]. *)
Definition writeBuffer (buffer data : list num) : option (list num) :=
  if decide (length data <= length buffer)
  then Some (data ++ drop (length data) buffer)
  else None.

(** A count as a number. *)
Definition num_of_nat (n : nat) : num := num_lit (inject_Z (Z.of_nat n)).

(** The state [init] sets up, given the window and the layout of the
    canvas at that time.  A new GPU buffer is zeroed: 2048 bytes are 512
    [f32], 48 bytes are 12. *)
Definition init (innerWidth innerHeight devicePixelRatio : num)
    (rect : DOMRect.t num) : t num :=
  {| canvas := updateCanvasSize innerWidth innerHeight devicePixelRatio;
     rippleUniformBuffer := replicate 512 (num_lit 0);
     timeUniformBuffer := replicate 12 (num_lit 0);
     rippleManager := RippleManager.new 128;
     cursorDot := None;
     isMouseDown := false;
     lastMouseX := num_lit 0;
     lastMouseY := num_lit 0;
     lastClientX := num_lit 0;
     lastClientY := num_lit 0;
     canvasRect := rect |}.

Definition resize (innerWidth innerHeight devicePixelRatio : num)
    (a : t num) : t num :=
  {| canvas := updateCanvasSize innerWidth innerHeight devicePixelRatio;
     rippleUniformBuffer := rippleUniformBuffer a;
     timeUniformBuffer := timeUniformBuffer a;
     rippleManager := rippleManager a;
     cursorDot := cursorDot a;
     isMouseDown := isMouseDown a;
     lastMouseX := lastMouseX a;
     lastMouseY := lastMouseY a;
     lastClientX := lastClientX a;
     lastClientY := lastClientY a;
     canvasRect := canvasRect a |}.

Definition updateCanvasRect (rect : DOMRect.t num) (a : t num) : t num :=
  {| canvas := canvas a;
     rippleUniformBuffer := rippleUniformBuffer a;
     timeUniformBuffer := timeUniformBuffer a;
     rippleManager := rippleManager a;
     cursorDot := cursorDot a;
     isMouseDown := isMouseDown a;
     lastMouseX := lastMouseX a;
     lastMouseY := lastMouseY a;
     lastClientX := lastClientX a;
     lastClientY := lastClientY a;
     canvasRect := rect |}.

Definition pointerdown (clientX clientY now : num) (a : t num) : t num :=
  let coords := getNormalizedCoordinates (canvasRect a) clientX clientY in
  {| canvas := canvas a;
     rippleUniformBuffer := rippleUniformBuffer a;
     timeUniformBuffer := timeUniformBuffer a;
     rippleManager :=
       RippleManager.addRipple coords.1 coords.2 now (rippleManager a);
     cursorDot := Some (updateCursorDot clientX clientY true);
     isMouseDown := true;
     lastMouseX := coords.1;
     lastMouseY := coords.2;
     lastClientX := clientX;
     lastClientY := clientY;
     canvasRect := canvasRect a |}.

Definition pointermove (clientX clientY : num) (a : t num) : t num :=
  if negb (isMouseDown a) then a
  else
    let coords := getNormalizedCoordinates (canvasRect a) clientX clientY in
    {| canvas := canvas a;
       rippleUniformBuffer := rippleUniformBuffer a;
       timeUniformBuffer := timeUniformBuffer a;
       rippleManager := rippleManager a;
       cursorDot := Some (updateCursorDot clientX clientY true);
       isMouseDown := isMouseDown a;
       lastMouseX := coords.1;
       lastMouseY := coords.2;
       lastClientX := clientX;
       lastClientY := clientY;
       canvasRect := canvasRect a |}.

(** [pointerup] and [pointerleave] have the same handler body. *)
Definition pointerup (a : t num) : t num :=
  {| canvas := canvas a;
     rippleUniformBuffer := rippleUniformBuffer a;
     timeUniformBuffer := timeUniformBuffer a;
     rippleManager := rippleManager a;
     cursorDot :=
       Some (updateCursorDot (lastClientX a) (lastClientY a) false);
     isMouseDown := false;
     lastMouseX := lastMouseX a;
     lastMouseY := lastMouseY a;
     lastClientX := lastClientX a;
     lastClientY := lastClientY a;
     canvasRect := canvasRect a |}.

Definition pointerleave (a : t num) : t num := pointerup a.

(** The four numbers [frame] uploads as [Uniforms]; a [Float32Array]
    rounds each on construction. *)
Definition timeUniforms (timestamp : num) (canvas : Canvas.t num)
    (activeCount : nat) : list num :=
  [fround (num_div timestamp (num_lit 1000));
   fround (num_div (Canvas.width canvas) (Canvas.height canvas));
   fround (num_of_nat activeCount);
   fround (num_lit 0)].

(** The first statement of [frame]: while the pointer is down, a ripple
    at the last pointer position, subject to the rate limit. *)
Definition frame_manager (timestamp : num) (a : t num) : RippleManager.t num :=
  if isMouseDown a
  then RippleManager.addRipple (lastMouseX a) (lastMouseY a) timestamp
         (rippleManager a)
  else rippleManager a.

(** [frame(timestamp)] up to the two uploads; the draw that follows reads
    the buffers and changes nothing.  [None] when an upload throws. *)
Definition frame (timestamp : num) (a : t num) : option (t num) :=
  let updated := RippleManager.update timestamp (frame_manager timestamp a) in
  let rippleResult := updated.2 in
  rippleBuffer ←
    writeBuffer (rippleUniformBuffer a) (RippleManager.data rippleResult);
  timeBuffer ←
    writeBuffer (timeUniformBuffer a)
      (timeUniforms timestamp (canvas a)
         (RippleManager.activeCount rippleResult));
  Some
    {| canvas := canvas a;
       rippleUniformBuffer := rippleBuffer;
       timeUniformBuffer := timeBuffer;
       rippleManager := updated.1;
       cursorDot := cursorDot a;
       isMouseDown := isMouseDown a;
       lastMouseX := lastMouseX a;
       lastMouseY := lastMouseY a;
       lastClientX := lastClientX a;
       lastClientY := lastClientY a;
       canvasRect := canvasRect a |}.

Definition step (a : t num) (e : event num) : option (t num) :=
  match e with
  | Resize innerWidth innerHeight devicePixelRatio =>
      Some (resize innerWidth innerHeight devicePixelRatio a)
  | Layout rect => Some (updateCanvasRect rect a)
  | PointerDown clientX clientY now =>
      Some (pointerdown clientX clientY now a)
  | PointerMove clientX clientY => Some (pointermove clientX clientY a)
  | PointerUp => Some (pointerup a)
  | PointerLeave => Some (pointerleave a)
  | Frame timestamp => frame timestamp a
  end.

(** The events of a session, oldest first; the page stops at the first
    handler that throws. *)
Definition run (a : t num) (events : list (event num)) : option (t num) :=
  foldl (fun state e => a ← state; step a e) (Some a) events.

Definition is_PointerDown (e : event num) : bool :=
  match e with
  | PointerDown _ _ _ => true
  | _ => false
  end.

(** What holds of the page at all times (see [ok_run]): the manager is
    well formed with 128 slots, the ripple buffer on the GPU is the
    manager's [rippleData], the time buffer has its 12 numbers, and the
    dot, once styled, is shown exactly while the pointer is down. *)
Definition ok (a : t num) : Prop :=
  wf (rippleManager a)
  /\ maxRipples (rippleManager a) = 128
  /\ rippleUniformBuffer a = rippleData (rippleManager a)
  /\ length (timeUniformBuffer a) = 12
  /\ forall dot, cursorDot a = Some dot -> CursorDot.opacity dot = isMouseDown a.

End Handlers.

End App.

(** The uniform bindings as the fragment stage reads them from the two
    buffers, and the colour [frame]'s draw gives the sample [uv]. *)
Definition uniformsOfBuffer (d : list R) : WavyGrid.Uniforms :=
  WavyGrid.mkUniforms (default 0%R (d !! 0)) (default 0%R (d !! 1))
    (default 0%R (d !! 2)) (default 0%R (d !! 3)).

Definition drawn {num : Type} (toR : num -> R) (a : App.t num)
    (uv : Vec2f.t) : option Vec4f.t :=
  WavyGrid.fragmentMain
    (uniformsOfBuffer (toR <$> App.timeUniformBuffer a))
    (ripplesOfBuffer (toR <$> App.rippleUniformBuffer a) 128) uv.
(** [s'] differs from [s] by aging only: the cursor and the time of the
    last insert are those of [s], every slot keeps its position and start
    time, and no record is active that was not. *)
Definition only_aged {num : Type} (s s' : RippleManager.t num) : Prop :=
  nextRippleIndex s' = nextRippleIndex s
  /\ lastRippleTime s' = lastRippleTime s
  /\ forall i r,
       ripples s !! i = Some r ->
       exists r',
         ripples s' !! i = Some r'
         /\ Ripple.x r' = Ripple.x r
         /\ Ripple.y r' = Ripple.y r
         /\ Ripple.startTime r' = Ripple.startTime r
         /\ (Ripple.active r' = true -> Ripple.active r = true).

(** The state [init] sets up in doubles for a window of 800 by 600 at
    pixel ratio 1, the canvas at the origin: the canvas attributes and
    the bounding rectangle written out. *)
Definition page_800x600 : App.t PrimFloat.float :=
  {| App.canvas :=
       Canvas.mk (double_lit 800) (double_lit 600) (double_lit 800)
         (double_lit 600);
     App.rippleUniformBuffer := replicate 512 (double_lit 0);
     App.timeUniformBuffer := replicate 12 (double_lit 0);
     App.rippleManager := RippleManager.new 128;
     App.cursorDot := None;
     App.isMouseDown := false;
     App.lastMouseX := double_lit 0;
     App.lastMouseY := double_lit 0;
     App.lastClientX := double_lit 0;
     App.lastClientY := double_lit 0;
     App.canvasRect :=
       DOMRect.mk (double_lit 0) (double_lit 0) (double_lit 800)
         (double_lit 600) |}.

(** The real number a finite double stands for (0 for the others): how
    the examples in doubles read an uploaded number. *)
Definition double_toR (x : PrimFloat.float) : R :=
  match FloatOps.Prim2SF x with
  | SpecFloat.S754_finite s m e =>
      (IZR (if s then Z.neg m else Z.pos m) * powerRZ 2 e)%R
  | _ => 0%R
  end.

(** ** The ledger: facts that hold in every arithmetic *)

Section LedgerFacts.

Context {num : Type} `{!Arith num}.

Implicit Types (s : t num) (r : Ripple.t num) (d : list num).

Lemma addRipple_unfold x y timestamp s :
  addRipple x y timestamp s =
    if num_lt (num_sub timestamp (lastRippleTime s)) (minRippleInterval s)
    then s else accept x y timestamp s.
Proof. reflexivity. Qed.

Lemma addRipple_rejected x y timestamp s :
  num_lt (num_sub timestamp (lastRippleTime s)) (minRippleInterval s) = true ->
  addRipple x y timestamp s = s.
Proof. intros H. unfold addRipple. now rewrite H. Qed.

Lemma addRipple_accepted x y timestamp s :
  num_lt (num_sub timestamp (lastRippleTime s)) (minRippleInterval s) = false ->
  addRipple x y timestamp s = accept x y timestamp s.
Proof. intros H. rewrite addRipple_unfold. now rewrite H. Qed.

Lemma wf_new n : 0 < n -> wf (new n).
Proof.
  intros Hn. unfold wf, new; simpl.
  rewrite !length_replicate. repeat split; auto.
Qed.

Lemma wf_accept x y timestamp s : wf s -> wf (accept x y timestamp s).
Proof.
  intros (Hm & Hp & Hd & Hn & Hi & Ha). unfold wf, accept; simpl.
  rewrite length_insert. repeat split; auto.
  apply Nat.mod_upper_bound. lia.
Qed.

Lemma wf_addRipple x y timestamp s : wf s -> wf (addRipple x y timestamp s).
Proof.
  intros Hs. rewrite addRipple_unfold.
  destruct (num_lt _ _); auto using wf_accept.
Qed.

(** *** The pool as a circular buffer *)

Lemma accept_all_snoc s l c :
  accept_all s (l ++ [c]) =
    accept c.1.1 c.1.2 c.2 (accept_all s l).
Proof.
  unfold accept_all. rewrite foldl_app. simpl. now destruct c as [[x y] ts].
Qed.

Lemma accept_all_shape s l :
  nextRippleIndex s < maxRipples s ->
  maxRipples (accept_all s l) = maxRipples s
  /\ length (ripples (accept_all s l)) = length (ripples s)
  /\ nextRippleIndex (accept_all s l)
     = (nextRippleIndex s + length l) mod maxRipples s
  /\ activeRippleCount (accept_all s l) = activeRippleCount s
  /\ rippleData (accept_all s l) = rippleData s
  /\ minRippleInterval (accept_all s l) = minRippleInterval s
  /\ maxAge (accept_all s l) = maxAge s.
Proof.
  intros Hn. induction l as [|c l IH] using rev_ind.
  - simpl. rewrite Nat.add_0_r, Nat.mod_small by done. done.
  - rewrite accept_all_snoc. destruct IH as (Hm & Hp & Hc & Ha & Hd & Hi & Hg).
    unfold accept; simpl. rewrite length_insert, Hm, Hc, length_app; simpl.
    repeat split; auto.
    rewrite Nat.Div0.add_mod_idemp_l. f_equal. lia.
Qed.

Lemma mod_add_ne c i n m :
  i < n -> n < i + m -> (c + i) mod m <> (c + n) mod m.
Proof.
  intros Hi Hn Heq.
  pose proof (Nat.div_mod_eq (c + i) m) as E1.
  pose proof (Nat.div_mod_eq (c + n) m) as E2.
  rewrite Heq in E1.
  set (q1 := (c + i) / m) in *. set (q2 := (c + n) / m) in *.
  set (r := (c + n) mod m) in *.
  assert (q1 < q2) as Hq by nia.
  assert (m * (q1 + 1) <= m * q2) as Hle by (apply Nat.mul_le_mono_l; lia).
  lia.
Qed.

(** After the accepted inserts [l], the slot [i] steps after the old
    cursor holds the record of insert [i], for each of the last
    [maxRipples] inserts. *)
Lemma accept_all_lookup s l i c :
  0 < maxRipples s ->
  length (ripples s) = maxRipples s ->
  nextRippleIndex s < maxRipples s ->
  l !! i = Some c ->
  length l <= i + maxRipples s ->
  ripples (accept_all s l) !! ((nextRippleIndex s + i) mod maxRipples s)
    = Some (fresh_of c).
Proof.
  intros Hm Hp Hn. revert i c. induction l as [|a l IH] using rev_ind.
  - intros i c Hi. done.
  - intros i c Hi Hlen. rewrite accept_all_snoc.
    destruct (accept_all_shape s l Hn) as (Em & Ep & Ec & _).
    rewrite length_app in Hlen; simpl in Hlen.
    unfold accept; simpl. rewrite Ec.
    destruct (decide (i = length l)) as [->|Hne].
    + rewrite lookup_app_r, Nat.sub_diag in Hi by lia. simpl in Hi.
      injection Hi as ->.
      rewrite list_lookup_insert_eq.
      * now destruct c as [[x y] ts].
      * rewrite Ep, Hp. apply Nat.mod_upper_bound. lia.
    + assert (i < length l) as Hlt.
      { apply lookup_lt_Some in Hi. rewrite length_app in Hi; simpl in Hi. lia. }
      rewrite lookup_app_l in Hi by done.
      rewrite list_lookup_insert_ne.
      * apply IH; [done | lia].
      * intros Heq. symmetry in Heq. revert Heq. apply mod_add_ne; lia.
Qed.

(** Read from the cursor on, a pool that took at least [maxRipples]
    accepted inserts lists the last [maxRipples] of them, oldest first. *)
Lemma accept_all_rotate s l :
  0 < maxRipples s ->
  length (ripples s) = maxRipples s ->
  nextRippleIndex s < maxRipples s ->
  maxRipples s <= length l ->
  rotate (nextRippleIndex (accept_all s l)) (ripples (accept_all s l))
    = fresh_of <$> drop (length l - maxRipples s) l.
Proof.
  intros Hm Hp Hn Hl.
  destruct (accept_all_shape s l Hn) as (Em & Ep & Ec & _).
  apply list_eq. intros j.
  destruct (decide (j < maxRipples s)) as [Hj|Hj].
  - rewrite lookup_rotate_r by (rewrite Ep, Hp; done).
    rewrite Ep, Hp, Ec, rotate_nat_add_add_mod.
    unfold rotate_nat_add.
    rewrite <- Nat2Z.inj_add, <- Nat2Z.inj_mod, Nat2Z.id.
    rewrite Nat.Div0.mod_mod, Nat.Div0.add_mod_idemp_l.
    rewrite list_lookup_fmap, lookup_drop.
    destruct (l !! (length l - maxRipples s + j)) as [c|] eqn:E.
    + simpl. rewrite <- (accept_all_lookup s l _ c Hm Hp Hn E) by lia.
      f_equal.
      replace (nextRippleIndex s + length l + j)
        with (nextRippleIndex s + (length l - maxRipples s + j)
              + 1 * maxRipples s) by lia.
      now rewrite Nat.Div0.mod_add.
    + apply lookup_ge_None in E. lia.
  - rewrite !(proj2 (lookup_ge_None _ _)); [done | |].
    + rewrite length_fmap, length_drop. lia.
    + rewrite length_rotate, Ep, Hp. lia.
Qed.

Lemma rotate_Permutation {A} n (l : list A) : rotate n l ≡ₚ l.
Proof.
  unfold rotate. rewrite Permutation_app_comm. now rewrite take_drop.
Qed.

(** *** What [update] computes *)

Lemma aged_inactive ct ma r : Ripple.active r = false -> aged ct ma r = r.
Proof. intros H. unfold aged. now rewrite H. Qed.

(** One iteration of the first loop, in terms of [aged]. *)
Lemma update_slot_aged ct s done r rest :
  ripples s = done ++ r :: rest ->
  update_slot ct s (length done) =
    let r' := aged ct (maxAge s) r in
    {| maxRipples := maxRipples s;
       ripples := done ++ r' :: rest;
       nextRippleIndex := nextRippleIndex s;
       lastRippleTime := lastRippleTime s;
       minRippleInterval := minRippleInterval s;
       maxAge := maxAge s;
       activeRippleCount :=
         activeRippleCount s + length (live [r']);
       rippleData := pack (activeRippleCount s) (live [r']) (rippleData s) |}.
Proof.
  intros Hr. unfold update_slot, aged.
  assert (ripples s !! length done = Some r) as ->.
  { rewrite Hr. now rewrite list_lookup_middle. }
  assert (forall r', <[length done := r']> (ripples s) = done ++ r' :: rest) as Hins.
  { intros r'. rewrite Hr. rewrite insert_app_r_alt, Nat.sub_diag by lia. done. }
  destruct (Ripple.active r) eqn:Ha; simpl.
  - destruct (num_ge _ _) eqn:Hge; simpl.
    + unfold set_ripple. rewrite Hins. simpl. now rewrite Nat.add_0_r.
    + destruct (num_gt _ _) eqn:Hgt; simpl.
      * unfold set_activeRippleCount, set_rippleData, set_ripple; simpl.
        now rewrite Hins.
      * unfold set_ripple. rewrite Hins. simpl. now rewrite Nat.add_0_r.
  - unfold live. rewrite filter_cons_False by (simpl; congruence). simpl.
    rewrite Nat.add_0_r, <- Hr. now destruct s.
Qed.

Lemma live_cons r l : live (r :: l) = live [r] ++ live l.
Proof. unfold live. apply (filter_app _ [r] l). Qed.

Lemma pack_app k l1 l2 d :
  pack k (l1 ++ l2) d = pack (k + length l1) l2 (pack k l1 d).
Proof.
  revert k d. induction l1 as [|r l1 IH]; intros k d; simpl.
  - now rewrite Nat.add_0_r.
  - rewrite IH. f_equal. lia.
Qed.

(** The first loop of [update] over the slots not yet visited. *)
Lemma update_loop ct rest : forall done s,
  ripples s = done ++ rest ->
  foldl (update_slot ct) s (seq (length done) (length rest)) =
    {| maxRipples := maxRipples s;
       ripples := done ++ (aged ct (maxAge s) <$> rest);
       nextRippleIndex := nextRippleIndex s;
       lastRippleTime := lastRippleTime s;
       minRippleInterval := minRippleInterval s;
       maxAge := maxAge s;
       activeRippleCount :=
         activeRippleCount s + length (live (aged ct (maxAge s) <$> rest));
       rippleData :=
         pack (activeRippleCount s) (live (aged ct (maxAge s) <$> rest))
           (rippleData s) |}.
Proof.
  induction rest as [|r rest IH]; intros done s Hr.
  - simpl. rewrite Nat.add_0_r, <- Hr. now destruct s.
  - simpl. rewrite (update_slot_aged ct s done r rest Hr).
    set (r' := aged ct (maxAge s) r). simpl.
    replace (S (length done)) with (length (done ++ [r']))
      by (rewrite length_app; simpl; lia).
    rewrite IH by (simpl; now rewrite <- app_assoc).
    simpl. rewrite <- app_assoc. simpl.
    rewrite (live_cons r' (list_fmap _ _ (aged ct (maxAge s)) rest)).
    rewrite length_app, pack_app.
    f_equal. symmetry. apply Nat.add_assoc.
Qed.

Lemma clear_loop s c n :
  foldl clear_slot s (seq c n) = set_rippleData (clear c n (rippleData s)) s.
Proof.
  unfold clear. revert s c. induction n as [|n IH]; intros s c; simpl.
  - now destruct s.
  - rewrite IH. unfold clear_slot, set_rippleData. simpl. done.
Qed.

(** [update] in closed form: every record is aged, the active ones are
    packed in slot order from the start of the buffer, and the strength
    fields behind them are cleared. *)
Lemma update_spec timestamp s :
  length (ripples s) = maxRipples s ->
  (update timestamp s).1 =
    let ct := num_div timestamp (num_lit 1000) in
    let rs := aged ct (maxAge s) <$> ripples s in
    {| maxRipples := maxRipples s;
       ripples := rs;
       nextRippleIndex := nextRippleIndex s;
       lastRippleTime := lastRippleTime s;
       minRippleInterval := minRippleInterval s;
       maxAge := maxAge s;
       activeRippleCount := length (live rs);
       rippleData :=
         clear (length (live rs)) (maxRipples s - length (live rs))
           (pack 0 (live rs) (rippleData s)) |}.
Proof.
  intros Hp. unfold update. simpl.
  pose proof (update_loop (num_div timestamp (num_lit 1000)) (ripples s) []
                (set_activeRippleCount 0 s) eq_refl) as Hloop.
  simpl in Hloop. rewrite Hp in Hloop. rewrite Hloop, clear_loop. done.
Qed.

Lemma update_result timestamp s :
  (update timestamp s).2 =
    {| data := rippleData (update timestamp s).1;
       activeCount := activeRippleCount (update timestamp s).1 |}.
Proof. reflexivity. Qed.

(** *** The buffer *)

Lemma length_store b r d : length (store_ripple b r d) = length d.
Proof. unfold store_ripple. now rewrite !length_insert. Qed.

Lemma length_pack l : forall k d, length (pack k l d) = length d.
Proof.
  induction l as [|r l IH]; intros k d; simpl; [done|].
  now rewrite IH, length_store.
Qed.

Lemma clear_S c n d :
  clear c (S n) d = clear (S c) n (<[c * 4 + 2 := fround (num_lit 0)]> d).
Proof. reflexivity. Qed.

Lemma length_clear n : forall c d, length (clear c n d) = length d.
Proof.
  induction n as [|n IH]; intros c d; [done|].
  now rewrite clear_S, IH, length_insert.
Qed.

Lemma lookup_store b r d p :
  store_ripple b r d !! p =
    if decide (b <= p < b + 4 /\ p < length d) then packed r !! (p - b)
    else d !! p.
Proof.
  unfold store_ripple. rewrite !list_lookup_insert, !length_insert.
  destruct (decide (p < length d)) as [Hp|Hp].
  - destruct (decide (p = b + 3)) as [->|H3].
    { rewrite !decide_True by lia. now replace (b + 3 - b) with 3 by lia. }
    rewrite (decide_False (P := b + 3 = p /\ _)) by lia.
    destruct (decide (p = b + 2)) as [->|H2].
    { rewrite !decide_True by lia. now replace (b + 2 - b) with 2 by lia. }
    rewrite (decide_False (P := b + 2 = p /\ _)) by lia.
    destruct (decide (p = b + 1)) as [->|H1].
    { rewrite !decide_True by lia. now replace (b + 1 - b) with 1 by lia. }
    rewrite (decide_False (P := b + 1 = p /\ _)) by lia.
    destruct (decide (p = b)) as [->|H0].
    { rewrite !decide_True by lia. now rewrite Nat.sub_diag. }
    now rewrite !decide_False by lia.
  - now rewrite !decide_False by lia.
Qed.

Lemma lookup_pack_lt l : forall k d p,
  p < k * 4 -> pack k l d !! p = d !! p.
Proof.
  induction l as [|r l IH]; intros k d p Hp; simpl; [done|].
  rewrite IH by lia. rewrite lookup_store. now rewrite decide_False by lia.
Qed.

Lemma lookup_pack l : forall k d q j r,
  l !! q = Some r -> j < 4 -> (k + q) * 4 + j < length d ->
  pack k l d !! ((k + q) * 4 + j) = packed r !! j.
Proof.
  induction l as [|r0 l IH]; intros k d q j r Hq Hj Hlen; [done|].
  simpl. destruct q as [|q]; simpl in Hq.
  - injection Hq as ->. rewrite lookup_pack_lt by lia.
    rewrite lookup_store, decide_True by lia. f_equal. lia.
  - replace ((k + S q) * 4 + j) with ((S k + q) * 4 + j) by lia.
    apply IH; [done | done |]. rewrite length_store. lia.
Qed.

Lemma lookup_clear_lt n : forall c d p,
  p < c * 4 -> clear c n d !! p = d !! p.
Proof.
  induction n as [|n IH]; intros c d p Hp; [done|].
  rewrite clear_S, IH by lia. now rewrite list_lookup_insert_ne by lia.
Qed.

Lemma lookup_clear n : forall c d i,
  c <= i < c + n -> i * 4 + 2 < length d ->
  clear c n d !! (i * 4 + 2) = Some (fround (num_lit 0)).
Proof.
  induction n as [|n IH]; intros c d i Hi Hlen; [lia|].
  rewrite clear_S. destruct (decide (i = c)) as [->|Hne].
  - rewrite lookup_clear_lt by lia. now rewrite list_lookup_insert_eq.
  - apply IH; [lia|]. now rewrite length_insert.
Qed.

Lemma lookup_entry d k j :
  entry d k !! j = if decide (j < 4) then d !! (k * 4 + j) else None.
Proof. unfold entry. now rewrite lookup_take, lookup_drop. Qed.

(** *** Well-formedness is invariant *)

Lemma wf_update timestamp s : wf s -> wf (update timestamp s).1.
Proof.
  intros (Hm & Hp & Hd & Hn & Hi & Ha).
  rewrite update_spec by done. unfold wf; simpl.
  rewrite length_fmap, length_clear, length_pack. done.
Qed.

Lemma reachable_wf s : reachable s -> wf s /\ maxRipples s = 128.
Proof.
  induction 1 as [|x y ts s _ [IH1 IH2]|ts s _ [IH1 IH2]].
  - split; [apply wf_new; lia | done].
  - split; [now apply wf_addRipple|].
    rewrite addRipple_unfold. now destruct (num_lt _ _).
  - split; [now apply wf_update|].
    rewrite update_spec by apply IH1. done.
Qed.

(** *** Stores repeated *)

Lemma apply_writes_app ws1 ws2 d :
  apply_writes (ws1 ++ ws2) d = apply_writes ws2 (apply_writes ws1 d).
Proof. unfold apply_writes. apply foldl_app. Qed.

Lemma length_apply_writes ws : forall d, length (apply_writes ws d) = length d.
Proof.
  induction ws as [|w ws IH]; intros d; simpl; [done|].
  now rewrite IH, length_insert.
Qed.

(** A sequence of stores leaves at each index the value of the last store
    to it, and what was there when no store names it. *)
Lemma lookup_apply_writes ws : forall d p,
  apply_writes ws d !! p =
    match last_write p ws with
    | Some v => if decide (p < length d) then Some v else None
    | None => d !! p
    end.
Proof.
  induction ws as [|w ws IH]; intros d p; simpl; [done|].
  rewrite IH, length_insert. destruct (last_write p ws) as [v|]; [done|].
  rewrite list_lookup_insert. destruct w as [i v]; simpl.
  destruct (decide (i = p)) as [->|Hne].
  - destruct (decide (p < length d)) as [Hlt|Hge].
    + now rewrite decide_True.
    + rewrite decide_False by tauto. apply lookup_ge_None. lia.
  - now rewrite decide_False by tauto.
Qed.

Lemma apply_writes_idemp ws d :
  apply_writes ws (apply_writes ws d) = apply_writes ws d.
Proof.
  apply list_eq. intros p.
  rewrite (lookup_apply_writes ws (apply_writes ws d)), length_apply_writes.
  rewrite (lookup_apply_writes ws d).
  now destruct (last_write p ws).
Qed.

Lemma pack_as_writes l : forall k d,
  pack k l d = apply_writes (pack_writes k l) d.
Proof.
  induction l as [|r l IH]; intros k d; simpl; [done|].
  now rewrite IH.
Qed.

Lemma clear_as_writes c n d : clear c n d = apply_writes (clear_writes c n) d.
Proof.
  unfold clear, apply_writes, clear_writes. now rewrite foldl_fmap.
Qed.

Lemma aged_idemp ct ma r : aged ct ma (aged ct ma r) = aged ct ma r.
Proof.
  destruct (Ripple.active r) eqn:Ha;
    [|now rewrite !(aged_inactive ct ma r Ha)].
  unfold aged. rewrite Ha. simpl.
  destruct (num_ge _ _) eqn:Hge; simpl; [done|].
  destruct (num_gt _ _) eqn:Hgt; simpl; [|done].
  now rewrite Hge.
Qed.

(** [update] run again with the same timestamp changes nothing at all:
    not the pool, the count or any element of the buffer. *)
Lemma update_twice timestamp s :
  length (ripples s) = maxRipples s ->
  (update timestamp (update timestamp s).1).1 = (update timestamp s).1.
Proof.
  intros Hp.
  rewrite (update_spec timestamp (update timestamp s).1)
    by (rewrite update_spec by done; simpl; now rewrite length_fmap).
  rewrite update_spec by done. simpl.
  set (ct := num_div timestamp (num_lit 1000)).
  rewrite <- list_fmap_compose.
  rewrite (list_fmap_ext (aged ct (maxAge s) ∘ aged ct (maxAge s))
             (aged ct (maxAge s)) (ripples s))
    by (intros ? r _; apply aged_idemp).
  f_equal.
  rewrite !clear_as_writes, !pack_as_writes.
  set (P := pack_writes 0 _). set (C := clear_writes _ _).
  rewrite <- !(apply_writes_app P C).
  apply apply_writes_idemp.
Qed.

(** *** The packing order *)

Lemma filter_ext_elem {A} (P Q : A -> Prop)
    `{!forall a, Decision (P a), !forall a, Decision (Q a)} (l : list A) :
  (forall a, a ∈ l -> P a <-> Q a) -> filter P l = filter Q l.
Proof.
  induction l as [|a l IH]; intros Hext; [done|].
  rewrite !filter_cons, IH by (intros b Hb; apply Hext; now right).
  destruct (decide (P a)) as [HP|HP], (decide (Q a)) as [HQ|HQ]; try done.
  - destruct HQ. apply Hext; [left | done].
  - destruct HP. apply Hext; [left | done].
Qed.

Lemma filter_StronglySorted {A} (Rel : relation A) (P : A -> Prop)
    `{!forall a, Decision (P a)} (l : list A) :
  StronglySorted Rel l -> StronglySorted Rel (filter P l).
Proof.
  induction 1 as [|a l Hs IH Hall]; [constructor|].
  rewrite filter_cons. destruct (decide (P a)); [|done].
  constructor; [done|].
  apply Forall_forall. intros b [_ Hb]%list_elem_of_filter.
  rewrite Forall_forall in Hall. auto.
Qed.

Lemma live_slots_snoc (l : list (Ripple.t num)) r :
  live_slots (l ++ [r]) =
    live_slots l ++ (if Ripple.active r then [length l] else []).
Proof.
  unfold live_slots. rewrite length_app. simpl length.
  rewrite Nat.add_1_r, seq_S, filter_app. f_equal.
  - apply filter_ext_elem. intros i Hi%elem_of_seq.
    now rewrite lookup_app_l by lia.
  - simpl. rewrite filter_cons, filter_nil.
    rewrite list_lookup_middle by done. simpl.
    destruct (Ripple.active r); now case_decide.
Qed.

(** The active records of a pool are the records of its active slots,
    taken in increasing slot order. *)
Lemma live_by_slot (l : list (Ripple.t num)) :
  Some <$> live l = (fun i => l !! i) <$> live_slots l.
Proof.
  induction l as [|r l IH] using rev_ind; [done|].
  unfold live in *. rewrite filter_app, live_slots_snoc, !fmap_app, IH.
  f_equal.
  - apply list_fmap_ext. intros ? i Hi%list_elem_of_lookup_2.
    unfold live_slots in Hi. apply list_elem_of_filter in Hi as [_ Hi%elem_of_seq].
    now rewrite lookup_app_l by lia.
  - rewrite filter_cons, filter_nil.
    destruct (Ripple.active r) eqn:Ha; simpl.
    + now rewrite list_lookup_middle.
    + done.
Qed.

Lemma seq_StronglySorted n : forall k, StronglySorted lt (seq k n).
Proof.
  induction n as [|n IH]; intros k; simpl; constructor; [apply IH|].
  apply Forall_forall. intros i Hi%elem_of_seq. lia.
Qed.

Lemma live_slots_sorted (l : list (Ripple.t num)) :
  StronglySorted lt (live_slots l).
Proof. apply filter_StronglySorted, seq_StronglySorted. Qed.

Lemma live_slots_length (l : list (Ripple.t num)) :
  length (live_slots l) = length (live l).
Proof.
  pose proof (f_equal length (live_by_slot l)) as H.
  now rewrite !length_fmap in H.
Qed.

(** *** What the buffer holds after [update] *)

Lemma live_active (l : list (Ripple.t num)) k r :
  live l !! k = Some r -> Ripple.active r = true.
Proof.
  intros H%list_elem_of_lookup_2. unfold live in H.
  now apply list_elem_of_filter in H as [? _].
Qed.

(** Record position [k] of the buffer holds the [k]-th active record of
    the pool. *)
Lemma update_entry timestamp s k r :
  wf s ->
  live (ripples (update timestamp s).1) !! k = Some r ->
  entry (rippleData (update timestamp s).1) k = packed r.
Proof.
  intros (Hm & Hp & Hd & Hn & Hi & Ha). rewrite update_spec by done. simpl.
  set (L := live _). intros Hk.
  assert (k < length L) as Hlt by now apply lookup_lt_Some in Hk.
  assert (length L <= maxRipples s) as Hle.
  { unfold L, live. etrans; [apply length_filter|].
    now rewrite length_fmap, Hp. }
  apply list_eq. intros j. rewrite lookup_entry.
  destruct (decide (j < 4)) as [Hj|Hj].
  - rewrite lookup_clear_lt by lia.
    apply (lookup_pack L 0 (rippleData s) k j r Hk Hj). simpl. lia.
  - symmetry. apply lookup_ge_None. simpl. lia.
Qed.

(** The strength field of every record position behind the packed ones
    holds the stored zero. *)
Lemma update_trailing timestamp s i :
  wf s ->
  activeRippleCount (update timestamp s).1 <= i < maxRipples s ->
  rippleData (update timestamp s).1 !! (i * 4 + 2) = Some (fround (num_lit 0)).
Proof.
  intros (Hm & Hp & Hd & Hn & Hi & Ha). rewrite update_spec by done. simpl.
  intros Hrange. apply lookup_clear; [lia|].
  rewrite length_pack. lia.
Qed.

Lemma update_count_le timestamp s :
  wf s -> activeRippleCount (update timestamp s).1 <= maxRipples s.
Proof.
  intros (Hm & Hp & Hd & Hn & Hi & Ha). rewrite update_spec by done. simpl.
  unfold live. etrans; [apply length_filter|]. now rewrite length_fmap, Hp.
Qed.

Lemma update_count_live timestamp s :
  wf s ->
  activeRippleCount (update timestamp s).1
    = length (live (ripples (update timestamp s).1)).
Proof. intros (Hm & Hp & _). now rewrite update_spec by done. Qed.

(** The packed records are those of the active slots, by increasing
    slot. *)
Lemma update_entry_slot timestamp s k i :
  wf s ->
  live_slots (ripples (update timestamp s).1) !! k = Some i ->
  exists r,
    ripples (update timestamp s).1 !! i = Some r
    /\ Ripple.active r = true
    /\ entry (rippleData (update timestamp s).1) k = packed r.
Proof.
  intros Hwf Hk.
  pose proof (fun r => update_entry timestamp s k r Hwf) as Hentry.
  set (s' := (update timestamp s).1) in *. clearbody s'.
  pose proof (live_by_slot (ripples s')) as Hby.
  apply (f_equal (fun l => l !! k)) in Hby.
  rewrite !list_lookup_fmap, Hk in Hby.
  destruct (live (ripples s') !! k) as [r|] eqn:Hr; [|done].
  simpl in Hby. exists r. split; [congruence|]. split.
  - eapply live_active, Hr.
  - now apply Hentry.
Qed.

(** *** Sequences of accepted inserts *)

Lemma accepted_insert_all s l :
  minRippleInterval s = num_lit 25 ->
  accepted_after (lastRippleTime s) l ->
  insert_all s l = accept_all s l.
Proof.
  revert s. induction l as [|[[x y] ts] l IH]; intros s Hi Hacc; [done|].
  destruct Hacc as [H25 Hacc]. unfold insert_all, accept_all. simpl.
  rewrite addRipple_accepted by now rewrite Hi.
  now apply IH.
Qed.

End LedgerFacts.

(** ** The ledger in exact arithmetic *)

Lemma num_lt_Q (a b : Q) : num_lt a b = true <-> (a < b)%Q.
Proof.
  simpl. destruct (Qlt_le_dec a b) as [H|H]; split; try done.
  intros H'. exfalso. now apply (Qlt_not_le a b).
Qed.

Lemma num_ge_Q (a b : Q) : num_ge a b = true <-> (b <= a)%Q.
Proof.
  simpl. destruct (Qlt_le_dec a b) as [H|H]; split; try done.
  intros H'. exfalso. now apply (Qlt_not_le a b).
Qed.

Lemma num_gt_Q (a b : Q) : num_gt a b = true <-> (b < a)%Q.
Proof.
  simpl. destruct (Qlt_le_dec b a) as [H|H]; split; try done.
  intros H'. exfalso. now apply (Qlt_not_le b a).
Qed.

Lemma Qdiv_lit (a : Q) (n : positive) : (a / (Zpos n # 1) == a * (1 # n))%Q.
Proof. reflexivity. Qed.

(** Closes an order goal between rationals built with [Qred] and division
    by literals. *)
Ltac qarith :=
  rewrite ?Qred_correct in *;
  repeat match goal with
  | H : context [ (?a / (Zpos ?n # 1))%Q ] |- _ => rewrite (Qdiv_lit a n) in H
  | |- context [ (?a / (Zpos ?n # 1))%Q ] => rewrite (Qdiv_lit a n)
  end;
  rewrite ?Qred_correct in *;
  Lqa.lra.

Lemma spaced_accepted_after (l : list (Q * Q * Q)) : forall last,
  spaced last l -> accepted_after last l.
Proof.
  induction l as [|[[x y] ts] l IH]; intros last Hsp; [done|].
  destruct Hsp as [H25 Hsp]. split; [|now apply IH].
  destruct (num_lt (num_sub ts last) (num_lit 25)) eqn:E; [|done].
  apply num_lt_Q in E. simpl in E. exfalso. qarith.
Qed.

Lemma reachable_insert_all {num : Type} `{!Arith num} (s : t num) l :
  reachable s -> reachable (insert_all s l).
Proof.
  revert s. induction l as [|[[x y] ts] l IH]; intros s Hs; [done|].
  apply IH. now constructor.
Qed.

(** ** Insertion *)

(** C4.  An [addRipple] for which [timestamp - lastRippleTime < 25]
    holds returns at once: the whole state of the manager (every pool
    slot, the write cursor, [lastRippleTime], the count and the buffer) is
    the one before the call.  This holds in every arithmetic. *)
Theorem addRipple_too_soon_is_dropped {num : Type} `{!Arith num}
    (s : t num) (x y timestamp : num) :
  wf s ->
  num_lt (num_sub timestamp (lastRippleTime s)) (num_lit 25) = true ->
  addRipple x y timestamp s = s.
Proof.
  intros (_ & _ & _ & _ & Hi & _) Hlt.
  apply addRipple_rejected. now rewrite Hi.
Qed.

Lemma addRipple_too_soon_is_dropped_witness :
  wf (new 128 : t Q)
  /\ (10 - lastRippleTime (new 128 : t Q) < 25)%Q
  /\ addRipple (1 # 2)%Q (1 # 2)%Q 10%Q (new 128) = new 128.
Proof.
  assert (wf (new 128 : t Q)) as Hwf by (apply wf_new; lia).
  assert (10 - lastRippleTime (new 128 : t Q) < 25)%Q as Hlt by reflexivity.
  split; [exact Hwf|]. split; [exact Hlt|].
  exact (addRipple_too_soon_is_dropped (new 128) (1 # 2)%Q (1 # 2)%Q 10%Q
           Hwf eq_refl).
Defined.

(** The same for rationals, in terms of their order. *)
Lemma addRipple_too_soon_Q (s : t Q) (x y timestamp : Q) :
  wf s ->
  (timestamp - lastRippleTime s < 25)%Q ->
  addRipple x y timestamp s = s.
Proof.
  intros (_ & _ & _ & _ & Hi & _) Hlt. apply addRipple_rejected.
  apply num_lt_Q. rewrite Hi. simpl. qarith.
Qed.

(** C1.  In a manager of capacity 128, an [addRipple] that passes the
    test of the rate limiter (its timestamp is not less than 25 ms after
    [lastRippleTime]) replaces exactly the slot at the write cursor by a
    fresh record (the given position, start time [timestamp / 1000],
    strength 1, active), moves the cursor to the next slot modulo 128 and
    records the timestamp; nothing else changes.  After 130 such inserts
    the pool, read from the cursor on, lists the records of the last 128
    of them, oldest first, and the two slots the first two inserts had
    written hold the records of inserts 128 and 129.  This holds in every
    arithmetic. *)
Theorem addRipple_overwrites_cursor_slot {num : Type} `{!Arith num}
    (s : t num) :
  wf s ->
  maxRipples s = 128 ->
  (forall x y timestamp,
     num_lt (num_sub timestamp (lastRippleTime s)) (num_lit 25) = false ->
     let r :=
       Ripple.mk x y (num_div timestamp (num_lit 1000)) (num_lit 1) true in
     addRipple x y timestamp s =
       {| maxRipples := 128;
          ripples := <[nextRippleIndex s := r]> (ripples s);
          nextRippleIndex := (nextRippleIndex s + 1) mod 128;
          lastRippleTime := timestamp;
          minRippleInterval := minRippleInterval s;
          maxAge := maxAge s;
          activeRippleCount := activeRippleCount s;
          rippleData := rippleData s |}
     /\ ripples (addRipple x y timestamp s) !! nextRippleIndex s = Some r
     /\ (forall j, j <> nextRippleIndex s ->
           ripples (addRipple x y timestamp s) !! j = ripples s !! j))
  /\ (forall l : list (num * num * num),
        length l = 130 ->
        accepted_after (lastRippleTime s) l ->
        let s' := insert_all s l in
        length (ripples s') = 128
        /\ rotate (nextRippleIndex s') (ripples s') = fresh_of <$> drop 2 l
        /\ ripples s' ≡ₚ fresh_of <$> drop 2 l
        /\ ripples s' !! nextRippleIndex s = fresh_of <$> l !! 128
        /\ ripples s' !! ((nextRippleIndex s + 1) mod 128)
           = fresh_of <$> l !! 129).
Proof.
  intros (Hm & Hp & Hd & Hn & Hi & Ha) Hcap. split.
  - intros x y ts H25 r.
    rewrite addRipple_accepted by now rewrite Hi.
    unfold accept. rewrite Hcap. fold r.
    split; [done|]. split.
    + apply list_lookup_insert_eq. lia.
    + intros j Hj. now apply list_lookup_insert_ne.
  - intros l Hl Hacc s'. unfold s'.
    rewrite (accepted_insert_all s l Hi Hacc).
    destruct (accept_all_shape s l Hn) as (Em & Ep & Ec & _).
    split; [lia|].
    assert (rotate (nextRippleIndex (accept_all s l)) (ripples (accept_all s l))
            = fresh_of <$> drop 2 l) as Hrot.
    { rewrite accept_all_rotate by lia. now rewrite Hl, Hcap. }
    split; [exact Hrot|]. split.
    { rewrite <- Hrot. symmetry. apply rotate_Permutation. }
    split.
    + destruct (l !! 128) as [c|] eqn:E.
      * simpl. rewrite <- (accept_all_lookup s l 128 c) by (done || lia).
        f_equal. rewrite Hcap.
        replace (nextRippleIndex s + 128) with (nextRippleIndex s + 1 * 128)
          by lia.
        rewrite Nat.Div0.mod_add. symmetry. apply Nat.mod_small. lia.
      * apply lookup_ge_None in E. lia.
    + destruct (l !! 129) as [c|] eqn:E.
      * simpl. rewrite <- (accept_all_lookup s l 129 c) by (done || lia).
        f_equal. rewrite Hcap.
        replace (nextRippleIndex s + 129)
          with (nextRippleIndex s + 1 + 1 * 128) by lia.
        now rewrite Nat.Div0.mod_add.
      * apply lookup_ge_None in E. lia.
Qed.

(** For rationals the test passes exactly when the timestamp is at least
    25 ms after [lastRippleTime], and the start time is [timestamp / 1000]
    in lowest terms. *)
Lemma accepted_Q (timestamp last : Q) :
  num_lt (num_sub timestamp last) (num_lit 25) = false
  <-> (25 <= timestamp - last)%Q.
Proof.
  split.
  - intros E. destruct (Qlt_le_dec (timestamp - last) 25) as [H|H]; [|done].
    assert (num_lt (num_sub timestamp last) (num_lit 25) = true) as E'
      by (apply num_lt_Q; simpl; qarith).
    congruence.
  - intros H. destruct (num_lt _ _) eqn:E; [|done].
    apply num_lt_Q in E. simpl in E. exfalso. qarith.
Qed.

Lemma fresh_startTime_Q (x y timestamp : Q) :
  (Ripple.startTime (fresh x y timestamp) == timestamp / 1000)%Q.
Proof. simpl. qarith. Qed.

Lemma steady_inserts_spaced n : forall k,
  spaced (inject_Z (25 * Z.of_nat k)) (steady_inserts k n).
Proof.
  induction n as [|n IH]; intros k; [done|].
  split; [|apply IH].
  unfold Qle, Qminus, Qplus, Qopp, inject_Z. simpl. lia.
Qed.

Lemma addRipple_overwrites_cursor_slot_witness :
  wf (new 128 : t Q)
  /\ maxRipples (new 128 : t Q) = 128
  /\ (25 <= 25 - lastRippleTime (new 128 : t Q))%Q
  /\ nextRippleIndex (addRipple (1 # 2)%Q (1 # 2)%Q 25%Q (new 128)) = 1
  /\ spaced (lastRippleTime (new 128 : t Q)) (steady_inserts 0 130)
  /\ ripples (insert_all (new 128) (steady_inserts 0 130))
     ≡ₚ fresh_of <$> drop 2 (steady_inserts 0 130).
Proof.
  assert (wf (new 128 : t Q)) as Hwf by (apply wf_new; lia).
  assert (25 <= 25 - lastRippleTime (new 128 : t Q))%Q as H25
    by (vm_compute; discriminate).
  pose proof (steady_inserts_spaced 130 0) as Hsp.
  destruct (addRipple_overwrites_cursor_slot (new 128) Hwf eq_refl)
    as [Hone Hmany].
  split; [exact Hwf|]. split; [reflexivity|]. split; [exact H25|].
  split; [|split; [exact Hsp|]].
  - destruct (Hone (1 # 2)%Q (1 # 2)%Q 25%Q (proj2 (accepted_Q _ _) H25))
      as [-> _]. reflexivity.
  - exact (proj1 (proj2 (proj2
             (Hmany (steady_inserts 0 130) eq_refl
                (spaced_accepted_after _ _ Hsp))))).
Defined.

(** ** Aging and packing *)

(** C6.  Calling [update] a second time with the same timestamp, with no
    [addRipple] in between, returns the same count and a buffer with the
    same contents; the state of the manager is the one the first call
    left.  This holds in every arithmetic. *)
Theorem update_idempotent {num : Type} `{!Arith num}
    (s : t num) (timestamp : num) :
  wf s ->
  let first := update timestamp s in
  let second := update timestamp first.1 in
  activeCount second.2 = activeCount first.2
  /\ data second.2 = data first.2
  /\ second.1 = first.1.
Proof.
  intros (Hm & Hp & _) first second.
  assert (second.1 = first.1) as H by now apply update_twice.
  split; [|split; [|exact H]].
  - change (activeRippleCount second.1 = activeRippleCount first.1).
    now rewrite H.
  - change (rippleData second.1 = rippleData first.1).
    now rewrite H.
Qed.

Lemma update_idempotent_witness :
  wf (addRipple (1 # 2)%Q (1 # 2)%Q 25%Q (new 128))
  /\ activeCount
       (update 1000%Q
          (update 1000%Q (addRipple (1 # 2)%Q (1 # 2)%Q 25%Q (new 128))).1).2
     = 1
  /\ data
       (update 1000%Q
          (update 1000%Q (addRipple (1 # 2)%Q (1 # 2)%Q 25%Q (new 128))).1).2
     = data (update 1000%Q (addRipple (1 # 2)%Q (1 # 2)%Q 25%Q (new 128))).2.
Proof.
  assert (wf (addRipple (1 # 2)%Q (1 # 2)%Q 25%Q (new 128))) as Hwf
    by (apply wf_addRipple, wf_new; lia).
  destruct (update_idempotent _ 1000%Q Hwf) as (Hc & Hd & _).
  split; [exact Hwf|]. split; [|exact Hd].
  rewrite Hc. vm_compute. reflexivity.
Defined.

(** The pool after 129 steady inserts: the cursor has wrapped, slot 0
    holds the newest record. *)
Lemma wrapped_pool_reachable :
  reachable (insert_all (new 128 : t Q) (steady_inserts 0 129)).
Proof. apply reachable_insert_all. constructor. Qed.

(** C3.  For every state the page can reach and every timestamp, in every
    arithmetic, [update] returns a count of at most 128; the count is the
    number of slots that hold an active record; record position [k] of
    the buffer holds the packed record of the [k]-th of these slots in
    increasing slot order; and every record position from the count up to
    127 has the stored zero as its strength.  The order is not the order
    of insertion: after 129 steady inserts and an [update] at the time of
    the last one, the record packed first was started later than the
    record packed second. *)
Theorem update_packs_in_slot_order :
  (forall (num : Type) (A : Arith num) (s : t num) (timestamp : num),
     reachable s ->
     let s' := (update timestamp s).1 in
     let res := (update timestamp s).2 in
     activeCount res <= 128
     /\ activeCount res = length (live_slots (ripples s'))
     /\ StronglySorted lt (live_slots (ripples s'))
     /\ (forall k i,
           live_slots (ripples s') !! k = Some i ->
           i < 128
           /\ exists r,
                ripples s' !! i = Some r
                /\ Ripple.active r = true
                /\ entry (data res) k = packed r)
     /\ (forall i,
           activeCount res <= i < 128 ->
           data res !! (i * 4 + 2) = Some (fround (num_lit 0))))
  /\ (fround (num_lit 0) = 0%Q
      /\ fround (num_lit 0) = PrimFloat.zero)
  /\ (exists (s : t Q) (timestamp : Q),
        reachable s
        /\ 2 <= activeCount (update timestamp s).2
        /\ exists first second : Q,
             entry (data (update timestamp s).2) 0 !! 3 = Some first
             /\ entry (data (update timestamp s).2) 1 !! 3 = Some second
             /\ (second < first)%Q).
Proof.
  split; [|split].
  - intros num A s ts Hs s' res.
    destruct (reachable_wf s Hs) as [Hwf Hcap].
    assert (wf s') as Hwf' by now apply wf_update.
    assert (maxRipples s' = 128) as Hcap'.
    { unfold s'. rewrite update_spec by apply Hwf. done. }
    change (data res) with (rippleData s').
    change (activeCount res) with (activeRippleCount s').
    split; [|split; [|split; [|split]]].
    + unfold s'. rewrite <- Hcap. now apply update_count_le.
    + unfold s'. rewrite live_slots_length. now apply update_count_live.
    + apply live_slots_sorted.
    + intros k i Hk. split.
      * apply list_elem_of_lookup_2 in Hk. unfold live_slots in Hk.
        apply list_elem_of_filter in Hk as [_ Hi%elem_of_seq].
        destruct Hwf' as (_ & Hp' & _). lia.
      * now apply update_entry_slot.
    + intros i Hi. rewrite <- Hcap in Hi.
      now apply (update_trailing ts s i Hwf).
  - split; [reflexivity | vm_compute; reflexivity].
  - exists (insert_all (new 128) (steady_inserts 0 129)), 3225%Q.
    split; [apply wrapped_pool_reachable|].
    split; [vm_compute; lia|].
    exists (129 # 40)%Q, (5 # 4)%Q.
    split; [vm_compute; reflexivity|].
    split; [vm_compute; reflexivity|].
    reflexivity.
Qed.

Lemma update_packs_in_slot_order_witness :
  reachable (insert_all (new 128 : t Q) (steady_inserts 0 129))
  /\ activeCount
       (update 3225%Q (insert_all (new 128) (steady_inserts 0 129))).2 <= 128
  /\ live_slots
       (ripples
          (update 3225%Q (insert_all (new 128) (steady_inserts 0 129))).1)
     !! 1 = Some 49.
Proof.
  split; [apply wrapped_pool_reachable|].
  split; [|vm_compute; reflexivity].
  exact (proj1 (proj1 update_packs_in_slot_order Q ArithQ _ 3225%Q
                  wrapped_pool_reachable)).
Defined.

Lemma update_lookup {num : Type} `{!Arith num}
    (s : t num) (timestamp : num) (i : nat) (r : Ripple.t num) :
  wf s ->
  ripples s !! i = Some r ->
  ripples (update timestamp s).1 !! i
    = Some (aged (num_div timestamp (num_lit 1000)) (num_lit 2) r).
Proof.
  intros (Hm & Hp & Hd & Hn & Hi & Ha) Hr. rewrite update_spec by done.
  simpl. now rewrite list_lookup_fmap, Hr, Ha.
Qed.

(** C2.  [update(timestamp)] on an active record, with
    [age = timestamp / 1000 - startTime]: when the test [age >= 2] holds,
    the record is deactivated and its strength set to 0; otherwise its
    strength becomes [1 - age / 2], and it stays active exactly when that
    strength passes the test [> 0.01].  Position and start time are kept.
    So it is in every arithmetic.  For rationals the tests are the order
    of the rationals and the strength is the affine function
    [1 - age / 2] of the age, which is strictly decreasing and is 0 at an
    age of 2 s. *)
Theorem update_ages_active_record :
  (forall (num : Type) (A : Arith num) (s : t num) (timestamp : num)
          (i : nat) (r : Ripple.t num),
     wf s ->
     ripples s !! i = Some r ->
     Ripple.active r = true ->
     let age :=
       num_sub (num_div timestamp (num_lit 1000)) (Ripple.startTime r) in
     let strength := num_sub (num_lit 1) (num_div age (num_lit 2)) in
     ripples (update timestamp s).1 !! i =
       Some
         (if num_ge age (num_lit 2)
          then Ripple.mk (Ripple.x r) (Ripple.y r) (Ripple.startTime r)
                 (num_lit 0) false
          else Ripple.mk (Ripple.x r) (Ripple.y r) (Ripple.startTime r)
                 strength (num_gt strength (num_lit (1 # 100)))))
  /\ (forall timestamp startTime : Q,
        let age := num_sub (num_div timestamp (num_lit 1000)) startTime in
        let strength := num_sub (num_lit 1) (num_div age (num_lit 2)) in
        (age == timestamp / 1000 - startTime)%Q
        /\ (num_ge age (num_lit 2) = true <-> (2 <= age)%Q)
        /\ (strength == 1 - age / 2)%Q
        /\ (num_gt strength (num_lit (1 # 100)) = true
            <-> (1 # 100 < strength)%Q)
        /\ num_lit 0 = 0%Q)
  /\ (forall a1 a2 : Q, (a1 < a2)%Q -> (1 - a2 / 2 < 1 - a1 / 2)%Q)
  /\ (1 - 2 / 2 <= 0)%Q.
Proof.
  split; [|split; [|split]].
  - intros num A s timestamp i r Hwf Hr Ha age strength.
    rewrite (update_lookup s timestamp i r Hwf Hr).
    unfold aged. rewrite Ha. reflexivity.
  - intros timestamp startTime age strength.
    split; [unfold age; simpl; qarith|].
    split; [apply num_ge_Q|].
    split; [unfold strength; simpl; qarith|].
    split; [apply num_gt_Q | reflexivity].
  - intros a1 a2 Hlt. qarith.
  - qarith.
Qed.

Lemma update_ages_active_record_witness :
  wf (addRipple (1 # 2)%Q (1 # 2)%Q 25%Q (new 128))
  /\ ripples (addRipple (1 # 2)%Q (1 # 2)%Q 25%Q (new 128)) !! 0
     = Some (fresh (1 # 2)%Q (1 # 2)%Q 25%Q)
  /\ Ripple.active (fresh (1 # 2)%Q (1 # 2)%Q 25%Q) = true
  /\ ripples (update 1025%Q (addRipple (1 # 2)%Q (1 # 2)%Q 25%Q (new 128))).1
       !! 0
     = Some (Ripple.mk (1 # 2)%Q (1 # 2)%Q (1 # 40)%Q (1 # 2)%Q true).
Proof.
  assert (wf (addRipple (1 # 2)%Q (1 # 2)%Q 25%Q (new 128))) as Hwf
    by (apply wf_addRipple, wf_new; lia).
  assert (ripples (addRipple (1 # 2)%Q (1 # 2)%Q 25%Q (new 128)) !! 0
          = Some (fresh (1 # 2)%Q (1 # 2)%Q 25%Q)) as Hr by reflexivity.
  assert (Ripple.active (fresh (1 # 2)%Q (1 # 2)%Q 25%Q) = true) as Ha
    by reflexivity.
  split; [exact Hwf|]. split; [exact Hr|]. split; [exact Ha|].
  exact (proj1 update_ages_active_record Q ArithQ _ 1025%Q 0 _ Hwf Hr Ha).
Defined.

(** ** The first ripple of a session *)

Lemma live_replicate_inactive {num : Type} `{!Arith num} n (r : Ripple.t num) :
  Ripple.active r = false -> live (replicate n r) = [].
Proof.
  intros Hr. induction n as [|n IH]; [done|].
  simpl. unfold live in *. rewrite filter_cons_False by congruence. exact IH.
Qed.

Lemma aged_replicate_inactive {num : Type} `{!Arith num}
    ct ma n (r : Ripple.t num) :
  Ripple.active r = false ->
  aged ct ma <$> replicate n r = replicate n r.
Proof. intros Hr. now rewrite fmap_replicate, aged_inactive. Qed.

(** A fresh record aged at the time of its own insertion. *)
Lemma aged_at_birth (x y timestamp : Q) :
  aged (num_div timestamp (num_lit 1000)) 2%Q (fresh x y timestamp)
    = Ripple.mk x y (Qred (timestamp / 1000)) 1%Q true.
Proof.
  unfold aged, fresh.
  cbn [Ripple.active Ripple.startTime Ripple.x Ripple.y negb].
  cbn [num_sub num_div num_lit ArithQ].
  change (Qred 1000) with 1000%Q.
  assert (Qred (Qred (timestamp / 1000) - Qred (timestamp / 1000)) = 0%Q) as ->.
  { change 0%Q with (Qred 0). apply Qred_complete. Lqa.lra. }
  reflexivity.
Qed.

(** The same record aged 2000 ms later. *)
Lemma aged_at_max_age (x y timestamp strength : Q) :
  aged (num_div (timestamp + 2000)%Q (num_lit 1000)) 2%Q
       (Ripple.mk x y (Qred (timestamp / 1000)) strength true)
    = Ripple.mk x y (Qred (timestamp / 1000)) 0%Q false.
Proof.
  unfold aged.
  cbn [Ripple.active Ripple.startTime Ripple.x Ripple.y negb].
  cbn [num_sub num_div num_lit ArithQ].
  change (Qred 1000) with 1000%Q.
  assert (Qred (Qred ((timestamp + 2000) / 1000) - Qred (timestamp / 1000))
          = 2%Q) as ->.
  { change 2%Q with (Qred 2). apply Qred_complete. qarith. }
  reflexivity.
Qed.

(** The state one accepted insert at (0.5, 0.5) leaves a new manager in. *)
Lemma first_insert_state (timestamp : Q) :
  (25 <= timestamp)%Q ->
  addRipple (1 # 2)%Q (1 # 2)%Q timestamp (new 128) =
    {| maxRipples := 128;
       ripples :=
         fresh (1 # 2)%Q (1 # 2)%Q timestamp
           :: replicate 127 (Ripple.mk 0%Q 0%Q 0%Q 0%Q false);
       nextRippleIndex := 1;
       lastRippleTime := timestamp;
       minRippleInterval := 25%Q;
       maxAge := 2%Q;
       activeRippleCount := 0;
       rippleData := replicate 512 0%Q |}.
Proof.
  intros H25. rewrite addRipple_accepted; [reflexivity|].
  destruct (num_lt _ _) eqn:E; [|done].
  apply num_lt_Q in E. simpl in E. exfalso. qarith.
Qed.

Lemma first_tick_state (timestamp : Q) :
  (25 <= timestamp)%Q ->
  (update timestamp (addRipple (1 # 2)%Q (1 # 2)%Q timestamp (new 128))).1 =
    let r := Ripple.mk (1 # 2)%Q (1 # 2)%Q (Qred (timestamp / 1000)) 1%Q true in
    {| maxRipples := 128;
       ripples := r :: replicate 127 (Ripple.mk 0%Q 0%Q 0%Q 0%Q false);
       nextRippleIndex := 1;
       lastRippleTime := timestamp;
       minRippleInterval := 25%Q;
       maxAge := 2%Q;
       activeRippleCount := 1;
       rippleData := clear 1 127 (pack 0 [r] (replicate 512 0%Q)) |}.
Proof.
  intros H25. rewrite (first_insert_state timestamp H25).
  rewrite update_spec by reflexivity.
  cbn [maxRipples ripples nextRippleIndex lastRippleTime minRippleInterval
       maxAge activeRippleCount rippleData].
  rewrite fmap_cons, aged_at_birth, aged_replicate_inactive by done.
  rewrite live_cons, live_replicate_inactive by done.
  reflexivity.
Qed.

Lemma second_tick_state (timestamp : Q) :
  (25 <= timestamp)%Q ->
  (update (timestamp + 2000)%Q
     (update timestamp
        (addRipple (1 # 2)%Q (1 # 2)%Q timestamp (new 128))).1).1 =
    let r := Ripple.mk (1 # 2)%Q (1 # 2)%Q (Qred (timestamp / 1000)) 1%Q true in
    let r' := Ripple.mk (1 # 2)%Q (1 # 2)%Q (Qred (timestamp / 1000)) 0%Q false in
    {| maxRipples := 128;
       ripples := r' :: replicate 127 (Ripple.mk 0%Q 0%Q 0%Q 0%Q false);
       nextRippleIndex := 1;
       lastRippleTime := timestamp;
       minRippleInterval := 25%Q;
       maxAge := 2%Q;
       activeRippleCount := 0;
       rippleData :=
         clear 0 128 (clear 1 127 (pack 0 [r] (replicate 512 0%Q))) |}.
Proof.
  intros H25. rewrite (first_tick_state timestamp H25).
  rewrite update_spec by reflexivity.
  cbn [maxRipples ripples nextRippleIndex lastRippleTime minRippleInterval
       maxAge activeRippleCount rippleData].
  rewrite fmap_cons, aged_at_max_age, aged_replicate_inactive by done.
  rewrite live_cons, live_replicate_inactive by done.
  reflexivity.
Qed.

(** C5, as the specification states it, fails: a new manager has
    [lastRippleTime = 0], so an insert at timestamp 0 is less than 25 ms
    after it and is dropped; [update(0)] then finds no active record.
    So it is for exact rationals, and so it is for doubles. *)
Lemma first_insert_at_time_zero_is_dropped :
  (addRipple (1 # 2)%Q (1 # 2)%Q 0%Q (new 128) = new 128
   /\ activeCount
        (update 0%Q (addRipple (1 # 2)%Q (1 # 2)%Q 0%Q (new 128))).2 = 0
   /\ live (ripples
              (update 0%Q (addRipple (1 # 2)%Q (1 # 2)%Q 0%Q (new 128))).1)
      = []
   /\ ~ (activeCount
           (update 0%Q (addRipple (1 # 2)%Q (1 # 2)%Q 0%Q (new 128))).2 = 1))
  /\ (addRipple (double_lit (1 # 2)) (double_lit (1 # 2)) (double_lit 0)
        (new 128) = new 128
      /\ activeCount
           (update (double_lit 0)
              (addRipple (double_lit (1 # 2)) (double_lit (1 # 2))
                 (double_lit 0) (new 128))).2 = 0).
Proof.
  split.
  - split; [reflexivity|]. split; [vm_compute; reflexivity|].
    split; [vm_compute; reflexivity|].
    vm_compute. discriminate.
  - split; vm_compute; reflexivity.
Qed.

(** C5, amended.  From a new manager, one ripple inserted at (0.5, 0.5) at
    a timestamp of at least 25 ms is accepted; [update] at that same
    timestamp returns count 1 with record position 0 holding position
    (0.5, 0.5), strength 1 and the start time, and the pool holds that one
    active record; [update] 2000 ms later (age 2 s, the maximal age)
    deactivates it and returns count 0. *)
Theorem first_ripple_lives_two_seconds (timestamp : Q) :
  (25 <= timestamp)%Q ->
  let s1 := addRipple (1 # 2)%Q (1 # 2)%Q timestamp (new 128) in
  let tick1 := update timestamp s1 in
  let tick2 := update (timestamp + 2000)%Q tick1.1 in
  activeCount tick1.2 = 1
  /\ entry (data tick1.2) 0
     = [(1 # 2)%Q; (1 # 2)%Q; 1%Q; Qred (timestamp / 1000)]
  /\ live (ripples tick1.1)
     = [Ripple.mk (1 # 2)%Q (1 # 2)%Q (Qred (timestamp / 1000)) 1%Q true]
  /\ activeCount tick2.2 = 0
  /\ live (ripples tick2.1) = []
  /\ exists r,
       ripples tick2.1 !! 0 = Some r
       /\ Ripple.x r = (1 # 2)%Q
       /\ Ripple.y r = (1 # 2)%Q
       /\ Ripple.active r = false.
Proof.
  intros H25 s1 tick1 tick2.
  change (activeCount tick1.2) with (activeRippleCount tick1.1).
  change (data tick1.2) with (rippleData tick1.1).
  change (activeCount tick2.2) with (activeRippleCount tick2.1).
  unfold tick2, tick1, s1.
  rewrite (second_tick_state timestamp H25), (first_tick_state timestamp H25).
  cbv zeta.
  cbn [maxRipples ripples nextRippleIndex lastRippleTime minRippleInterval
       maxAge activeRippleCount rippleData].
  split; [reflexivity|]. split; [reflexivity|]. split.
  { rewrite live_cons, live_replicate_inactive by done. reflexivity. }
  split; [reflexivity|]. split.
  { rewrite live_cons, live_replicate_inactive by done. reflexivity. }
  eexists. split; [reflexivity|]. done.
Qed.

Lemma first_ripple_lives_two_seconds_witness :
  (25 <= 25)%Q
  /\ activeCount
       (update 25%Q (addRipple (1 # 2)%Q (1 # 2)%Q 25%Q (new 128))).2 = 1
  /\ activeCount
       (update (25 + 2000)%Q
          (update 25%Q (addRipple (1 # 2)%Q (1 # 2)%Q 25%Q (new 128))).1).2
     = 0.
Proof.
  assert (25 <= 25)%Q as H25 by (vm_compute; discriminate).
  destruct (first_ripple_lives_two_seconds 25%Q H25)
    as (H1 & _ & _ & H2 & _).
  split; [exact H25|]. split; [exact H1 | exact H2].
Defined.

(** X3.  The scenario in the arithmetic of JavaScript, with the first
    insert at 25 ms: [update(25)] returns count 1 and packs position (0.5, 0.5),
    strength 1 and the start time rounded to binary32; [update(2025)]
    deactivates the record and returns count 0. *)
Theorem first_ripple_in_doubles :
  let s1 :=
    addRipple (double_lit (1 # 2)) (double_lit (1 # 2)) (double_lit 25)
      (new 128) in
  let tick1 := update (double_lit 25) s1 in
  let tick2 := update (double_lit 2025) tick1.1 in
  activeCount tick1.2 = 1
  /\ entry (data tick1.2) 0
     = [double_lit (1 # 2); double_lit (1 # 2); double_lit 1;
        double_fround (double_lit (25 # 1000))]
  /\ activeCount tick2.2 = 0
  /\ Ripple.active <$> ripples tick2.1 !! 0 = Some false.
Proof.
  split; [vm_compute; reflexivity|]. split; [vm_compute; reflexivity|].
  split; vm_compute; reflexivity.
Qed.

(** ** The ripple field *)

Section RippleField.

Local Open Scope R_scope.

Implicit Types (u : WavyGrid.Uniforms) (uv : Vec2f.t) (ripple : RippleData.t).

Lemma calculateRipple_unfold u uv ripple :
  WavyGrid.calculateRipple u uv ripple =
    let dist := WavyGrid.rippleDist u uv ripple in
    let age := WavyGrid.rippleAge u ripple in
    let radius := WavyGrid.rippleRadius u ripple in
    if decide (dist > radius \/ dist < WavyGrid.MIN_RIPPLE_RADIUS
               \/ RippleData.strength ripple <= 0)
    then Some 0
    else
      normalizedDist ←
        WavyGrid.checked_div (dist - WavyGrid.MIN_RIPPLE_RADIUS)
          (radius - WavyGrid.MIN_RIPPLE_RADIUS);
      edge ← WavyGrid.smoothstep (radius * 0.7) radius dist;
      startFalloff ←
        WavyGrid.smoothstep WavyGrid.MIN_RIPPLE_RADIUS
          (WavyGrid.MIN_RIPPLE_RADIUS * 2) dist;
      Some (sin ((normalizedDist * 2 - age * 2) * WavyGrid.PI)
            * RippleData.strength ripple
            * WavyGrid.RIPPLE_AMPLITUDE
            * (1 - edge)
            * startFalloff
            * exp (- dist * WavyGrid.RIPPLE_EDGE_SHARPNESS)).
Proof. reflexivity. Qed.

Lemma checked_div_Some a b : b <> 0 -> WavyGrid.checked_div a b = Some (a / b).
Proof. intros Hb. unfold WavyGrid.checked_div. now rewrite decide_False. Qed.

Lemma checked_div_None a : WavyGrid.checked_div a 0 = None.
Proof. unfold WavyGrid.checked_div. now rewrite decide_True. Qed.

Lemma clamp_unit q : 0 <= WavyGrid.clamp q 0 1 <= 1.
Proof.
  unfold WavyGrid.clamp, Rmin, Rmax.
  destruct (Rle_dec q 0), (Rle_dec _ 1); lra.
Qed.

Lemma hermite_unit t : 0 <= t <= 1 -> 0 <= t * t * (3 - 2 * t) <= 1.
Proof.
  intros [H0 H1]. split.
  - apply Rmult_le_pos; [apply Rmult_le_pos; lra | lra].
  - assert (0 <= (1 - t) * (1 - t) * (1 + 2 * t)) as H
      by (apply Rmult_le_pos; [apply Rmult_le_pos; lra | lra]).
    lra.
Qed.

(** Where [smoothstep] has a value, the value lies in [0, 1]. *)
Lemma smoothstep_unit low high x v :
  WavyGrid.smoothstep low high x = Some v -> 0 <= v <= 1.
Proof.
  unfold WavyGrid.smoothstep.
  destruct (WavyGrid.checked_div (x - low) (high - low)) as [q|]; [|done].
  simpl. intros [= <-]. apply hermite_unit, clamp_unit.
Qed.

Lemma smoothstep_defined low high x :
  high - low <> 0 -> is_Some (WavyGrid.smoothstep low high x).
Proof.
  intros H. unfold WavyGrid.smoothstep. rewrite checked_div_Some by done.
  simpl. eauto.
Qed.




(** The contribution is 0 as soon as the early exit is taken. *)
Lemma calculateRipple_early_exit u uv ripple :
  WavyGrid.rippleDist u uv ripple > WavyGrid.rippleRadius u ripple
  \/ WavyGrid.rippleDist u uv ripple < WavyGrid.MIN_RIPPLE_RADIUS
  \/ RippleData.strength ripple <= 0 ->
  WavyGrid.calculateRipple u uv ripple = Some 0.
Proof.
  intros H. rewrite calculateRipple_unfold. cbv zeta.
  now rewrite decide_True.
Qed.

(** Past the early exit the contribution has a value exactly when the
    front has moved off the inner radius. *)
Lemma calculateRipple_defined u uv ripple :
  ~ (WavyGrid.rippleDist u uv ripple > WavyGrid.rippleRadius u ripple
     \/ WavyGrid.rippleDist u uv ripple < WavyGrid.MIN_RIPPLE_RADIUS
     \/ RippleData.strength ripple <= 0) ->
  (WavyGrid.calculateRipple u uv ripple = None
   <-> WavyGrid.rippleRadius u ripple = WavyGrid.MIN_RIPPLE_RADIUS).
Proof.
  intros Hg. rewrite calculateRipple_unfold. cbv zeta.
  rewrite decide_False by done.
  set (dist := WavyGrid.rippleDist u uv ripple) in *.
  set (radius := WavyGrid.rippleRadius u ripple) in *.
  assert (WavyGrid.MIN_RIPPLE_RADIUS <= dist <= radius) as [Hlo Hhi].
  { split; apply Rnot_lt_le; intros H; apply Hg; auto. }
  unfold WavyGrid.MIN_RIPPLE_RADIUS in *.
  split.
  - intros Hnone. destruct (decide (radius - 0.02 = 0)) as [E|E]; [lra|].
    exfalso. rewrite checked_div_Some in Hnone by done. simpl in Hnone.
    destruct (smoothstep_defined (radius * 0.7) radius dist) as [e He]; [lra|].
    destruct (smoothstep_defined 0.02 (0.02 * 2) dist) as [f Hf]; [lra|].
    rewrite He in Hnone. simpl in Hnone. rewrite Hf in Hnone. done.
  - intros ->. replace (0.02 - 0.02) with 0 by lra.
    now rewrite checked_div_None.
Qed.


Lemma front_dist :
  WavyGrid.rippleDist front_uniforms front_uv front_ripple = 0.02.
Proof.
  unfold WavyGrid.rippleDist, WavyGrid.distance, front_uv, front_ripple,
    front_uniforms. simpl.
  replace ((0.02 * 1 - 0 * 1) * (0.02 * 1 - 0 * 1) + (0 - 0) * (0 - 0))
    with (0.02 * 0.02) by lra.
  apply sqrt_square. lra.
Qed.

Lemma front_radius : WavyGrid.rippleRadius front_uniforms front_ripple = 0.02.
Proof.
  unfold WavyGrid.rippleRadius, WavyGrid.rippleAge, front_ripple,
    front_uniforms, WavyGrid.RIPPLE_SPEED, WavyGrid.MAX_RIPPLE_RADIUS. simpl.
  unfold Rmin. destruct (Rle_dec _ _); lra.
Qed.

Lemma front_not_early_exit :
  ~ (WavyGrid.rippleDist front_uniforms front_uv front_ripple
       > WavyGrid.rippleRadius front_uniforms front_ripple
     \/ WavyGrid.rippleDist front_uniforms front_uv front_ripple
          < WavyGrid.MIN_RIPPLE_RADIUS
     \/ RippleData.strength front_ripple <= 0).
Proof.
  rewrite front_dist, front_radius.
  unfold WavyGrid.MIN_RIPPLE_RADIUS, front_ripple. simpl. lra.
Qed.

Lemma front_undefined :
  WavyGrid.calculateRipple front_uniforms front_uv front_ripple = None.
Proof.
  apply calculateRipple_defined; [apply front_not_early_exit|].
  apply front_radius.
Qed.

(** C9, at the input that breaks it.  The sample [front_uv] is not turned
    away by the early exit of [calculateRipple], and the divisor
    [radius - MIN_RIPPLE_RADIUS] of the normalisation is zero there (as is
    the dividend): the guard lets the case [radius = dist =
    MIN_RIPPLE_RADIUS] through, and the contribution has no value.  In
    binary32 the same sample at time [Binary32.front_time] passes the
    guard and the quotient is not a number. *)
Lemma normalization_divides_zero_by_zero :
  ~ (WavyGrid.rippleDist front_uniforms front_uv front_ripple
       > WavyGrid.rippleRadius front_uniforms front_ripple
     \/ WavyGrid.rippleDist front_uniforms front_uv front_ripple
          < WavyGrid.MIN_RIPPLE_RADIUS
     \/ RippleData.strength front_ripple <= 0)
  /\ WavyGrid.rippleRadius front_uniforms front_ripple
       - WavyGrid.MIN_RIPPLE_RADIUS = 0
  /\ WavyGrid.rippleDist front_uniforms front_uv front_ripple
       - WavyGrid.MIN_RIPPLE_RADIUS = 0
  /\ WavyGrid.checked_div
       (WavyGrid.rippleDist front_uniforms front_uv front_ripple
          - WavyGrid.MIN_RIPPLE_RADIUS)
       (WavyGrid.rippleRadius front_uniforms front_ripple
          - WavyGrid.MIN_RIPPLE_RADIUS) = None
  /\ WavyGrid.calculateRipple front_uniforms front_uv front_ripple = None
  /\ Binary32.normalizedDist Binary32.front_time Binary32.one
       (Binary32.MIN_RIPPLE_RADIUS, Binary32.zero)
       (Binary32.zero, Binary32.zero) Binary32.one Binary32.zero
     = Some SpecFloat.S754_nan.
Proof.
  split; [apply front_not_early_exit|].
  rewrite front_dist, front_radius. unfold WavyGrid.MIN_RIPPLE_RADIUS.
  replace (0.02 - 0.02) with 0 by lra.
  split; [done|]. split; [done|]. split; [apply checked_div_None|].
  split; [apply front_undefined|].
  vm_compute. reflexivity.
Qed.

(** C7, at the input that breaks it.  The ripple [front_ripple] has
    strength 1, a valid strength, yet at the sample [front_uv] its
    contribution is the quotient of zero by zero: there is no value
    there, and so none that the amplitude bounds. *)
Lemma contribution_unbounded_on_inner_front :
  0 <= RippleData.strength front_ripple <= 1
  /\ WavyGrid.calculateRipple front_uniforms front_uv front_ripple = None
  /\ ~ (exists v,
          WavyGrid.calculateRipple front_uniforms front_uv front_ripple = Some v
          /\ Rabs v <= WavyGrid.RIPPLE_AMPLITUDE).
Proof.
  split; [simpl; lra|]. split; [apply front_undefined|].
  intros (v & Hv & _). rewrite front_undefined in Hv. discriminate.
Qed.

(** The early exit, with the radius written out: the contribution is
    exactly 0 when the sample is farther from the centre than the front
    has reached, or nearer than the inner radius, or the strength is not
    positive. *)
Lemma calculateRipple_zero_outside_ring u uv ripple :
  WavyGrid.rippleDist u uv ripple
    > Rmin (WavyGrid.rippleAge u ripple * WavyGrid.RIPPLE_SPEED)
           WavyGrid.MAX_RIPPLE_RADIUS
  \/ WavyGrid.rippleDist u uv ripple < WavyGrid.MIN_RIPPLE_RADIUS
  \/ RippleData.strength ripple <= 0 ->
  WavyGrid.calculateRipple u uv ripple = Some 0.
Proof. apply calculateRipple_early_exit. Qed.

Lemma calculateRipple_zero_outside_ring_witness :
  RippleData.strength (RippleData.mk (Vec2f.mk 0 0) 0 0) <= 0
  /\ WavyGrid.calculateRipple front_uniforms front_uv
       (RippleData.mk (Vec2f.mk 0 0) 0 0) = Some 0.
Proof.
  assert (RippleData.strength (RippleData.mk (Vec2f.mk 0 0) 0 0) <= 0) as H
    by (simpl; lra).
  split; [exact H|].
  exact (calculateRipple_zero_outside_ring front_uniforms front_uv
           (RippleData.mk (Vec2f.mk 0 0) 0 0) (or_intror (or_intror H))).
Defined.



(** ** The grid *)

Lemma lineIntensity_on_line : WavyGrid.lineIntensity 0 = Some 1.
Proof.
  unfold WavyGrid.lineIntensity, WavyGrid.smoothstep, WavyGrid.LINE_WIDTH.
  rewrite checked_div_Some by lra. simpl.
  replace ((0 - 0.015) / (0 - 0.015)) with 1 by (field; lra).
  unfold WavyGrid.clamp, Rmin, Rmax.
  destruct (Rle_dec 1 0); [lra|]. destruct (Rle_dec 1 1); f_equal; lra.
Qed.

Lemma lineIntensity_off_line d :
  WavyGrid.LINE_WIDTH <= d -> WavyGrid.lineIntensity d = Some 0.
Proof.
  unfold WavyGrid.lineIntensity, WavyGrid.smoothstep, WavyGrid.LINE_WIDTH.
  intros Hd. rewrite checked_div_Some by lra. simpl.
  set (q := (d - 0.015) / (0 - 0.015)).
  assert (q * (0 - 0.015) = d - 0.015) as Hq by (unfold q; field; lra).
  assert (WavyGrid.clamp q 0 1 = 0) as ->.
  { unfold WavyGrid.clamp, Rmin, Rmax.
    destruct (Rle_dec q 0); [|lra]. destruct (Rle_dec 0 1); lra. }
  f_equal. lra.
Qed.

Lemma fract_half : WavyGrid.fract 0.5 = 0.5.
Proof.
  unfold WavyGrid.fract, WavyGrid.floor.
  assert (Int_part 0.5 = 0%Z) as ->
    by (symmetry; apply Int_part_spec; simpl; lra).
  lra.
Qed.

Lemma fract_zero : WavyGrid.fract 0 = 0.
Proof.
  unfold WavyGrid.fract, WavyGrid.floor.
  assert (Int_part 0 = 0%Z) as ->
    by (symmetry; apply Int_part_spec; simpl; lra).
  lra.
Qed.

(** ** The sum over the uniform array *)

Implicit Types (rs : list RippleData.t).

Lemma rippleLoop_S u rs uv n :
  WavyGrid.rippleLoop u rs uv (S n) =
    t ← WavyGrid.rippleLoop u rs uv n;
    ripple ← rs !! n;
    c ← WavyGrid.calculateRipple u uv ripple;
    Some (t + c).
Proof. unfold WavyGrid.rippleLoop. now rewrite seq_S, foldl_app. Qed.

(** Elements of strength 0 behind position [c] add nothing to the sum. *)
Lemma rippleLoop_trailing u rs uv (c n : nat) :
  (c <= n)%nat ->
  (forall i, (c <= i < n)%nat ->
     exists ripple, rs !! i = Some ripple /\ RippleData.strength ripple = 0) ->
  WavyGrid.rippleLoop u rs uv n = WavyGrid.rippleLoop u rs uv c.
Proof.
  induction 1 as [|n Hle IH]; intros Hz; [done|].
  rewrite rippleLoop_S, IH by (intros i Hi; apply Hz; lia).
  destruct (Hz n) as (ripple & -> & Hs); [lia|].
  destruct (WavyGrid.rippleLoop u rs uv c) as [t|]; simpl; [|done].
  rewrite calculateRipple_early_exit by (right; right; lra).
  simpl. f_equal. lra.
Qed.

(** The sum over the first [n] elements only reads those elements. *)
Lemma rippleLoop_prefix u rs rs' uv (n : nat) :
  (forall i, (i < n)%nat -> rs' !! i = rs !! i) ->
  WavyGrid.rippleLoop u rs' uv n = WavyGrid.rippleLoop u rs uv n.
Proof.
  induction n as [|n IH]; intros Hpre; [done|].
  rewrite !rippleLoop_S, IH by (intros i Hi; apply Hpre; lia).
  now rewrite Hpre by lia.
Qed.




Lemma lookup_ripplesOfBuffer (d : list R) n i :
  (i < n)%nat ->
  ripplesOfBuffer d n !! i =
    Some (RippleData.mk
            (Vec2f.mk (default 0 (d !! (i * 4)%nat))
                      (default 0 (d !! (i * 4 + 1)%nat)))
            (default 0 (d !! (i * 4 + 2)%nat))
            (default 0 (d !! (i * 4 + 3)%nat))).
Proof.
  intros Hi. unfold ripplesOfBuffer.
  now rewrite list_lookup_fmap, lookup_seq_lt.
Qed.

End RippleField.

(** ** From the ledger to the field *)

Lemma Q2R_zero : Q2R 0 = 0%R.
Proof. unfold Q2R. simpl. lra. Qed.

(** After [update], the elements of the uniform array from the count on
    have strength 0, however the numbers of the buffer are read as reals,
    provided the stored zero is read as 0. *)
Lemma uploaded_trailing_strength {num : Type} `{!Arith num}
    (toR : num -> R) (s : t num) (timestamp : num) (i : nat) :
  toR (fround (num_lit 0)) = 0%R ->
  wf s ->
  maxRipples s = 128 ->
  activeCount (update timestamp s).2 <= i < 128 ->
  exists ripple,
    ripplesOfBuffer (toR <$> data (update timestamp s).2) 128 !! i
      = Some ripple
    /\ RippleData.strength ripple = 0%R.
Proof.
  intros Hzero Hwf Hcap Hi. rewrite lookup_ripplesOfBuffer by lia.
  eexists. split; [reflexivity|]. cbn [RippleData.strength].
  change (data (update timestamp s).2) with (rippleData (update timestamp s).1).
  rewrite list_lookup_fmap, (update_trailing timestamp s i Hwf)
    by (rewrite Hcap; exact Hi).
  exact Hzero.
Qed.



(** ** What [update] leaves alone *)

Section UpdateFacts.

Context {num : Type} `{!Arith num}.

Implicit Types (s : t num) (r : Ripple.t num).

Lemma aged_keeps ct ma r :
  Ripple.x (aged ct ma r) = Ripple.x r
  /\ Ripple.y (aged ct ma r) = Ripple.y r
  /\ Ripple.startTime (aged ct ma r) = Ripple.startTime r
  /\ (Ripple.active (aged ct ma r) = true -> Ripple.active r = true).
Proof.
  unfold aged. destruct (Ripple.active r) eqn:Ha; simpl.
  - destruct (num_ge _ ma); simpl; done.
  - repeat split; congruence.
Qed.

Lemma live_aged_length ct ma (l : list (Ripple.t num)) :
  length (live (aged ct ma <$> l)) <= length (live l).
Proof.
  induction l as [|r l IH]; [done|].
  rewrite fmap_cons, (live_cons (aged ct ma r)), (live_cons r), !length_app.
  apply Nat.add_le_mono; [|exact IH].
  unfold live. rewrite !filter_cons, !filter_nil.
  destruct (decide (Ripple.active (aged ct ma r) = true)) as [Ha|Ha].
  - apply aged_keeps in Ha. rewrite decide_True by done. done.
  - simpl. lia.
Qed.

Lemma update_ripples timestamp s :
  wf s ->
  ripples (update timestamp s).1
    = aged (num_div timestamp (num_lit 1000)) (num_lit 2) <$> ripples s.
Proof.
  intros (_ & Hlen & _ & _ & _ & Hage).
  rewrite (update_spec timestamp s Hlen). simpl. now rewrite Hage.
Qed.

Lemma update_frame timestamp s :
  wf s ->
  maxRipples (update timestamp s).1 = maxRipples s
  /\ nextRippleIndex (update timestamp s).1 = nextRippleIndex s
  /\ lastRippleTime (update timestamp s).1 = lastRippleTime s
  /\ minRippleInterval (update timestamp s).1 = minRippleInterval s
  /\ maxAge (update timestamp s).1 = maxAge s.
Proof.
  intros (_ & Hlen & _). now rewrite (update_spec timestamp s Hlen).
Qed.

Lemma update_slotwise timestamp s i r :
  wf s ->
  ripples s !! i = Some r ->
  exists r',
    ripples (update timestamp s).1 !! i = Some r'
    /\ Ripple.x r' = Ripple.x r
    /\ Ripple.y r' = Ripple.y r
    /\ Ripple.startTime r' = Ripple.startTime r
    /\ (Ripple.active r = false -> r' = r)
    /\ (Ripple.active r' = true -> Ripple.active r = true).
Proof.
  intros Hwf Hi. eexists. split; [exact (update_lookup s timestamp i r Hwf Hi)|].
  destruct (aged_keeps (num_div timestamp (num_lit 1000)) (num_lit 2) r)
    as (Hx & Hy & Hst & Hact).
  repeat split; try done. apply aged_inactive.
Qed.

End UpdateFacts.

(** X4.  [update] never revives a record and never moves one: for a
    well-formed manager and any timestamp, in every arithmetic, it leaves
    the write cursor, the time of the last insert and the size of the pool
    as they are; every slot keeps its position and start time; a record
    that was inactive is left exactly as it was; and a record that is
    active afterwards was active before. *)
Theorem update_never_revives {num : Type} `{!Arith num}
    (s : t num) (timestamp : num) :
  wf s ->
  let s' := (update timestamp s).1 in
  nextRippleIndex s' = nextRippleIndex s
  /\ lastRippleTime s' = lastRippleTime s
  /\ length (ripples s') = length (ripples s)
  /\ forall i r,
       ripples s !! i = Some r ->
       exists r',
         ripples s' !! i = Some r'
         /\ Ripple.x r' = Ripple.x r
         /\ Ripple.y r' = Ripple.y r
         /\ Ripple.startTime r' = Ripple.startTime r
         /\ (Ripple.active r = false -> r' = r)
         /\ (Ripple.active r' = true -> Ripple.active r = true).
Proof.
  intros Hwf s'. subst s'.
  destruct (update_frame timestamp s Hwf) as (_ & Hc & Hl & _).
  split; [exact Hc|]. split; [exact Hl|]. split.
  - rewrite update_ripples by done. apply length_fmap.
  - intros i r. now apply update_slotwise.
Qed.

Lemma update_never_revives_witness :
  wf (addRipple (1 # 2)%Q (1 # 2)%Q 25%Q (new 128))
  /\ nextRippleIndex
       (update 3000%Q (addRipple (1 # 2)%Q (1 # 2)%Q 25%Q (new 128))).1 = 1
  /\ Ripple.x
       <$> ripples
             (update 3000%Q (addRipple (1 # 2)%Q (1 # 2)%Q 25%Q (new 128))).1
           !! 0
     = Some (1 # 2)%Q.
Proof.
  assert (wf (addRipple (1 # 2)%Q (1 # 2)%Q 25%Q (new 128))) as Hwf
    by (apply wf_addRipple, wf_new; lia).
  destruct (update_never_revives _ 3000%Q Hwf) as (Hc & _ & _ & Hslot).
  split; [exact Hwf|]. split; [rewrite Hc; reflexivity|].
  destruct (Hslot 0 (fresh (1 # 2)%Q (1 # 2)%Q 25%Q) eq_refl)
    as (r' & -> & Hx & _).
  simpl. now rewrite Hx.
Defined.

(** X5.  Without an insert the number of live ripples never grows: the
    count [update] returns is at most the number of records that were
    active before the call, so a second [update], at whatever timestamp,
    returns a count no larger than the first; and every slot packed by
    the second was packed by the first.  This holds in every
    arithmetic. *)
Theorem update_count_never_grows {num : Type} `{!Arith num}
    (s : t num) (t1 t2 : num) :
  wf s ->
  let first := update t1 s in
  let second := update t2 first.1 in
  activeCount first.2 <= length (live (ripples s))
  /\ activeCount second.2 <= activeCount first.2
  /\ forall i,
       i ∈ live_slots (ripples second.1) -> i ∈ live_slots (ripples first.1).
Proof.
  intros Hwf first second. subst first second.
  pose proof (wf_update t1 s Hwf) as Hwf1.
  rewrite !update_result. cbn [activeCount].
  rewrite !update_count_live by done.
  rewrite (update_ripples t2) by done.
  split; [|split].
  - rewrite update_ripples by done. apply live_aged_length.
  - apply live_aged_length.
  - intros i. unfold live_slots. rewrite !list_elem_of_filter.
    rewrite length_fmap. intros [Hact Hin]. split; [|exact Hin].
    rewrite list_lookup_fmap in Hact.
    destruct (ripples (update t1 s).1 !! i) as [r|] eqn:Hr; [|done].
    simpl in Hact. simpl. f_equal.
    apply (aged_keeps (num_div t2 (num_lit 1000)) (num_lit 2) r).
    congruence.
Qed.

Lemma update_count_never_grows_witness :
  wf (addRipple (1 # 2)%Q (1 # 2)%Q 25%Q (new 128))
  /\ activeCount
       (update 100%Q
          (update 3000%Q
             (addRipple (1 # 2)%Q (1 # 2)%Q 25%Q (new 128))).1).2
     <= activeCount
          (update 3000%Q (addRipple (1 # 2)%Q (1 # 2)%Q 25%Q (new 128))).2.
Proof.
  assert (wf (addRipple (1 # 2)%Q (1 # 2)%Q 25%Q (new 128))) as Hwf
    by (apply wf_addRipple, wf_new; lia).
  split; [exact Hwf|].
  exact (proj1 (proj2 (update_count_never_grows _ 3000%Q 100%Q Hwf))).
Defined.


Lemma update_all_frame {num : Type} `{!Arith num} (timestamps : list num) :
  forall s : t num,
  wf s ->
  wf (update_all s timestamps)
  /\ lastRippleTime (update_all s timestamps) = lastRippleTime s
  /\ nextRippleIndex (update_all s timestamps) = nextRippleIndex s.
Proof.
  induction timestamps as [|u us IH]; intros s Hwf; [done|].
  destruct (IH (update u s).1 (wf_update u s Hwf)) as (Hwf' & Hl & Hc).
  destruct (update_frame u s Hwf) as (_ & Hc1 & Hl1 & _).
  split; [exact Hwf'|]. split.
  - etrans; [exact Hl|exact Hl1].
  - etrans; [exact Hc|exact Hc1].
Qed.

(** X6.  Two accepted inserts are never closer than the rate limit, however
    many frames pass in between: after an insert accepted at [timestamp]
    and any number of [update] calls, an [addRipple] whose timestamp is
    less than 25 ms after [timestamp] (by the code's own test) leaves the
    manager exactly as it is.  This holds in every arithmetic. *)
Theorem addRipple_after_accepted_insert {num : Type} `{!Arith num}
    (s : t num) (x y timestamp : num) (updates : list num)
    (x' y' timestamp' : num) :
  wf s ->
  num_lt (num_sub timestamp (lastRippleTime s)) (num_lit 25) = false ->
  num_lt (num_sub timestamp' timestamp) (num_lit 25) = true ->
  let s1 := update_all (addRipple x y timestamp s) updates in
  lastRippleTime s1 = timestamp
  /\ nextRippleIndex s1 = (nextRippleIndex s + 1) mod maxRipples s
  /\ addRipple x' y' timestamp' s1 = s1.
Proof.
  intros Hwf Hacc Hsoon s1. subst s1.
  pose proof Hwf as (_ & _ & _ & _ & Hint & _).
  assert (addRipple x y timestamp s = accept x y timestamp s) as Hadd
    by (apply addRipple_accepted; now rewrite Hint).
  destruct (update_all_frame updates _ (wf_addRipple x y timestamp s Hwf))
    as (Hwf' & Hl & Hc).
  rewrite Hadd in *. cbn [accept lastRippleTime nextRippleIndex] in Hl, Hc.
  split; [exact Hl|]. split; [exact Hc|].
  apply addRipple_rejected.
  destruct Hwf' as (_ & _ & _ & _ & Hint' & _).
  now rewrite Hl, Hint'.
Qed.

Lemma addRipple_after_accepted_insert_witness :
  wf (new 128 : t Q)
  /\ num_lt (num_sub 25%Q (lastRippleTime (new 128 : t Q))) (num_lit 25) = false
  /\ num_lt (num_sub 40%Q 25%Q) (num_lit 25) = true
  /\ addRipple (1 # 4)%Q (1 # 4)%Q 40%Q
       (update_all (addRipple (1 # 2)%Q (1 # 2)%Q 25%Q (new 128)) [30%Q; 35%Q])
     = update_all (addRipple (1 # 2)%Q (1 # 2)%Q 25%Q (new 128)) [30%Q; 35%Q].
Proof.
  assert (wf (new 128 : t Q)) as Hwf by (apply wf_new; lia).
  split; [exact Hwf|]. split; [reflexivity|]. split; [reflexivity|].
  exact (proj2 (proj2 (addRipple_after_accepted_insert (new 128)
    (1 # 2)%Q (1 # 2)%Q 25%Q [30%Q; 35%Q] (1 # 4)%Q (1 # 4)%Q 40%Q
    Hwf eq_refl eq_refl))).
Defined.

(** ** The ring of a ripple *)

Section RippleRing.

Local Open Scope R_scope.


(** X10.  The contribution of a ripple is radially symmetric in the
    aspect-corrected plane: two samples at the same distance from its
    centre receive the same contribution (defined or not), in particular
    a sample and its mirror image through the centre. *)
Theorem calculateRipple_radial u uv uv' ripple :
  WavyGrid.rippleDist u uv ripple = WavyGrid.rippleDist u uv' ripple ->
  WavyGrid.calculateRipple u uv ripple = WavyGrid.calculateRipple u uv' ripple.
Proof. intros Hd. rewrite !calculateRipple_unfold. now rewrite Hd. Qed.

Lemma rippleDist_mirror u uv ripple :
  WavyGrid.rippleDist u
    (Vec2f.mk (2 * Vec2f.x (RippleData.position ripple) - Vec2f.x uv)
              (2 * Vec2f.y (RippleData.position ripple) - Vec2f.y uv)) ripple
  = WavyGrid.rippleDist u uv ripple.
Proof.
  unfold WavyGrid.rippleDist, WavyGrid.distance. simpl. f_equal. ring.
Qed.

Lemma calculateRipple_radial_witness :
  WavyGrid.rippleDist (WavyGrid.mkUniforms 1 1 0 0)
    (Vec2f.mk (2 * 0 - 0.02) (2 * 0 - 0)) front_ripple
  = WavyGrid.rippleDist (WavyGrid.mkUniforms 1 1 0 0) front_uv front_ripple
  /\ WavyGrid.calculateRipple (WavyGrid.mkUniforms 1 1 0 0)
       (Vec2f.mk (2 * 0 - 0.02) (2 * 0 - 0)) front_ripple
     = WavyGrid.calculateRipple (WavyGrid.mkUniforms 1 1 0 0) front_uv
         front_ripple.
Proof.
  pose proof (rippleDist_mirror (WavyGrid.mkUniforms 1 1 0 0) front_uv
                front_ripple) as Hd.
  split; [exact Hd|]. apply calculateRipple_radial. exact Hd.
Defined.

End RippleRing.

(** ** The order of the uniform array *)


Section RippleSum.

Local Open Scope R_scope.

Lemma sum_defined_snoc l oc :
  sum_defined (l ++ [oc]) = t ← sum_defined l; c ← oc; Some (t + c).
Proof.
  induction l as [|a l IH].
  - destruct oc; simpl; [f_equal; lra|done].
  - change (sum_defined ((a :: l) ++ [oc]))
      with (c ← a; t ← sum_defined (l ++ [oc]); Some (c + t)).
    rewrite IH.
    change (sum_defined (a :: l))
      with (c ← a; t ← sum_defined l; Some (c + t)).
    destruct a, (sum_defined l), oc; simpl; try done. f_equal. lra.
Qed.

Lemma sum_defined_Permutation l l' :
  l ≡ₚ l' -> sum_defined l = sum_defined l'.
Proof.
  induction 1 as [|a l l' _ IH|a b l|l1 l2 l3 _ IH1 _ IH2].
  - done.
  - change (sum_defined (a :: l))
      with (c ← a; t ← sum_defined l; Some (c + t)).
    now rewrite IH.
  - change (sum_defined (b :: a :: l))
      with (c ← b; t ← (c' ← a; t' ← sum_defined l; Some (c' + t'));
            Some (c + t)).
    change (sum_defined (a :: b :: l))
      with (c ← a; t ← (c' ← b; t' ← sum_defined l; Some (c' + t'));
            Some (c + t)).
    destruct a, b, (sum_defined l); simpl; try done. f_equal. lra.
  - now rewrite IH1.
Qed.

Lemma rippleLoop_whole u rs uv :
  WavyGrid.rippleLoop u rs uv (length rs)
    = sum_defined (WavyGrid.calculateRipple u uv <$> rs).
Proof.
  induction rs as [|r rs IH] using rev_ind; [done|].
  rewrite length_app, Nat.add_1_r, rippleLoop_S, fmap_app.
  change (WavyGrid.calculateRipple u uv <$> [r])
    with [WavyGrid.calculateRipple u uv r].
  rewrite sum_defined_snoc.
  rewrite (rippleLoop_prefix u rs (rs ++ [r]) uv (length rs)), IH.
  2:{ intros i Hi. now apply lookup_app_l. }
  rewrite list_lookup_middle by done.
  destruct (sum_defined _); done.
Qed.

(** X11.  The summed displacement does not depend on the order in which
    the 128 elements of the uniform array are stored: two arrays that are
    permutations of one another give the same sum at every sample, hence
    the same fragment colour.  In particular the order in which [update]
    packs the live records does not affect the picture.  (Sums of reals;
    [f32] addition is not associative.) *)
Theorem rippleLoop_order_independent u rs rs' uv :
  length rs = 128%nat ->
  rs ≡ₚ rs' ->
  WavyGrid.rippleLoop u rs uv 128 = WavyGrid.rippleLoop u rs' uv 128
  /\ WavyGrid.fragmentMain u rs uv = WavyGrid.fragmentMain u rs' uv.
Proof.
  intros Hlen Hperm.
  assert (WavyGrid.rippleLoop u rs uv 128 = WavyGrid.rippleLoop u rs' uv 128)
    as Hsum.
  { assert (length rs' = 128%nat) as Hlen' by now rewrite <- Hperm.
    rewrite <- Hlen at 1. rewrite <- Hlen'. rewrite !rippleLoop_whole.
    apply sum_defined_Permutation. now apply fmap_Permutation. }
  split; [exact Hsum|].
  unfold WavyGrid.fragmentMain. now rewrite Hsum.
Qed.

Lemma rippleLoop_order_independent_witness :
  length (replicate 127 (RippleData.mk (Vec2f.mk 0 0) 0 0) ++ [front_ripple])
    = 128%nat
  /\ WavyGrid.rippleLoop (WavyGrid.mkUniforms 1 1 0 0)
       (replicate 127 (RippleData.mk (Vec2f.mk 0 0) 0 0) ++ [front_ripple])
       front_uv 128
     = WavyGrid.rippleLoop (WavyGrid.mkUniforms 1 1 0 0)
         (front_ripple :: replicate 127 (RippleData.mk (Vec2f.mk 0 0) 0 0))
         front_uv 128.
Proof.
  split; [reflexivity|].
  apply rippleLoop_order_independent; [reflexivity|].
  symmetry. apply Permutation_cons_append.
Defined.

End RippleSum.

(** ** The grid and the fragment colour *)

Section GridFacts.

Local Open Scope R_scope.

Lemma floor_add_int x (k : Z) :
  WavyGrid.floor (x + IZR k) = WavyGrid.floor x + IZR k.
Proof.
  unfold WavyGrid.floor. rewrite <- plus_IZR. f_equal. symmetry.
  apply Int_part_spec. rewrite plus_IZR.
  destruct (base_Int_part x). lra.
Qed.

Lemma fract_add_int x (k : Z) : WavyGrid.fract (x + IZR k) = WavyGrid.fract x.
Proof. unfold WavyGrid.fract. rewrite floor_add_int. lra. Qed.

Lemma fract_range x : 0 <= WavyGrid.fract x < 1.
Proof.
  unfold WavyGrid.fract, WavyGrid.floor. destruct (base_Int_part x). lra.
Qed.

Lemma distToLine_range distortedUV :
  0 <= WavyGrid.distToLine distortedUV <= 0.5.
Proof.
  unfold WavyGrid.distToLine. cbn [Vec2f.x Vec2f.y].
  set (f := WavyGrid.fract _). set (g := WavyGrid.fract _).
  pose proof (fract_range (Vec2f.x distortedUV * WavyGrid.GRID_HORIZONTAL_SIZE))
    as Hf.
  pose proof (fract_range (Vec2f.y distortedUV * WavyGrid.GRID_VERTICAL_SIZE))
    as Hg.
  fold f in Hf. fold g in Hg.
  unfold Rmin. repeat destruct (Rle_dec _ _); lra.
Qed.

Lemma lineIntensity_total d :
  exists intensity,
    WavyGrid.lineIntensity d = Some intensity /\ 0 <= intensity <= 1.
Proof.
  unfold WavyGrid.lineIntensity.
  destruct (smoothstep_defined WavyGrid.LINE_WIDTH 0 d) as [v Hv].
  { unfold WavyGrid.LINE_WIDTH. lra. }
  exists v. split; [exact Hv|]. now apply smoothstep_unit in Hv.
Qed.

Lemma gridColor_formula distortedUV :
  exists intensity,
    WavyGrid.lineIntensity (WavyGrid.distToLine distortedUV) = Some intensity
    /\ 0 <= intensity <= 1
    /\ WavyGrid.gridColor distortedUV
       = Some (Vec4f.mk (0.05 + 0.95 * intensity) (0.05 + 0.95 * intensity)
                        (0.15 + 0.85 * intensity) 1).
Proof.
  destruct (lineIntensity_total (WavyGrid.distToLine distortedUV))
    as (i & Hi & Hrange).
  exists i. split; [exact Hi|]. split; [exact Hrange|].
  unfold WavyGrid.gridColor. rewrite Hi. simpl. unfold WavyGrid.mix.
  f_equal. f_equal; lra.
Qed.

(** X12.  The grid part of [fragmentMain] is total and the colour is
    opaque and bounded: the distance to the nearest grid line lies in
    [0, 0.5], the line intensity is always defined and lies in [0, 1], and
    the colour is the blend [(0.05, 0.05, 0.15) + intensity * (0.95, 0.95,
    0.85)] with alpha 1.  Hence [fragmentMain] has no value exactly when
    the sum over the ripples has none, and every colour it returns has
    alpha 1, equal red and green in [0.05, 1], and blue in [0.15, 1]. *)
Theorem fragmentMain_opaque_and_bounded u rs uv :
  (forall distortedUV,
     0 <= WavyGrid.distToLine distortedUV <= 0.5
     /\ exists intensity,
          WavyGrid.lineIntensity (WavyGrid.distToLine distortedUV)
            = Some intensity
          /\ 0 <= intensity <= 1
          /\ WavyGrid.gridColor distortedUV
             = Some (Vec4f.mk (0.05 + 0.95 * intensity)
                              (0.05 + 0.95 * intensity)
                              (0.15 + 0.85 * intensity) 1))
  /\ (WavyGrid.fragmentMain u rs uv = None
      <-> WavyGrid.rippleLoop u rs uv 128 = None)
  /\ (forall c,
        WavyGrid.fragmentMain u rs uv = Some c ->
        Vec4f.w c = 1
        /\ 0.05 <= Vec4f.x c <= 1
        /\ Vec4f.y c = Vec4f.x c
        /\ 0.15 <= Vec4f.z c <= 1).
Proof.
  split; [|split].
  - intros d. split; [apply distToLine_range|apply gridColor_formula].
  - unfold WavyGrid.fragmentMain.
    destruct (WavyGrid.rippleLoop u rs uv 128) as [total|]; [|done].
    cbn [mbind option_bind].
    match goal with
    | |- WavyGrid.gridColor ?d = None <-> _ =>
        destruct (gridColor_formula d) as (i & _ & _ & ->)
    end.
    done.
  - intros c. unfold WavyGrid.fragmentMain.
    destruct (WavyGrid.rippleLoop u rs uv 128) as [total|]; [|done].
    cbn [mbind option_bind].
    match goal with
    | |- WavyGrid.gridColor ?d = Some c -> _ =>
        destruct (gridColor_formula d) as (i & _ & Hi & ->)
    end.
    intros [= <-]. cbn [Vec4f.x Vec4f.y Vec4f.z Vec4f.w].
    repeat split; lra.
Qed.

(** X13.  The grid repeats cell by cell: moving the distorted coordinate
    by whole cells, [k / 20] horizontally and [m / 15] vertically, changes
    neither the distance to the nearest line nor the colour. *)
Theorem grid_repeats_by_cell (x y : R) (k m : Z) :
  let moved :=
    Vec2f.mk (x + IZR k / WavyGrid.GRID_HORIZONTAL_SIZE)
             (y + IZR m / WavyGrid.GRID_VERTICAL_SIZE) in
  WavyGrid.distToLine moved = WavyGrid.distToLine (Vec2f.mk x y)
  /\ WavyGrid.gridColor moved = WavyGrid.gridColor (Vec2f.mk x y).
Proof.
  intros moved. subst moved.
  assert (WavyGrid.distToLine
            (Vec2f.mk (x + IZR k / WavyGrid.GRID_HORIZONTAL_SIZE)
                      (y + IZR m / WavyGrid.GRID_VERTICAL_SIZE))
          = WavyGrid.distToLine (Vec2f.mk x y)) as Hd.
  { unfold WavyGrid.distToLine. cbn [Vec2f.x Vec2f.y].
    unfold WavyGrid.GRID_HORIZONTAL_SIZE, WavyGrid.GRID_VERTICAL_SIZE.
    replace ((x + IZR k / 20) * 20) with (x * 20 + IZR k) by lra.
    replace ((y + IZR m / 15) * 15) with (y * 15 + IZR m) by lra.
    now rewrite !fract_add_int. }
  split; [exact Hd|]. unfold WavyGrid.gridColor. now rewrite Hd.
Qed.

End GridFacts.

(** ** The noise *)

Section NoiseFacts.

Local Open Scope R_scope.

Lemma floor_nonneg x : 0 <= x -> 0 <= WavyGrid.floor x.
Proof.
  intros Hx. unfold WavyGrid.floor. apply IZR_le.
  destruct (base_Int_part x) as [_ Hlo].
  assert (-1 < IZR (Int_part x)) as H by lra.
  apply lt_IZR in H. lia.
Qed.

Lemma trunc_nonneg q : 0 <= q -> WavyGrid.trunc q = WavyGrid.floor q.
Proof. intros Hq. unfold WavyGrid.trunc. now rewrite decide_True. Qed.

Lemma fmod_range e : 0 <= e -> 0 <= WavyGrid.fmod e 289 < 289.
Proof.
  intros He. unfold WavyGrid.fmod.
  assert (0 <= e / 289) as Hq by (apply Rmult_le_pos; lra).
  rewrite trunc_nonneg by done.
  pose proof (fract_range (e / 289)) as Hf. unfold WavyGrid.fract in Hf.
  lra.
Qed.

Lemma fmod_add_period e :
  0 <= e -> WavyGrid.fmod (e + 289) 289 = WavyGrid.fmod e 289.
Proof.
  intros He. unfold WavyGrid.fmod.
  assert (0 <= e / 289) as Hq by (apply Rmult_le_pos; lra).
  replace ((e + 289) / 289) with (e / 289 + IZR 1) by lra.
  rewrite !trunc_nonneg by lra.
  rewrite floor_add_int. lra.
Qed.

(** X14.  [permute] keeps lattice hashes in the table: a vector with
    non-negative components is mapped to one whose components lie in
    [0, 289). *)
Theorem permute_range (x : Vec4f.t) :
  0 <= Vec4f.x x -> 0 <= Vec4f.y x -> 0 <= Vec4f.z x -> 0 <= Vec4f.w x ->
  0 <= Vec4f.x (WavyGrid.permute x) < 289
  /\ 0 <= Vec4f.y (WavyGrid.permute x) < 289
  /\ 0 <= Vec4f.z (WavyGrid.permute x) < 289
  /\ 0 <= Vec4f.w (WavyGrid.permute x) < 289.
Proof.
  intros Hx Hy Hz Hw. unfold WavyGrid.permute, WavyGrid.map4.
  cbn [Vec4f.x Vec4f.y Vec4f.z Vec4f.w].
  repeat split; apply fmod_range; nra.
Qed.

Lemma permute_range_witness :
  0 <= Vec4f.x (WavyGrid.permute (Vec4f.mk 1 2 3 300)) < 289
  /\ 0 <= Vec4f.w (WavyGrid.permute (Vec4f.mk 1 2 3 300)) < 289.
Proof.
  destruct (permute_range (Vec4f.mk 1 2 3 300)) as (Hx & _ & _ & Hw);
    simpl; try lra.
  split; [exact Hx|exact Hw].
Defined.

(** X15.  [fade] is an ease curve on the unit interval: componentwise it
    maps [0, 1] into [0, 1], fixes 0 and 1, and is symmetric about the
    midpoint, [fade (1 - t) = 1 - fade t].  Applied to [fract P], as
    [perlin3d] does, its components are therefore interpolation weights in
    [0, 1]. *)
Theorem fade_unit_interval :
  (forall t,
     0 <= Vec3f.x t <= 1 -> 0 <= Vec3f.y t <= 1 -> 0 <= Vec3f.z t <= 1 ->
     0 <= Vec3f.x (WavyGrid.fade t) <= 1
     /\ 0 <= Vec3f.y (WavyGrid.fade t) <= 1
     /\ 0 <= Vec3f.z (WavyGrid.fade t) <= 1)
  /\ WavyGrid.fade (Vec3f.mk 0 0 0) = Vec3f.mk 0 0 0
  /\ WavyGrid.fade (Vec3f.mk 1 1 1) = Vec3f.mk 1 1 1
  /\ (forall a b c,
        WavyGrid.fade (Vec3f.mk (1 - a) (1 - b) (1 - c))
        = WavyGrid.map3 (fun e => 1 - e) (WavyGrid.fade (Vec3f.mk a b c)))
  /\ (forall P,
        let w := WavyGrid.fade (WavyGrid.map3 WavyGrid.fract P) in
        0 <= Vec3f.x w <= 1 /\ 0 <= Vec3f.y w <= 1 /\ 0 <= Vec3f.z w <= 1).
Proof.
  assert (forall e, 0 <= e <= 1 ->
            0 <= e * e * e * (e * (e * 6 - 15) + 10) <= 1) as Hunit.
  { intros e He.
    assert (forall t, 0 <= t <= 1 -> 0 <= t * t * t * (t * (t * 6 - 15) + 10))
      as Hpos.
    { intros t Ht. apply Rmult_le_pos; [|nra].
      apply Rmult_le_pos; [|lra]. apply Rmult_le_pos; lra. }
    split; [now apply Hpos|].
    pose proof (Hpos (1 - e)) as H1.
    replace ((1 - e) * (1 - e) * (1 - e) * ((1 - e) * ((1 - e) * 6 - 15) + 10))
      with (1 - e * e * e * (e * (e * 6 - 15) + 10)) in H1 by ring.
    lra. }
  split; [|split; [|split; [|split]]].
  - intros t Hx Hy Hz. unfold WavyGrid.fade, WavyGrid.map3.
    cbn [Vec3f.x Vec3f.y Vec3f.z]. repeat split; now apply Hunit.
  - unfold WavyGrid.fade, WavyGrid.map3. cbn [Vec3f.x Vec3f.y Vec3f.z].
    f_equal; lra.
  - unfold WavyGrid.fade, WavyGrid.map3. cbn [Vec3f.x Vec3f.y Vec3f.z].
    f_equal; lra.
  - intros a b c. unfold WavyGrid.fade, WavyGrid.map3.
    cbn [Vec3f.x Vec3f.y Vec3f.z]. f_equal; ring.
  - intros P w. subst w. unfold WavyGrid.fade, WavyGrid.map3.
    cbn [Vec3f.x Vec3f.y Vec3f.z].
    pose proof (fract_range (Vec3f.x P)).
    pose proof (fract_range (Vec3f.y P)).
    pose proof (fract_range (Vec3f.z P)).
    repeat split; apply Hunit; lra.
Qed.

(** X16.  The noise vanishes on the integer lattice: at a point whose three
    coordinates have no fractional part, [perlin3d] returns 0, whatever
    the gradients hashed for the surrounding cell. *)
Theorem perlin3d_zero_on_lattice (P : Vec3f.t) :
  WavyGrid.fract (Vec3f.x P) = 0 ->
  WavyGrid.fract (Vec3f.y P) = 0 ->
  WavyGrid.fract (Vec3f.z P) = 0 ->
  WavyGrid.perlin3d P = 0.
Proof.
  intros Hx Hy Hz. unfold WavyGrid.perlin3d. cbv zeta.
  destruct (WavyGrid.gradients _) as [[gx0 gy0] gz0].
  destruct (WavyGrid.gradients _) as [[gx1 gy1] gz1].
  unfold WavyGrid.fade, WavyGrid.zip4, WavyGrid.mix, WavyGrid.dot3,
    WavyGrid.scale3, WavyGrid.map3.
  cbn [Vec3f.x Vec3f.y Vec3f.z Vec4f.x Vec4f.y Vec4f.z Vec4f.w].
  rewrite Hx, Hy, Hz. ring.
Qed.

Lemma perlin3d_zero_on_lattice_witness :
  WavyGrid.fract (Vec3f.x (Vec3f.mk 0 0 0)) = 0
  /\ WavyGrid.perlin3d (Vec3f.mk 0 0 0) = 0.
Proof.
  split; [exact fract_zero|].
  apply perlin3d_zero_on_lattice; exact fract_zero.
Defined.

Lemma perlin3d_ext P P' :
  WavyGrid.map3 (fun e => WavyGrid.fmod e 289) (WavyGrid.map3 WavyGrid.floor P)
  = WavyGrid.map3 (fun e => WavyGrid.fmod e 289)
      (WavyGrid.map3 WavyGrid.floor P') ->
  WavyGrid.map3 (fun e => WavyGrid.fmod e 289)
    (WavyGrid.map3 (fun e => e + 1) (WavyGrid.map3 WavyGrid.floor P))
  = WavyGrid.map3 (fun e => WavyGrid.fmod e 289)
      (WavyGrid.map3 (fun e => e + 1) (WavyGrid.map3 WavyGrid.floor P')) ->
  WavyGrid.map3 WavyGrid.fract P = WavyGrid.map3 WavyGrid.fract P' ->
  WavyGrid.perlin3d P = WavyGrid.perlin3d P'.
Proof.
  intros H0 H1 Hf. unfold WavyGrid.perlin3d. cbv zeta.
  rewrite H0, H1, Hf. reflexivity.
Qed.

Lemma lattice_add_period e :
  0 <= e ->
  WavyGrid.fmod (WavyGrid.floor (e + 289)) 289
    = WavyGrid.fmod (WavyGrid.floor e) 289
  /\ WavyGrid.fmod (WavyGrid.floor (e + 289) + 1) 289
     = WavyGrid.fmod (WavyGrid.floor e + 1) 289
  /\ WavyGrid.fract (e + 289) = WavyGrid.fract e.
Proof.
  intros He. pose proof (floor_nonneg e He) as Hfl.
  rewrite (floor_add_int e 289), (fract_add_int e 289).
  split; [now apply fmod_add_period|]. split; [|done].
  replace (WavyGrid.floor e + 289 + 1) with (WavyGrid.floor e + 1 + 289)
    by lra.
  apply fmod_add_period. lra.
Qed.

Lemma perlin3d_period_x x y z :
  0 <= x ->
  WavyGrid.perlin3d (Vec3f.mk (x + 289) y z)
  = WavyGrid.perlin3d (Vec3f.mk x y z).
Proof.
  intros H. destruct (lattice_add_period x H) as (H0 & H1 & Hf).
  apply perlin3d_ext; unfold WavyGrid.map3;
    cbn [Vec3f.x Vec3f.y Vec3f.z]; congruence.
Qed.

Lemma perlin3d_period_y x y z :
  0 <= y ->
  WavyGrid.perlin3d (Vec3f.mk x (y + 289) z)
  = WavyGrid.perlin3d (Vec3f.mk x y z).
Proof.
  intros H. destruct (lattice_add_period y H) as (H0 & H1 & Hf).
  apply perlin3d_ext; unfold WavyGrid.map3;
    cbn [Vec3f.x Vec3f.y Vec3f.z]; congruence.
Qed.

Lemma perlin3d_period_z x y z :
  0 <= z ->
  WavyGrid.perlin3d (Vec3f.mk x y (z + 289))
  = WavyGrid.perlin3d (Vec3f.mk x y z).
Proof.
  intros H. destruct (lattice_add_period z H) as (H0 & H1 & Hf).
  apply perlin3d_ext; unfold WavyGrid.map3;
    cbn [Vec3f.x Vec3f.y Vec3f.z]; congruence.
Qed.

(** X17.  The noise is periodic: for a non-negative coordinate, adding 289
    to it leaves [perlin3d] unchanged, in each of the three directions
    (the lattice indices are reduced [% 289]).  The third coordinate of
    the noise in [fragmentMain] is [time * ANIMATION_SPEED], so for
    [time >= 0] the noise field repeats every 578 seconds. *)
Theorem perlin3d_periodic (x y z : R) :
  (0 <= x ->
     WavyGrid.perlin3d (Vec3f.mk (x + 289) y z)
     = WavyGrid.perlin3d (Vec3f.mk x y z))
  /\ (0 <= y ->
        WavyGrid.perlin3d (Vec3f.mk x (y + 289) z)
        = WavyGrid.perlin3d (Vec3f.mk x y z))
  /\ (0 <= z ->
        WavyGrid.perlin3d (Vec3f.mk x y (z + 289))
        = WavyGrid.perlin3d (Vec3f.mk x y z))
  /\ (forall time,
        0 <= time ->
        WavyGrid.perlin3d
          (Vec3f.mk x y ((time + 578) * WavyGrid.ANIMATION_SPEED))
        = WavyGrid.perlin3d (Vec3f.mk x y (time * WavyGrid.ANIMATION_SPEED))).
Proof.
  split; [apply perlin3d_period_x|]. split; [apply perlin3d_period_y|].
  split; [apply perlin3d_period_z|].
  intros time Ht. unfold WavyGrid.ANIMATION_SPEED.
  replace ((time + 578) * 0.5) with (time * 0.5 + 289) by lra.
  apply perlin3d_period_z. lra.
Qed.

End NoiseFacts.

(** ** The page: what every session keeps *)

Section PageFacts.

Context {num : Type} `{!Arith num} `{!CanvasArith num}.

Implicit Types (a : App.t num) (e : App.event num).

Lemma run_nil a : App.run a [] = Some a.
Proof. done. Qed.

Lemma run_thrown (events : list (App.event num)) :
  foldl (fun state e => a ← state; App.step a e) None events = None.
Proof. induction events as [|e es IH]; [done|exact IH]. Qed.

Lemma run_cons a e events :
  App.run a (e :: events) = a' ← App.step a e; App.run a' events.
Proof.
  unfold App.run. cbn [foldl mbind option_bind].
  destruct (App.step a e) as [a'|]; [done|apply run_thrown].
Qed.

Lemma run_snoc a e events :
  App.run a (events ++ [e]) = a' ← App.run a events; App.step a' e.
Proof. unfold App.run. now rewrite foldl_app. Qed.

Lemma writeBuffer_whole (buffer data : list num) :
  length data = length buffer -> App.writeBuffer buffer data = Some data.
Proof.
  intros Hlen. unfold App.writeBuffer. rewrite decide_True by lia.
  rewrite drop_ge by lia. now rewrite app_nil_r.
Qed.

Lemma writeBuffer_prefix (buffer data : list num) :
  length data <= length buffer ->
  App.writeBuffer buffer data = Some (data ++ drop (length data) buffer).
Proof. intros Hlen. unfold App.writeBuffer. now rewrite decide_True. Qed.

Lemma frame_manager_wf timestamp a :
  wf (App.rippleManager a) -> wf (App.frame_manager timestamp a).
Proof.
  intros Hwf. unfold App.frame_manager.
  destruct (App.isMouseDown a); [now apply wf_addRipple|done].
Qed.

Lemma frame_manager_maxRipples timestamp a :
  maxRipples (App.frame_manager timestamp a) = maxRipples (App.rippleManager a).
Proof.
  unfold App.frame_manager. destruct (App.isMouseDown a); [|done].
  rewrite addRipple_unfold. now destruct (num_lt _ _).
Qed.

Lemma frame_ok timestamp a :
  App.ok a ->
  let updated := update timestamp (App.frame_manager timestamp a) in
  App.frame timestamp a =
    Some
      {| App.canvas := App.canvas a;
         App.rippleUniformBuffer := data updated.2;
         App.timeUniformBuffer :=
           App.timeUniforms timestamp (App.canvas a) (activeCount updated.2)
             ++ drop 4 (App.timeUniformBuffer a);
         App.rippleManager := updated.1;
         App.cursorDot := App.cursorDot a;
         App.isMouseDown := App.isMouseDown a;
         App.lastMouseX := App.lastMouseX a;
         App.lastMouseY := App.lastMouseY a;
         App.lastClientX := App.lastClientX a;
         App.lastClientY := App.lastClientY a;
         App.canvasRect := App.canvasRect a |}.
Proof.
  intros (Hwf & Hmax & Hbuf & Htime & _) updated.
  pose proof (frame_manager_wf timestamp a Hwf) as Hwf1.
  pose proof (wf_update timestamp _ Hwf1) as (_ & _ & Hlen & _).
  assert (length (data updated.2) = length (App.rippleUniformBuffer a)) as Hl.
  { subst updated. rewrite update_result. cbn [data]. rewrite Hlen.
    destruct (update_frame timestamp _ Hwf1) as (-> & _).
    rewrite frame_manager_maxRipples, Hbuf.
    destruct Hwf as (_ & _ & -> & _). done. }
  unfold App.frame. fold updated.
  rewrite (writeBuffer_whole _ _ Hl). cbn [mbind option_bind].
  rewrite writeBuffer_prefix by (cbn [App.timeUniforms length]; lia).
  done.
Qed.

Lemma ok_frame timestamp a :
  App.ok a -> exists a', App.frame timestamp a = Some a' /\ App.ok a'.
Proof.
  intros Hok. pose proof (frame_ok timestamp a Hok) as Hf.
  cbv zeta in Hf. eexists. split; [exact Hf|].
  destruct Hok as (Hwf & Hmax & Hbuf & Htime & Hdot).
  pose proof (frame_manager_wf timestamp a Hwf) as Hwf1.
  unfold App.ok. cbn [App.rippleManager App.rippleUniformBuffer
    App.timeUniformBuffer App.cursorDot App.isMouseDown].
  split; [now apply wf_update|]. split.
  { destruct (update_frame timestamp _ Hwf1) as (-> & _).
    now rewrite frame_manager_maxRipples. }
  split; [now rewrite update_result|]. split; [|exact Hdot].
  rewrite length_app, length_drop, Htime. done.
Qed.

Lemma ok_init innerWidth innerHeight devicePixelRatio rect :
  App.ok (App.init innerWidth innerHeight devicePixelRatio rect).
Proof.
  unfold App.ok, App.init. cbn.
  split; [apply wf_new; lia|]. repeat split; try done.
Qed.

Lemma ok_step a e :
  App.ok a -> exists a', App.step a e = Some a' /\ App.ok a'.
Proof.
  intros Hok. destruct e as [w h dpr|rect|cx cy now|cx cy| | |timestamp];
    cbn [App.step]; try (now apply ok_frame); eexists; (split; [done|]);
    destruct Hok as (Hwf & Hmax & Hbuf & Htime & Hdot).
  - exact (conj Hwf (conj Hmax (conj Hbuf (conj Htime Hdot)))).
  - exact (conj Hwf (conj Hmax (conj Hbuf (conj Htime Hdot)))).
  - unfold App.ok, App.pointerdown.
    cbn [App.rippleManager App.rippleUniformBuffer App.timeUniformBuffer
         App.cursorDot App.isMouseDown].
    split; [now apply wf_addRipple|].
    rewrite addRipple_unfold.
    destruct (num_lt _ _);
      (split; [exact Hmax|]; split; [exact Hbuf|]; split; [exact Htime|]);
      now intros dot [= <-].
  - unfold App.pointermove. destruct (App.isMouseDown a) eqn:Hdown;
      cbn [negb].
    + unfold App.ok.
      cbn [App.rippleManager App.rippleUniformBuffer App.timeUniformBuffer
           App.cursorDot App.isMouseDown].
      split; [exact Hwf|]. split; [exact Hmax|]. split; [exact Hbuf|].
      split; [exact Htime|]. now intros dot [= <-].
    + unfold App.ok. rewrite Hdown.
      exact (conj Hwf (conj Hmax (conj Hbuf (conj Htime Hdot)))).
  - unfold App.ok, App.pointerup.
    cbn [App.rippleManager App.rippleUniformBuffer App.timeUniformBuffer
         App.cursorDot App.isMouseDown].
    split; [exact Hwf|]. split; [exact Hmax|]. split; [exact Hbuf|].
    split; [exact Htime|]. now intros dot [= <-].
  - unfold App.ok, App.pointerleave, App.pointerup.
    cbn [App.rippleManager App.rippleUniformBuffer App.timeUniformBuffer
         App.cursorDot App.isMouseDown].
    split; [exact Hwf|]. split; [exact Hmax|]. split; [exact Hbuf|].
    split; [exact Htime|]. now intros dot [= <-].
Qed.

Lemma ok_run events : forall a,
  App.ok a -> exists a', App.run a events = Some a' /\ App.ok a'.
Proof.
  induction events as [|e es IH]; intros a Hok; [now exists a|].
  destruct (ok_step a e Hok) as (a1 & Hstep & Hok1).
  destruct (IH a1 Hok1) as (a' & Hrun & Hok').
  exists a'. split; [|exact Hok'].
  rewrite run_cons, Hstep. exact Hrun.
Qed.

Lemma reachable_step a e a' :
  reachable (App.rippleManager a) ->
  App.step a e = Some a' ->
  reachable (App.rippleManager a').
Proof.
  intros Hr. destruct e as [w h dpr|rect|cx cy now|cx cy| | |timestamp];
    cbn [App.step]; try (intros [= <-]; try done).
  - now constructor.
  - unfold App.pointermove. now destruct (App.isMouseDown a).
  - unfold App.frame.
    destruct (App.writeBuffer (App.rippleUniformBuffer a) _) as [rb|];
      [|done].
    cbn [mbind option_bind].
    destruct (App.writeBuffer (App.timeUniformBuffer a) _) as [tb|]; [|done].
    cbn [mbind option_bind].
    intros [= <-]. cbn [App.rippleManager]. constructor.
    unfold App.frame_manager.
    destruct (App.isMouseDown a); [now constructor|done].
Qed.

Lemma reachable_run events : forall a a',
  reachable (App.rippleManager a) ->
  App.run a events = Some a' ->
  reachable (App.rippleManager a').
Proof.
  induction events as [|e es IH]; intros a a' Hr.
  - now intros [= <-].
  - rewrite run_cons. destruct (App.step a e) as [a1|] eqn:Hstep; [|done].
    cbn [mbind option_bind]. apply IH. now apply (reachable_step a e).
Qed.

End PageFacts.

(** X18.  The page never throws and keeps its buffers in step: from the
    state [init] sets up, for any window, layout and sequence of events,
    in every arithmetic, every handler runs to completion (no upload
    exceeds its GPU buffer); the manager is in a state reachable by its
    two methods; the ripple buffer on the GPU holds exactly the manager's
    [rippleData], 512 numbers; the time buffer keeps its 12 numbers; and
    the cursor dot, once styled, is shown exactly while the pointer is
    down. *)
Theorem page_keeps_buffers_in_step {num : Type} `{!Arith num}
    `{!CanvasArith num} (innerWidth innerHeight devicePixelRatio : num)
    (rect : DOMRect.t num) (events : list (App.event num)) :
  exists a,
    App.run (App.init innerWidth innerHeight devicePixelRatio rect) events
      = Some a
    /\ reachable (App.rippleManager a)
    /\ App.rippleUniformBuffer a = rippleData (App.rippleManager a)
    /\ length (App.rippleUniformBuffer a) = 512
    /\ length (App.timeUniformBuffer a) = 12
    /\ forall dot,
         App.cursorDot a = Some dot ->
         CursorDot.opacity dot = App.isMouseDown a.
Proof.
  destruct (ok_run events _
              (ok_init innerWidth innerHeight devicePixelRatio rect))
    as (a & Hrun & Hwf & Hmax & Hbuf & Htime & Hdot).
  exists a. split; [exact Hrun|]. split.
  { apply (reachable_run events
             (App.init innerWidth innerHeight devicePixelRatio rect) a);
      [constructor|exact Hrun]. }
  split; [exact Hbuf|]. split; [|split; [exact Htime|exact Hdot]].
  rewrite Hbuf. destruct Hwf as (_ & _ & -> & _). now rewrite Hmax.
Qed.

(** ** Ripples come from presses *)


Section Quiet.

Context {num : Type} `{!Arith num} `{!CanvasArith num}.

Implicit Types (a : App.t num) (e : App.event num) (s : RippleManager.t num).

Lemma only_aged_refl s : only_aged s s.
Proof.
  split; [done|]. split; [done|]. intros i r Hi. now exists r.
Qed.

Lemma only_aged_trans s1 s2 s3 :
  only_aged s1 s2 -> only_aged s2 s3 -> only_aged s1 s3.
Proof.
  intros (Hc1 & Hl1 & H1) (Hc2 & Hl2 & H2).
  split; [congruence|]. split; [congruence|].
  intros i r Hi.
  destruct (H1 i r Hi) as (r2 & Hi2 & Hx & Hy & Hst & Ha).
  destruct (H2 i r2 Hi2) as (r3 & Hi3 & Hx' & Hy' & Hst' & Ha').
  exists r3. split; [exact Hi3|]. split; [congruence|]. split; [congruence|].
  split; [congruence|]. intros H. apply Ha, Ha', H.
Qed.

Lemma only_aged_update timestamp s :
  wf s -> only_aged s (update timestamp s).1.
Proof.
  intros Hwf. destruct (update_frame timestamp s Hwf) as (_ & Hc & Hl & _).
  split; [exact Hc|]. split; [exact Hl|]. intros i r Hi.
  destruct (update_slotwise timestamp s i r Hwf Hi)
    as (r' & Hi' & Hx & Hy & Hst & _ & Ha).
  now exists r'.
Qed.

Lemma quiet_step a e :
  App.ok a ->
  App.isMouseDown a = false ->
  App.is_PointerDown e = false ->
  exists a',
    App.step a e = Some a'
    /\ App.ok a'
    /\ App.isMouseDown a' = false
    /\ only_aged (App.rippleManager a) (App.rippleManager a').
Proof.
  intros Hok Hup He.
  destruct (ok_step a e Hok) as (a' & Hstep & Hok').
  exists a'. split; [exact Hstep|]. split; [exact Hok'|].
  destruct e as [w h dpr|rect|cx cy now|cx cy| | |timestamp];
    cbn [App.step] in Hstep; try discriminate He.
  - injection Hstep as <-. split; [exact Hup|apply only_aged_refl].
  - injection Hstep as <-. split; [exact Hup|apply only_aged_refl].
  - injection Hstep as <-. unfold App.pointermove. rewrite Hup. cbn [negb].
    split; [exact Hup|apply only_aged_refl].
  - injection Hstep as <-. split; [done|apply only_aged_refl].
  - injection Hstep as <-. split; [done|apply only_aged_refl].
  - rewrite (frame_ok timestamp a Hok) in Hstep. injection Hstep as <-.
    cbn [App.isMouseDown App.rippleManager].
    split; [exact Hup|].
    unfold App.frame_manager. rewrite Hup.
    apply only_aged_update. apply Hok.
Qed.

Lemma quiet_run events : forall a,
  App.ok a ->
  App.isMouseDown a = false ->
  Forall (fun e => App.is_PointerDown e = false) events ->
  exists a',
    App.run a events = Some a'
    /\ App.isMouseDown a' = false
    /\ only_aged (App.rippleManager a) (App.rippleManager a').
Proof.
  induction events as [|e es IH]; intros a Hok Hup Hq.
  - exists a. split; [done|]. split; [exact Hup|apply only_aged_refl].
  - apply Forall_cons in Hq as [He Hq].
    destruct (quiet_step a e Hok Hup He) as (a1 & Hstep & Hok1 & Hup1 & H1).
    destruct (IH a1 Hok1 Hup1 Hq) as (a' & Hrun & Hup' & H').
    exists a'. split; [now rewrite run_cons, Hstep|].
    split; [exact Hup'|]. now apply (only_aged_trans _ (App.rippleManager a1)).
Qed.

End Quiet.

(** X19.  Ripples come from presses only: while the pointer is up, no
    sequence of events without a [pointerdown] (moves, releases, resizes,
    layout changes, frames) inserts a ripple.  The page keeps running,
    the pointer stays up, the write cursor and the time of the last
    insert stay as they are, every slot keeps its position and start
    time, and no record becomes active.  This holds in every
    arithmetic. *)
Theorem no_ripple_without_press {num : Type} `{!Arith num}
    `{!CanvasArith num} (a : App.t num) (events : list (App.event num)) :
  App.ok a ->
  App.isMouseDown a = false ->
  Forall (fun e => App.is_PointerDown e = false) events ->
  exists a',
    App.run a events = Some a'
    /\ App.isMouseDown a' = false
    /\ nextRippleIndex (App.rippleManager a')
       = nextRippleIndex (App.rippleManager a)
    /\ lastRippleTime (App.rippleManager a')
       = lastRippleTime (App.rippleManager a)
    /\ forall i r,
         ripples (App.rippleManager a) !! i = Some r ->
         exists r',
           ripples (App.rippleManager a') !! i = Some r'
           /\ Ripple.x r' = Ripple.x r
           /\ Ripple.y r' = Ripple.y r
           /\ Ripple.startTime r' = Ripple.startTime r
           /\ (Ripple.active r' = true -> Ripple.active r = true).
Proof.
  intros Hok Hup Hq.
  destruct (quiet_run events a Hok Hup Hq) as (a' & Hrun & Hup' & Hc & Hl & Hs).
  exists a'. split; [exact Hrun|]. split; [exact Hup'|].
  split; [exact Hc|]. split; [exact Hl|exact Hs].
Qed.

Lemma no_ripple_without_press_witness :
  App.ok (App.init 800%Q 600%Q 1%Q (DOMRect.mk 0%Q 0%Q 800%Q 600%Q))
  /\ App.isMouseDown
       (App.init 800%Q 600%Q 1%Q (DOMRect.mk 0%Q 0%Q 800%Q 600%Q)) = false
  /\ exists a',
       App.run (App.init 800%Q 600%Q 1%Q (DOMRect.mk 0%Q 0%Q 800%Q 600%Q))
         [App.PointerMove 10%Q 10%Q; App.Frame 16%Q; App.PointerUp]
         = Some a'
       /\ nextRippleIndex (App.rippleManager a') = 0.
Proof.
  split; [apply ok_init|]. split; [reflexivity|].
  destruct (no_ripple_without_press
              (App.init 800%Q 600%Q 1%Q (DOMRect.mk 0%Q 0%Q 800%Q 600%Q))
              [App.PointerMove 10%Q 10%Q; App.Frame 16%Q; App.PointerUp])
    as (a' & Hrun & _ & Hc & _).
  - apply ok_init.
  - reflexivity.
  - repeat constructor.
  - exists a'. split; [exact Hrun|exact Hc].
Defined.

(** ** A frame with no live ripple *)

Lemma rippleLoop_all_trailing u rs uv :
  (forall k,
     0 <= k < 128 ->
     exists ripple, rs !! k = Some ripple /\ RippleData.strength ripple = 0%R) ->
  WavyGrid.rippleLoop u rs uv 128 = Some 0%R.
Proof.
  intros Hall.
  now rewrite (rippleLoop_trailing u rs uv 0 128 (Nat.le_0_l _) Hall).
Qed.

Lemma idle_frame {num : Type} `{!Arith num}
    `{!CanvasArith num} (toR : num -> R) (a : App.t num) (timestamp : num) :
  toR (fround (num_lit 0)) = 0%R ->
  App.ok a ->
  App.isMouseDown a = false ->
  live (ripples (App.rippleManager a)) = [] ->
  exists a',
    App.frame timestamp a = Some a'
    /\ activeRippleCount (App.rippleManager a') = 0
    /\ live (ripples (App.rippleManager a')) = []
    /\ forall uv,
         let time := toR (fround (num_div timestamp (num_lit 1000))) in
         let noise1 :=
           WavyGrid.perlin3d
             (Vec3f.mk (Vec2f.x uv * 12) (Vec2f.y uv * 12)
                (time * WavyGrid.ANIMATION_SPEED)) in
         let noise2 :=
           WavyGrid.perlin3d
             (Vec3f.mk (Vec2f.x uv * 12 + 100) (Vec2f.y uv * 12 + 100)
                (time * WavyGrid.ANIMATION_SPEED)) in
         WavyGrid.rippleLoop
           (uniformsOfBuffer (toR <$> App.timeUniformBuffer a'))
           (ripplesOfBuffer (toR <$> App.rippleUniformBuffer a') 128) uv 128
           = Some 0%R
         /\ drawn toR a' uv
            = WavyGrid.gridColor
                (Vec2f.mk
                   (Vec2f.x uv + noise1 * WavyGrid.DISTORTION_SCALE + 0)
                   (Vec2f.y uv + noise2 * WavyGrid.DISTORTION_SCALE + 0))
         /\ is_Some (drawn toR a' uv).
Proof.
  intros Hzero Hok Hup Hidle.
  pose proof Hok as (Hwf & Hmax & _).
  pose proof (frame_ok timestamp a Hok) as Hframe. cbv zeta in Hframe.
  unfold App.frame_manager in Hframe. rewrite Hup in Hframe.
  set (s := App.rippleManager a) in *.
  assert (live (ripples (update timestamp s).1) = []) as Hlive.
  { apply length_zero_iff_nil.
    pose proof (live_aged_length (num_div timestamp (num_lit 1000))
                  (num_lit 2) (ripples s)) as Hle.
    rewrite Hidle in Hle. rewrite update_ripples by done.
    simpl in Hle. lia. }
  assert (activeRippleCount (update timestamp s).1 = 0) as Hcount
    by now rewrite update_count_live, Hlive.
  eexists. split; [exact Hframe|].
  split; [exact Hcount|]. split; [exact Hlive|].
  intros uv time noise1 noise2.
  cbn [App.timeUniformBuffer App.rippleUniformBuffer].
  assert (WavyGrid.rippleLoop
            (uniformsOfBuffer
               (toR <$> App.timeUniforms timestamp (App.canvas a)
                          (activeCount (update timestamp s).2)
                        ++ drop 4 (App.timeUniformBuffer a)))
            (ripplesOfBuffer (toR <$> data (update timestamp s).2) 128) uv 128
          = Some 0%R) as Hloop.
  { apply rippleLoop_all_trailing. intros k Hk.
    apply (uploaded_trailing_strength toR s timestamp k Hzero Hwf Hmax).
    rewrite update_result. cbn [activeCount]. rewrite Hcount. exact Hk. }
  split; [exact Hloop|].
  assert (drawn toR
            {| App.canvas := App.canvas a;
               App.rippleUniformBuffer := data (update timestamp s).2;
               App.timeUniformBuffer :=
                 App.timeUniforms timestamp (App.canvas a)
                   (activeCount (update timestamp s).2)
                 ++ drop 4 (App.timeUniformBuffer a);
               App.rippleManager := (update timestamp s).1;
               App.cursorDot := App.cursorDot a;
               App.isMouseDown := App.isMouseDown a;
               App.lastMouseX := App.lastMouseX a;
               App.lastMouseY := App.lastMouseY a;
               App.lastClientX := App.lastClientX a;
               App.lastClientY := App.lastClientY a;
               App.canvasRect := App.canvasRect a |} uv
          = WavyGrid.gridColor
              (Vec2f.mk
                 (Vec2f.x uv + noise1 * WavyGrid.DISTORTION_SCALE + 0)
                 (Vec2f.y uv + noise2 * WavyGrid.DISTORTION_SCALE + 0)))
    as Hdrawn.
  { unfold drawn. cbn [App.timeUniformBuffer App.rippleUniformBuffer].
    unfold WavyGrid.fragmentMain. rewrite Hloop. reflexivity. }
  split; [exact Hdrawn|].
  destruct (gridColor_formula
              (Vec2f.mk
                 (Vec2f.x uv + noise1 * WavyGrid.DISTORTION_SCALE + 0)
                 (Vec2f.y uv + noise2 * WavyGrid.DISTORTION_SCALE + 0)))
    as (i & _ & _ & Hc).
  eexists. etrans; [exact Hdrawn|exact Hc].
Qed.

(** X24.  With no live ripple the picture is the noise-distorted grid
    alone: when no record of the pool is active and the pointer is up,
    [frame] uploads an active count of 0 and, at every sample, the sum
    over the 128 array elements is 0 and the fragment colour is the grid
    colour at the sample displaced by the two noise values only; it is
    defined everywhere.  This holds in every arithmetic whose stored
    zero is read as the real 0, [toR] being the reading of an uploaded
    number as a real. *)
Theorem idle_frame_draws_noise_grid {num : Type} `{!Arith num}
    `{!CanvasArith num} (toR : num -> R) (a : App.t num) (timestamp : num) :
  toR (fround (num_lit 0)) = 0%R ->
  App.ok a ->
  App.isMouseDown a = false ->
  live (ripples (App.rippleManager a)) = [] ->
  exists a',
    App.frame timestamp a = Some a'
    /\ activeRippleCount (App.rippleManager a') = 0
    /\ live (ripples (App.rippleManager a')) = []
    /\ forall uv,
         let time := toR (fround (num_div timestamp (num_lit 1000))) in
         let noise1 :=
           WavyGrid.perlin3d
             (Vec3f.mk (Vec2f.x uv * 12) (Vec2f.y uv * 12)
                (time * WavyGrid.ANIMATION_SPEED)) in
         let noise2 :=
           WavyGrid.perlin3d
             (Vec3f.mk (Vec2f.x uv * 12 + 100) (Vec2f.y uv * 12 + 100)
                (time * WavyGrid.ANIMATION_SPEED)) in
         WavyGrid.rippleLoop
           (uniformsOfBuffer (toR <$> App.timeUniformBuffer a'))
           (ripplesOfBuffer (toR <$> App.rippleUniformBuffer a') 128) uv 128
           = Some 0%R
         /\ drawn toR a' uv
            = WavyGrid.gridColor
                (Vec2f.mk
                   (Vec2f.x uv + noise1 * WavyGrid.DISTORTION_SCALE + 0)
                   (Vec2f.y uv + noise2 * WavyGrid.DISTORTION_SCALE + 0))
         /\ is_Some (drawn toR a' uv).
Proof. exact (idle_frame toR a timestamp). Qed.

Lemma idle_frame_draws_noise_grid_witness :
  Q2R (fround (num_lit 0)) = 0%R
  /\ App.ok (App.init 800%Q 600%Q 1%Q (DOMRect.mk 0%Q 0%Q 800%Q 600%Q))
  /\ live
       (ripples
          (App.rippleManager
             (App.init 800%Q 600%Q 1%Q (DOMRect.mk 0%Q 0%Q 800%Q 600%Q))))
     = []
  /\ exists a',
       App.frame 16%Q
         (App.init 800%Q 600%Q 1%Q (DOMRect.mk 0%Q 0%Q 800%Q 600%Q))
         = Some a'
       /\ activeRippleCount (App.rippleManager a') = 0.
Proof.
  assert (Q2R (fround (num_lit 0)) = 0%R) as Hzero by exact Q2R_zero.
  split; [exact Hzero|]. split; [apply ok_init|]. split; [reflexivity|].
  destruct (idle_frame_draws_noise_grid Q2R
              (App.init 800%Q 600%Q 1%Q (DOMRect.mk 0%Q 0%Q 800%Q 600%Q))
              16%Q Hzero (ok_init _ _ _ _) eq_refl eq_refl)
    as (a' & Hframe & Hcount & _).
  exists a'. split; [exact Hframe|exact Hcount].
Defined.

(** ** The canvas and the pointer, in exact arithmetic *)

Lemma Qdiv_cross (a b : Q) : (0 < b)%Q -> (b * (a / b) == a)%Q.
Proof. intros Hb. apply Qmult_div_r. intros H. rewrite H in Hb. discriminate. Qed.

Lemma round_Q (x : Q) :
  (x - (1 # 2) < num_round x)%Q /\ (num_round x <= x + (1 # 2))%Q.
Proof.
  cbn [num_round CanvasArithQ].
  pose proof (Qfloor_le (x + (1 # 2))) as Hle.
  pose proof (Qlt_floor (x + (1 # 2))) as Hlt.
  rewrite inject_Z_plus in Hlt. change (inject_Z 1) with 1%Q in Hlt.
  split; Lqa.lra.
Qed.

(** X25.  [updateCanvasSize] letterboxes: in exact arithmetic, for a window
    of positive width and height, the display size it assigns has aspect
    ratio 4:3, fits inside the window and touches it in one direction
    (the height when the window is wider than 4:3, the width otherwise);
    and each side of the drawing buffer is a whole number within one half
    of the display side times the pixel ratio, the pixel ratio counting
    as 1 when [window.devicePixelRatio] is zero. *)
Theorem updateCanvasSize_letterboxes (innerWidth innerHeight
    devicePixelRatio : Q) :
  (0 < innerWidth)%Q ->
  (0 < innerHeight)%Q ->
  let c := App.updateCanvasSize innerWidth innerHeight devicePixelRatio in
  let dpr := if Qeq_bool devicePixelRatio 0 then 1%Q else devicePixelRatio in
  (Canvas.style_width c * 3 == Canvas.style_height c * 4)%Q
  /\ (Canvas.style_width c <= innerWidth)%Q
  /\ (Canvas.style_height c <= innerHeight)%Q
  /\ (if Qlt_le_dec (innerHeight * 4) (innerWidth * 3)
      then Canvas.style_height c = innerHeight
      else Canvas.style_width c = innerWidth)
  /\ exists widthPixels heightPixels : Z,
       Canvas.width c = inject_Z widthPixels
       /\ Canvas.height c = inject_Z heightPixels
       /\ (Canvas.style_width c * dpr - (1 # 2) < inject_Z widthPixels)%Q
       /\ (inject_Z widthPixels <= Canvas.style_width c * dpr + (1 # 2))%Q
       /\ (Canvas.style_height c * dpr - (1 # 2) < inject_Z heightPixels)%Q
       /\ (inject_Z heightPixels <= Canvas.style_height c * dpr + (1 # 2))%Q.
Proof.
  intros Hw Hh c dpr.
  assert (exists width height,
    c = {| Canvas.style_width := width;
           Canvas.style_height := height;
           Canvas.width := num_round (num_mul width dpr);
           Canvas.height := num_round (num_mul height dpr) |}
    /\ (width * 3 == height * 4)%Q
    /\ (width <= innerWidth)%Q
    /\ (height <= innerHeight)%Q
    /\ (if Qlt_le_dec (innerHeight * 4) (innerWidth * 3)
        then height = innerHeight else width = innerWidth)) as Hc.
  { subst c dpr. unfold App.updateCanvasSize.
    change (num_div (num_lit 4) (num_lit 3)) with (4 # 3)%Q.
    change (num_lit 1) with 1%Q.
    assert ((if num_truthy devicePixelRatio then devicePixelRatio else 1%Q)
            = (if Qeq_bool devicePixelRatio 0 then 1%Q else devicePixelRatio))
      as -> by (cbn [num_truthy CanvasArithQ];
                now destruct (Qeq_bool devicePixelRatio 0)).
    pose proof (Qdiv_cross innerWidth innerHeight Hh) as Hq.
    destruct (num_gt (num_div innerWidth innerHeight) (4 # 3)) eqn:Hgt.
    - apply num_gt_Q in Hgt. cbn [num_div ArithQ] in Hgt.
      rewrite Qred_correct in Hgt.
      assert (innerHeight * (4 # 3) < innerHeight * (innerWidth / innerHeight))%Q
        as Hlt by now apply Qmult_lt_l.
      rewrite Hq in Hlt.
      eexists _, _. split; [reflexivity|].
      cbn [num_mul CanvasArithQ]. rewrite !Qred_correct.
      split; [Lqa.lra|]. split; [Lqa.lra|]. split; [Lqa.lra|].
      destruct (Qlt_le_dec _ _) as [H|H]; [done|]. exfalso. Lqa.lra.
    - assert (~ (4 # 3 < num_div innerWidth innerHeight)%Q) as Hle.
      { intros H. apply num_gt_Q in H. congruence. }
      cbn [num_div ArithQ] in Hle. rewrite Qred_correct in Hle.
      apply Qnot_lt_le in Hle.
      assert (innerHeight * (innerWidth / innerHeight) <= innerHeight * (4 # 3))%Q
        as Hle' by (apply Qmult_le_l; [exact Hh|exact Hle]).
      rewrite Hq in Hle'.
      eexists _, _. split; [reflexivity|].
      cbn [num_div ArithQ]. rewrite !Qred_correct.
      change (innerWidth / (4 # 3))%Q with (innerWidth * (3 # 4))%Q.
      split; [Lqa.lra|]. split; [Lqa.lra|]. split; [Lqa.lra|].
      destruct (Qlt_le_dec _ _) as [H|H]; [|done]. exfalso. Lqa.lra. }
  destruct Hc as (width & height & -> & Hratio & Hfitw & Hfith & Htouch).
  cbn [Canvas.style_width Canvas.style_height Canvas.width Canvas.height].
  split; [exact Hratio|]. split; [exact Hfitw|]. split; [exact Hfith|].
  split; [exact Htouch|].
  assert (num_mul width dpr == width * dpr)%Q as Hx by apply Qred_correct.
  assert (num_mul height dpr == height * dpr)%Q as Hy by apply Qred_correct.
  destruct (round_Q (num_mul width dpr)) as [Hw1 Hw2].
  destruct (round_Q (num_mul height dpr)) as [Hh1 Hh2].
  set (x := num_mul width dpr) in *. set (y := num_mul height dpr) in *.
  exists (Qfloor (x + (1 # 2))), (Qfloor (y + (1 # 2))).
  split; [reflexivity|]. split; [reflexivity|].
  change (num_round x) with (inject_Z (Qfloor (x + (1 # 2)))) in Hw1, Hw2.
  change (num_round y) with (inject_Z (Qfloor (y + (1 # 2)))) in Hh1, Hh2.
  repeat split; Lqa.lra.
Qed.

Lemma updateCanvasSize_letterboxes_witness :
  (0 < 1920)%Q /\ (0 < 1080)%Q
  /\ (Canvas.style_width (App.updateCanvasSize 1920%Q 1080%Q 2%Q) * 3
      == Canvas.style_height (App.updateCanvasSize 1920%Q 1080%Q 2%Q) * 4)%Q
  /\ Canvas.style_height (App.updateCanvasSize 1920%Q 1080%Q 2%Q) = 1080%Q.
Proof.
  assert (0 < 1920)%Q as Hw by reflexivity.
  assert (0 < 1080)%Q as Hh by reflexivity.
  split; [exact Hw|]. split; [exact Hh|].
  destruct (updateCanvasSize_letterboxes 1920%Q 1080%Q 2%Q Hw Hh)
    as (Hratio & _ & _ & Htouch & _).
  split; [exact Hratio|exact Htouch].
Defined.

Lemma unit_quotient (a b : Q) :
  (0 < b)%Q ->
  (b * Qred (Qred a / b) == a)%Q
  /\ ((0 <= a)%Q <-> (0 <= Qred (Qred a / b))%Q)
  /\ ((a <= b)%Q <-> (Qred (Qred a / b) <= 1)%Q).
Proof.
  intros Hb.
  assert (b * Qred (Qred a / b) == a)%Q as Hq.
  { rewrite Qred_correct, (Qdiv_cross (Qred a) b Hb). apply Qred_correct. }
  set (q := Qred (Qred a / b)) in *.
  pose proof (Qmult_le_l 0 q b Hb) as H0.
  pose proof (Qmult_le_l q 1 b Hb) as H1.
  split; [exact Hq|]. split; split; intros H.
  - apply H0. Lqa.lra.
  - apply H0 in H. Lqa.lra.
  - apply H1. Lqa.lra.
  - apply H1 in H. Lqa.lra.
Qed.

(** X26.  [getNormalizedCoordinates] maps the canvas onto the unit square
    with the vertical axis flipped: in exact arithmetic, for a bounding
    rectangle of positive width and height, the pointer position is
    recovered from the result as [left + x * width] and
    [top + (1 - y) * height]; the position lies within the rectangle
    exactly when [x] and [y] lie in [0, 1]; the top edge is [y = 1] and
    the bottom edge [y = 0]. *)
Theorem getNormalizedCoordinates_unit_square (canvasRect : DOMRect.t Q)
    (clientX clientY : Q) :
  (0 < DOMRect.width canvasRect)%Q ->
  (0 < DOMRect.height canvasRect)%Q ->
  let coords := App.getNormalizedCoordinates canvasRect clientX clientY in
  (clientX == DOMRect.left canvasRect + coords.1 * DOMRect.width canvasRect)%Q
  /\ (clientY
      == DOMRect.top canvasRect + (1 - coords.2) * DOMRect.height canvasRect)%Q
  /\ ((DOMRect.left canvasRect <= clientX)%Q
      /\ (clientX <= DOMRect.left canvasRect + DOMRect.width canvasRect)%Q
      <-> (0 <= coords.1)%Q /\ (coords.1 <= 1)%Q)
  /\ ((DOMRect.top canvasRect <= clientY)%Q
      /\ (clientY <= DOMRect.top canvasRect + DOMRect.height canvasRect)%Q
      <-> (0 <= coords.2)%Q /\ (coords.2 <= 1)%Q)
  /\ (clientY == DOMRect.top canvasRect -> coords.2 == 1)%Q
  /\ (clientY == DOMRect.top canvasRect + DOMRect.height canvasRect ->
      coords.2 == 0)%Q.
Proof.
  intros Hw Hh coords. subst coords. unfold App.getNormalizedCoordinates.
  cbn [fst snd num_sub num_div num_lit ArithQ].
  destruct canvasRect as [left top width height].
  cbn [DOMRect.left DOMRect.top DOMRect.width DOMRect.height] in *.
  destruct (unit_quotient (clientX - left) width Hw) as (Hx & Hx0 & Hx1).
  destruct (unit_quotient (clientY - top) height Hh) as (Hy & Hy0 & Hy1).
  set (x := Qred (Qred (clientX - left) / width)) in *.
  set (q := Qred (Qred (clientY - top) / height)) in *.
  change (Qred 1) with 1%Q. rewrite !Qred_correct.
  split; [Lqa.lra|]. split; [Lqa.lra|]. split; [|split; [|split]].
  - split.
    + intros [H0 H1]. split; [apply Hx0|apply Hx1]; Lqa.lra.
    + intros [H0 H1]. apply Hx0 in H0. apply Hx1 in H1. split; Lqa.lra.
  - split.
    + intros [H0 H1].
      assert (0 <= q)%Q by (apply Hy0; Lqa.lra).
      assert (q <= 1)%Q by (apply Hy1; Lqa.lra).
      split; Lqa.lra.
    + intros [H0 H1].
      assert (0 <= q)%Q as Hq0 by Lqa.lra.
      assert (q <= 1)%Q as Hq1 by Lqa.lra.
      apply Hy0 in Hq0. apply Hy1 in Hq1. split; Lqa.lra.
  - intros Htop.
    assert (0 <= q)%Q by (apply Hy0; Lqa.lra).
    assert (height * q == 0)%Q as Hz by Lqa.lra.
    apply Qmult_integral in Hz as [Hz|Hz]; Lqa.lra.
  - intros Hbottom.
    assert (height * q == height * 1)%Q as Hz by Lqa.lra.
    apply Qmult_inj_l in Hz; Lqa.lra.
Qed.

Lemma getNormalizedCoordinates_unit_square_witness :
  (0 < DOMRect.width (DOMRect.mk 10%Q 20%Q 800%Q 600%Q))%Q
  /\ (0 < DOMRect.height (DOMRect.mk 10%Q 20%Q 800%Q 600%Q))%Q
  /\ App.getNormalizedCoordinates (DOMRect.mk 10%Q 20%Q 800%Q 600%Q)
       210%Q 170%Q = ((1 # 4)%Q, (3 # 4)%Q)
  /\ (210 == 10
             + (App.getNormalizedCoordinates
                  (DOMRect.mk 10%Q 20%Q 800%Q 600%Q) 210%Q 170%Q).1
               * 800)%Q.
Proof.
  assert (0 < DOMRect.width (DOMRect.mk 10%Q 20%Q 800%Q 600%Q))%Q as Hw
    by reflexivity.
  assert (0 < DOMRect.height (DOMRect.mk 10%Q 20%Q 800%Q 600%Q))%Q as Hh
    by reflexivity.
  split; [exact Hw|]. split; [exact Hh|]. split; [reflexivity|].
  exact (proj1 (getNormalizedCoordinates_unit_square
                  (DOMRect.mk 10%Q 20%Q 800%Q 600%Q) 210%Q 170%Q Hw Hh)).
Defined.

(** ** The pool outlives its ripples *)

Lemma spaced_from (l : list (Q * Q * Q)) : forall last j c,
  spaced last l ->
  l !! j = Some c ->
  (25 * inject_Z (Z.of_nat (S j)) <= c.2 - last)%Q.
Proof.
  induction l as [|[[x y] t] l IH]; intros last j c Hsp Hj; [done|].
  destruct Hsp as [H25 Hsp]. destruct j as [|j].
  - injection Hj as <-. cbn [snd].
    change (inject_Z (Z.of_nat 1)) with 1%Q. Lqa.lra.
  - specialize (IH t j c Hsp Hj).
    rewrite (Nat2Z.inj_succ (S j)), <- Z.add_1_r, inject_Z_plus.
    change (inject_Z 1) with 1%Q. Lqa.lra.
Qed.

Lemma spaced_drop (l : list (Q * Q * Q)) : forall last i c,
  spaced last l -> l !! i = Some c -> spaced c.2 (drop (S i) l).
Proof.
  induction l as [|[[x y] t] l IH]; intros last i c Hsp Hi; [done|].
  destruct Hsp as [_ Hsp]. destruct i as [|i].
  - injection Hi as <-. exact Hsp.
  - exact (IH t i c Hsp Hi).
Qed.

Lemma spaced_gap (l : list (Q * Q * Q)) last i j ci cj :
  spaced last l ->
  l !! i = Some ci ->
  l !! j = Some cj ->
  i < j ->
  (25 * inject_Z (Z.of_nat (j - i)) <= cj.2 - ci.2)%Q.
Proof.
  intros Hsp Hi Hj Hlt.
  pose proof (spaced_drop l last i ci Hsp Hi) as Hsp'.
  assert (drop (S i) l !! (j - i - 1) = Some cj) as Hj'.
  { rewrite lookup_drop. replace (S i + (j - i - 1)) with j by lia. exact Hj. }
  pose proof (spaced_from _ _ _ _ Hsp' Hj') as H.
  replace (S (j - i - 1)) with (j - i) in H by lia. exact H.
Qed.

(** X27.  The pool never evicts a ripple that is still alive: in exact
    arithmetic, for a pool of 128 slots and any sequence of accepted
    inserts (each at least 25 ms after the one before), the record of an
    insert stays in the slot it was written to as long as fewer than 128
    accepted inserts follow it; and an insert that writes that slot
    again, the 128th after it or a later one, has a timestamp at least
    3200 ms greater, when the record is older than [maxAge] (2 s). *)
Theorem pool_outlives_ripples (s : t Q) (l : list (Q * Q * Q))
    (i : nat) (x y timestamp : Q) :
  wf s ->
  maxRipples s = 128 ->
  spaced (lastRippleTime s) l ->
  l !! i = Some (x, y, timestamp) ->
  (length l <= i + 128 ->
     ripples (insert_all s l) !! ((nextRippleIndex s + i) mod 128)
       = Some (fresh x y timestamp))
  /\ (forall j x' y' timestamp',
        l !! j = Some (x', y', timestamp') ->
        i < j ->
        (nextRippleIndex s + j) mod 128 = (nextRippleIndex s + i) mod 128 ->
        (3200 <= timestamp' - timestamp)%Q
        /\ (2 < timestamp' / 1000 - Ripple.startTime (fresh x y timestamp))%Q).
Proof.
  intros Hwf Hmax Hsp Hi.
  pose proof Hwf as (Hpos & Hlen & _ & Hc & Hint & _).
  split.
  - intros Hshort.
    rewrite (accepted_insert_all s l Hint (spaced_accepted_after l _ Hsp)).
    rewrite <- Hmax.
    apply (accept_all_lookup s l i (x, y, timestamp)); try done. lia.
  - intros j x' y' timestamp' Hj Hlt Hslot.
    assert (i + 128 <= j) as Hfar.
    { destruct (decide (i + 128 <= j)) as [H|H]; [exact H|]. exfalso.
      apply (mod_add_ne (nextRippleIndex s) i j 128); [exact Hlt|lia|].
      now symmetry. }
    pose proof (spaced_gap l _ i j _ _ Hsp Hi Hj Hlt) as Hgap.
    cbn [snd] in Hgap.
    assert (128 <= inject_Z (Z.of_nat (j - i)))%Q as Hn.
    { change 128%Q with (inject_Z 128). rewrite <- Zle_Qle. lia. }
    assert (3200 <= timestamp' - timestamp)%Q as H3200 by Lqa.lra.
    split; [exact H3200|].
    pose proof (fresh_startTime_Q x y timestamp) as Hst.
    rewrite Hst. qarith.
Qed.

Lemma pool_outlives_ripples_witness :
  wf (new 128 : t Q)
  /\ maxRipples (new 128 : t Q) = 128
  /\ spaced (lastRippleTime (new 128 : t Q)) (steady_inserts 0 130)
  /\ steady_inserts 0 130 !! 1 = Some ((1 # 2)%Q, (1 # 2)%Q, 50%Q)
  /\ (3200 <= 3250 - 50)%Q.
Proof.
  assert (wf (new 128 : t Q)) as Hwf by (apply wf_new; lia).
  pose proof (steady_inserts_spaced 130 0) as Hsp.
  split; [exact Hwf|]. split; [reflexivity|]. split; [exact Hsp|].
  split; [reflexivity|].
  destruct (pool_outlives_ripples (new 128) (steady_inserts 0 130) 1
              (1 # 2)%Q (1 # 2)%Q 50%Q Hwf eq_refl Hsp eq_refl) as [_ Hlate].
  exact (proj1 (Hlate 129 (1 # 2)%Q (1 # 2)%Q 3250%Q eq_refl
                  ltac:(lia) eq_refl)).
Defined.

(** ** What [update] does not clear *)

Section Stale.

Context {num : Type} `{!Arith num}.

Lemma lookup_pack_ge (l : list (Ripple.t num)) : forall k (d : list num) p,
  (k + length l) * 4 <= p -> pack k l d !! p = d !! p.
Proof.
  induction l as [|r l IH]; intros k d p Hp; [done|].
  cbn [pack]. cbn [length] in Hp. rewrite IH by lia.
  rewrite lookup_store. rewrite decide_False by lia. done.
Qed.

Lemma lookup_clear_other n : forall c (d : list num) p,
  (forall i, p <> i * 4 + 2) -> clear c n d !! p = d !! p.
Proof.
  induction n as [|n IH]; intros c d p Hp; [done|].
  rewrite clear_S, IH by done.
  apply list_lookup_insert_ne. intros H. now apply (Hp c).
Qed.

End Stale.

(** X29.  [update] zeroes only the strength of the record positions it
    does not pack: for every position from the returned count on, the
    first, second and fourth number (x, y and start time) are the ones
    the buffer held before the call, stale or not.  This holds in every
    arithmetic. *)
Theorem update_leaves_stale_coordinates {num : Type} `{!Arith num}
    (s : t num) (timestamp : num) (k j : nat) :
  wf s ->
  activeCount (update timestamp s).2 <= k ->
  j < 4 ->
  j <> 2 ->
  data (update timestamp s).2 !! (k * 4 + j) = rippleData s !! (k * 4 + j).
Proof.
  intros Hwf Hk Hj Hj2.
  pose proof Hwf as (_ & Hlen & _).
  rewrite update_result in *. cbn [data activeCount] in *.
  rewrite (update_spec timestamp s Hlen) in *.
  cbn [rippleData activeRippleCount] in *.
  rewrite lookup_clear_other by (intros i; lia).
  apply lookup_pack_ge. lia.
Qed.

Lemma update_leaves_stale_coordinates_witness :
  wf (update 1025%Q (addRipple (1 # 4)%Q (3 # 4)%Q 25%Q (new 128))).1
  /\ activeCount
       (update 3025%Q
          (update 1025%Q (addRipple (1 # 4)%Q (3 # 4)%Q 25%Q (new 128))).1).2
     <= 0
  /\ data
       (update 3025%Q
          (update 1025%Q (addRipple (1 # 4)%Q (3 # 4)%Q 25%Q (new 128))).1).2
       !! 1 = Some (3 # 4)%Q.
Proof.
  assert (wf (update 1025%Q
                (addRipple (1 # 4)%Q (3 # 4)%Q 25%Q (new 128))).1) as Hwf
    by (apply wf_update, wf_addRipple, wf_new; lia).
  assert (activeCount
            (update 3025%Q
               (update 1025%Q
                  (addRipple (1 # 4)%Q (3 # 4)%Q 25%Q (new 128))).1).2 <= 0)
    as Hcount by (vm_compute; lia).
  split; [exact Hwf|]. split; [exact Hcount|].
  etrans.
  - exact (update_leaves_stale_coordinates _ 3025%Q 0 1 Hwf Hcount
             ltac:(lia) ltac:(lia)).
  - vm_compute. reflexivity.
Defined.

(** ** The noise is bounded *)

Section NoiseBound.

Local Open Scope R_scope.

Lemma gradient_scalar_bounds (fx fy : R) :
  0 <= fx < 1 ->
  0 <= fy < 1 ->
  let gy := fy - 0.5 in
  let gz := 0.5 - Rabs fx - Rabs gy in
  let sz := WavyGrid.step gz 0 in
  Rabs (fx + sz * (WavyGrid.step 0 fx - 0.5)) <= 1.5
  /\ Rabs (gy + sz * (WavyGrid.step 0 gy - 0.5)) <= 1
  /\ Rabs gz <= 1.
Proof.
  intros Hx Hy gy gz sz. subst gy gz sz. unfold WavyGrid.step.
  repeat destruct (decide _); unfold Rabs in *;
    repeat destruct (Rcase_abs _); repeat split; lra.
Qed.

Lemma gradients_bounded (ixy gx gy gz : Vec4f.t) :
  WavyGrid.gradients ixy = (gx, gy, gz) ->
  (Rabs (Vec4f.x gx) <= 1.5 /\ Rabs (Vec4f.x gy) <= 1 /\ Rabs (Vec4f.x gz) <= 1)
  /\ (Rabs (Vec4f.y gx) <= 1.5 /\ Rabs (Vec4f.y gy) <= 1
      /\ Rabs (Vec4f.y gz) <= 1)
  /\ (Rabs (Vec4f.z gx) <= 1.5 /\ Rabs (Vec4f.z gy) <= 1
      /\ Rabs (Vec4f.z gz) <= 1)
  /\ (Rabs (Vec4f.w gx) <= 1.5 /\ Rabs (Vec4f.w gy) <= 1
      /\ Rabs (Vec4f.w gz) <= 1).
Proof.
  unfold WavyGrid.gradients. cbv zeta. intros [= <- <- <-].
  unfold WavyGrid.zip4, WavyGrid.map4, WavyGrid.splat4.
  cbn [Vec4f.x Vec4f.y Vec4f.z Vec4f.w].
  repeat split;
    match goal with
    | |- context [ WavyGrid.fract (WavyGrid.floor (?e * (1 / 7)) * (1 / 7)) ] =>
        apply (gradient_scalar_bounds (WavyGrid.fract (e * (1 / 7)))
                 (WavyGrid.fract (WavyGrid.floor (e * (1 / 7)) * (1 / 7))));
          apply fract_range
    end.
Qed.

Lemma Rabs_between a b : Rabs a <= b -> - b <= a <= b.
Proof. unfold Rabs. destruct (Rcase_abs a); lra. Qed.

Lemma corner_bound (g p : Vec3f.t) :
  Rabs (Vec3f.x g) <= 1.5 -> Rabs (Vec3f.y g) <= 1 -> Rabs (Vec3f.z g) <= 1 ->
  Rabs (Vec3f.x p) <= 1 -> Rabs (Vec3f.y p) <= 1 -> Rabs (Vec3f.z p) <= 1 ->
  Rabs (WavyGrid.dot3
          (WavyGrid.scale3 g
             (1.79284291400159 - 0.85373472095314 * WavyGrid.dot3 g g)) p)
    <= 6.44.
Proof.
  destruct g as [gx gy gz], p as [px py pz].
  unfold WavyGrid.dot3, WavyGrid.scale3, WavyGrid.map3.
  cbn [Vec3f.x Vec3f.y Vec3f.z]. intros Hgx Hgy Hgz Hpx Hpy Hpz.
  set (d := gx * gx + gy * gy + gz * gz).
  set (k := 1.79284291400159 - 0.85373472095314 * d).
  replace (gx * k * px + gy * k * py + gz * k * pz)
    with (k * (gx * px + gy * py + gz * pz)) by ring.
  apply Rabs_between in Hgx, Hgy, Hgz, Hpx, Hpy, Hpz.
  assert (0 <= d <= 4.25) as Hd by (subst d; nra).
  assert (Rabs k <= 1.84) as Hk by (apply Rabs_le; subst k; lra).
  assert (Rabs (gx * px + gy * py + gz * pz) <= 3.5) as Hs.
  { apply Rabs_le. split; nra. }
  rewrite Rabs_mult.
  pose proof (Rabs_pos k). pose proof (Rabs_pos (gx * px + gy * py + gz * pz)).
  nra.
Qed.

Lemma mix_bound a b w B :
  Rabs a <= B -> Rabs b <= B -> 0 <= w <= 1 -> Rabs (WavyGrid.mix a b w) <= B.
Proof.
  intros Ha Hb Hw. unfold WavyGrid.mix.
  apply Rabs_between in Ha, Hb. apply Rabs_le. split; nra.
Qed.

Lemma fade_scalar_unit e :
  0 <= e <= 1 -> 0 <= e * e * e * (e * (e * 6 - 15) + 10) <= 1.
Proof.
  intros He.
  assert (forall t, 0 <= t <= 1 -> 0 <= t * t * t * (t * (t * 6 - 15) + 10))
    as Hpos.
  { intros t Ht. apply Rmult_le_pos; [|nra].
    apply Rmult_le_pos; [|lra]. apply Rmult_le_pos; lra. }
  split; [now apply Hpos|].
  pose proof (Hpos (1 - e)) as H1.
  replace ((1 - e) * (1 - e) * (1 - e) * ((1 - e) * ((1 - e) * 6 - 15) + 10))
    with (1 - e * e * e * (e * (e * 6 - 15) + 10)) in H1 by ring.
  lra.
Qed.

End NoiseBound.

(** X30.  The noise is bounded: [perlin3d] returns a value of magnitude
    at most 15 at every point, so the noise moves a sample by at most
    [15 * DISTORTION_SCALE] = 0.15 in each direction.  (A coarse bound,
    from the ranges of the hashed gradients, the normalisation and the
    offsets within the cell.) *)
Theorem perlin3d_bounded (P : Vec3f.t) :
  (Rabs (WavyGrid.perlin3d P) <= 15)%R
  /\ (Rabs (WavyGrid.perlin3d P * WavyGrid.DISTORTION_SCALE) <= 0.15)%R.
Proof.
  assert (Rabs (WavyGrid.perlin3d P) <= 15)%R as Hb.
  { unfold WavyGrid.perlin3d. cbv zeta.
    destruct (WavyGrid.gradients _) as [[gx0 gy0] gz0] eqn:E0.
    apply gradients_bounded in E0.
    destruct (WavyGrid.gradients _) as [[gx1 gy1] gz1] eqn:E1.
    apply gradients_bounded in E1.
    destruct E0 as ((?&?&?)&(?&?&?)&(?&?&?)&(?&?&?)).
    destruct E1 as ((?&?&?)&(?&?&?)&(?&?&?)&(?&?&?)).
    pose proof (fract_range (Vec3f.x P)) as Hfx.
    pose proof (fract_range (Vec3f.y P)) as Hfy.
    pose proof (fract_range (Vec3f.z P)) as Hfz.
    unfold WavyGrid.zip4, WavyGrid.taylorInvSqrt, WavyGrid.map4, WavyGrid.fade.
    cbn [Vec4f.x Vec4f.y Vec4f.z Vec4f.w].
    rewrite Rabs_mult, (Rabs_right 2.2) by lra.
    assert (forall v, Rabs v <= 6.44 -> 2.2 * Rabs v <= 15)%R as Hscale
      by (intros v Hv; lra).
    apply Hscale.
    repeat apply mix_bound;
      try (unfold WavyGrid.map3; cbn [Vec3f.x Vec3f.y Vec3f.z];
           apply fade_scalar_unit; lra);
      apply corner_bound; unfold WavyGrid.map3;
      cbn [Vec3f.x Vec3f.y Vec3f.z]; try assumption;
      apply Rabs_le; lra. }
  split; [exact Hb|].
  unfold WavyGrid.DISTORTION_SCALE. rewrite Rabs_mult.
  rewrite (Rabs_right 0.01) by lra. lra.
Qed.

(** ** Before the front passes the inner radius *)



(** ** Live records, by the tests of the code *)

Section LiveRecords.

Context {num : Type} `{!Arith num}.

Implicit Types (s : t num) (r : Ripple.t num).

(** A record that is active after its slot was aged passed both tests of
    the loop. *)
Lemma aged_active ct ma r :
  Ripple.active (aged ct ma r) = true ->
  Ripple.active r = true
  /\ num_ge (num_sub ct (Ripple.startTime r)) ma = false
  /\ Ripple.strength (aged ct ma r)
     = num_sub (num_lit 1) (num_div (num_sub ct (Ripple.startTime r)) ma)
  /\ num_gt (Ripple.strength (aged ct ma r)) STRENGTH_THRESHOLD = true.
Proof.
  unfold aged. destruct (Ripple.active r) eqn:Ha; cbn [negb].
  2:{ intros H. congruence. }
  destruct (num_ge (num_sub ct (Ripple.startTime r)) ma) eqn:Hge;
    cbn [Ripple.active Ripple.strength]; [done|].
  intros Hgt. done.
Qed.

(** An active record that passes both tests stays active. *)
Lemma aged_passes ct ma x y st strength :
  num_ge (num_sub ct st) ma = false ->
  num_gt (num_sub (num_lit 1) (num_div (num_sub ct st) ma))
    STRENGTH_THRESHOLD = true ->
  aged ct ma (Ripple.mk x y st strength true)
    = Ripple.mk x y st
        (num_sub (num_lit 1) (num_div (num_sub ct st) ma)) true.
Proof.
  intros Hge Hgt. unfold aged.
  cbn [negb Ripple.active Ripple.startTime Ripple.x Ripple.y].
  now rewrite Hge, Hgt.
Qed.

Lemma live_record_tests timestamp s i r :
  wf s ->
  ripples (update timestamp s).1 !! i = Some r ->
  Ripple.active r = true ->
  let age :=
    num_sub (num_div timestamp (num_lit 1000)) (Ripple.startTime r) in
  num_ge age (num_lit 2) = false
  /\ Ripple.strength r = num_sub (num_lit 1) (num_div age (num_lit 2))
  /\ num_gt (Ripple.strength r) (num_lit (1 # 100)) = true.
Proof.
  intros Hwf Hi Ha age. subst age.
  rewrite update_ripples, list_lookup_fmap in Hi by done.
  destruct (ripples s !! i) as [r0|] eqn:Hr0; [|done].
  change (Some (aged (num_div timestamp (num_lit 1000)) (num_lit 2) r0)
          = Some r) in Hi.
  apply (inj Some) in Hi. subst r.
  destruct (aged_active _ _ _ Ha) as (_ & Hge & Hstr & Hthr).
  destruct (aged_keeps (num_div timestamp (num_lit 1000)) (num_lit 2) r0)
    as (_ & _ & -> & _).
  done.
Qed.

Lemma live_slots_elem (l : list (Ripple.t num)) i r :
  l !! i = Some r -> Ripple.active r = true -> i ∈ live_slots l.
Proof.
  intros Hi Ha. unfold live_slots. apply list_elem_of_filter. split.
  - now rewrite Hi; simpl; rewrite Ha.
  - apply elem_of_seq. apply lookup_lt_Some in Hi. lia.
Qed.

(** An insert that passes the rate limit, then [update]: if the new record
    passes the two tests of the loop, it is packed at the rank of its
    slot among the live slots. *)
Lemma accepted_ripple_packed s x y t0 timestamp :
  wf s ->
  num_lt (num_sub t0 (lastRippleTime s)) (num_lit 25) = false ->
  let age :=
    num_sub (num_div timestamp (num_lit 1000)) (num_div t0 (num_lit 1000)) in
  let strength := num_sub (num_lit 1) (num_div age (num_lit 2)) in
  num_ge age (num_lit 2) = false ->
  num_gt strength (num_lit (1 # 100)) = true ->
  let res := update timestamp (addRipple x y t0 s) in
  exists k,
    k < activeCount res.2
    /\ k < maxRipples s
    /\ live_slots (ripples res.1) !! k = Some (nextRippleIndex s)
    /\ ripples res.1 !! nextRippleIndex s
       = Some (Ripple.mk x y (num_div t0 (num_lit 1000)) strength true)
    /\ entry (data res.2) k
       = [fround x; fround y; fround strength;
          fround (num_div t0 (num_lit 1000))]
    /\ nextRippleIndex res.1 = (nextRippleIndex s + 1) mod maxRipples s
    /\ lastRippleTime res.1 = t0.
Proof.
  intros Hwf Hacc age strength Hge Hgt res. subst res.
  pose proof Hwf as (_ & Hlen & _ & Hc & Hint & _).
  pose proof (wf_addRipple x y t0 s Hwf) as Hwf1.
  assert (addRipple x y t0 s = accept x y t0 s) as Hadd
    by (apply addRipple_accepted; now rewrite Hint).
  assert (ripples (addRipple x y t0 s) !! nextRippleIndex s
          = Some (fresh x y t0)) as Hslot.
  { rewrite Hadd. cbn [accept ripples]. apply list_lookup_insert_eq. lia. }
  pose proof (update_lookup _ timestamp _ _ Hwf1 Hslot) as Hup.
  unfold fresh in Hup. rewrite aged_passes in Hup by done.
  fold age in Hup. fold strength in Hup.
  pose proof (live_slots_elem _ _ _ Hup eq_refl) as Hin.
  apply list_elem_of_lookup in Hin as [k Hk].
  destruct (update_entry_slot _ _ _ _ Hwf1 Hk) as (r & Hr & _ & He).
  rewrite Hup in Hr. apply (inj Some) in Hr. subst r.
  assert (k < activeCount (update timestamp (addRipple x y t0 s)).2) as Hlt.
  { apply lookup_lt_Some in Hk. rewrite live_slots_length in Hk.
    rewrite update_result. cbn [activeCount].
    now rewrite update_count_live. }
  exists k. split; [exact Hlt|]. split.
  { pose proof (update_count_le timestamp _ Hwf1) as Hle.
    rewrite update_result in Hlt. cbn [activeCount] in Hlt.
    rewrite Hadd in Hle at 2. cbn [accept maxRipples] in Hle. lia. }
  split; [exact Hk|]. split; [exact Hup|]. split.
  { rewrite update_result. cbn [data]. rewrite He. reflexivity. }
  destruct (update_frame timestamp _ Hwf1) as (_ & -> & -> & _).
  rewrite Hadd. done.
Qed.

End LiveRecords.

(** X7.  What [update] hands on, by the tests of the code and in every
    arithmetic: every record that is active after [update(timestamp)]
    failed the test [age >= maxAge], has the strength [1 - age / maxAge]
    as the program computes it, and passed the test
    [strength > STRENGTH_THRESHOLD]; each of the first [activeCount]
    record positions of the buffer holds the four fields of such a
    record as the [Float32Array] rounds them.  The threshold is tested
    on the unrounded strength: the stored number can be below it. *)
Theorem update_keeps_young_records {num : Type} `{!Arith num}
    (s : t num) (timestamp : num) :
  wf s ->
  let res := update timestamp s in
  let currentTime := num_div timestamp (num_lit 1000) in
  (forall i r,
     ripples res.1 !! i = Some r ->
     Ripple.active r = true ->
     let age := num_sub currentTime (Ripple.startTime r) in
     num_ge age (num_lit 2) = false
     /\ Ripple.strength r = num_sub (num_lit 1) (num_div age (num_lit 2))
     /\ num_gt (Ripple.strength r) (num_lit (1 # 100)) = true)
  /\ (forall k,
        k < activeCount res.2 ->
        exists r,
          live (ripples res.1) !! k = Some r
          /\ num_ge (num_sub currentTime (Ripple.startTime r)) (num_lit 2)
             = false
          /\ num_gt (Ripple.strength r) (num_lit (1 # 100)) = true
          /\ entry (data res.2) k
             = [fround (Ripple.x r); fround (Ripple.y r);
                fround (Ripple.strength r); fround (Ripple.startTime r)]).
Proof.
  intros Hwf res currentTime. subst res currentTime. split.
  - intros i r Hi Ha. exact (live_record_tests timestamp s i r Hwf Hi Ha).
  - intros k Hk. rewrite update_result in Hk. cbn [activeCount] in Hk.
    rewrite update_count_live in Hk by done.
    destruct (lookup_lt_is_Some_2 _ _ Hk) as [r Hr].
    pose proof (live_active _ _ _ Hr) as Ha.
    assert (r ∈ ripples (update timestamp s).1) as Hin.
    { apply list_elem_of_lookup_2 in Hr. unfold live in Hr.
      now apply list_elem_of_filter in Hr. }
    apply list_elem_of_lookup in Hin as [i Hi].
    destruct (live_record_tests timestamp s i r Hwf Hi Ha)
      as (Hge & _ & Hthr).
    exists r. split; [exact Hr|]. split; [exact Hge|]. split; [exact Hthr|].
    rewrite update_result. cbn [data].
    exact (update_entry timestamp s k r Hwf Hr).
Qed.

(** In doubles: a ripple started at 25 ms is, at 2005 ms, still above the
    threshold by the program's test, and its stored strength is below
    it. *)
Lemma update_keeps_young_records_witness :
  wf (addRipple (double_lit (1 # 2)) (double_lit (1 # 2)) (double_lit 25)
        (new 128))
  /\ activeCount
       (update (double_lit 2005)
          (addRipple (double_lit (1 # 2)) (double_lit (1 # 2))
             (double_lit 25) (new 128))).2 = 1
  /\ exists r stored,
       live
         (ripples
            (update (double_lit 2005)
               (addRipple (double_lit (1 # 2)) (double_lit (1 # 2))
                  (double_lit 25) (new 128))).1) !! 0 = Some r
       /\ PrimFloat.ltb (double_lit (1 # 100)) (Ripple.strength r) = true
       /\ entry
            (data
               (update (double_lit 2005)
                  (addRipple (double_lit (1 # 2)) (double_lit (1 # 2))
                     (double_lit 25) (new 128))).2) 0 !! 2 = Some stored
       /\ stored = double_fround (Ripple.strength r)
       /\ PrimFloat.ltb stored (double_lit (1 # 100)) = true.
Proof.
  assert (wf (addRipple (double_lit (1 # 2)) (double_lit (1 # 2))
                (double_lit 25) (new 128))) as Hwf
    by (apply wf_addRipple, wf_new; lia).
  assert (activeCount
            (update (double_lit 2005)
               (addRipple (double_lit (1 # 2)) (double_lit (1 # 2))
                  (double_lit 25) (new 128))).2 = 1) as Hcount
    by (vm_compute; reflexivity).
  split; [exact Hwf|]. split; [exact Hcount|].
  destruct (proj2 (update_keeps_young_records _ (double_lit 2005) Hwf) 0)
    as (r & Hr & _ & Hthr & He).
  { rewrite Hcount. lia. }
  exists r, (double_fround (Ripple.strength r)).
  split; [exact Hr|]. split; [exact Hthr|].
  split; [now rewrite He|]. split; [reflexivity|].
  assert (live
            (ripples
               (update (double_lit 2005)
                  (addRipple (double_lit (1 # 2)) (double_lit (1 # 2))
                     (double_lit 25) (new 128))).1) !! 0
          = Some (Ripple.mk (double_lit (1 # 2)) (double_lit (1 # 2))
                    (PrimFloat.div (double_lit 25) (double_lit 1000))
                    (PrimFloat.sub (double_lit 1)
                       (PrimFloat.div
                          (PrimFloat.sub
                             (PrimFloat.div (double_lit 2005)
                                (double_lit 1000))
                             (PrimFloat.div (double_lit 25)
                                (double_lit 1000)))
                          (double_lit 2))) true)) as Hr'
    by (vm_compute; reflexivity).
  rewrite Hr' in Hr. apply (inj Some) in Hr. subst r.
  vm_compute. reflexivity.
Defined.

(** X8.  An accepted ripple is in the next buffer, in every arithmetic and
    by the tests of the code: when [addRipple(x, y, t0)] passes the rate
    limit and the record it writes passes the two tests of [update] at
    [timestamp] (its age fails [age >= maxAge], its strength passes
    [strength > STRENGTH_THRESHOLD]), then [update(timestamp)] packs it:
    some record position below the returned count, the rank of the
    written slot among the live slots, holds [x], [y], the strength
    [1 - age / maxAge] and the start time [t0 / 1000], each as the
    [Float32Array] rounds it. *)
Theorem addRipple_then_update_packs {num : Type} `{!Arith num}
    (s : t num) (x y t0 timestamp : num) :
  wf s ->
  num_lt (num_sub t0 (lastRippleTime s)) (num_lit 25) = false ->
  let age :=
    num_sub (num_div timestamp (num_lit 1000)) (num_div t0 (num_lit 1000)) in
  let strength := num_sub (num_lit 1) (num_div age (num_lit 2)) in
  num_ge age (num_lit 2) = false ->
  num_gt strength (num_lit (1 # 100)) = true ->
  let res := update timestamp (addRipple x y t0 s) in
  exists k,
    k < activeCount res.2
    /\ live_slots (ripples res.1) !! k = Some (nextRippleIndex s)
    /\ ripples res.1 !! nextRippleIndex s
       = Some (Ripple.mk x y (num_div t0 (num_lit 1000)) strength true)
    /\ entry (data res.2) k
       = [fround x; fround y; fround strength;
          fround (num_div t0 (num_lit 1000))].
Proof.
  intros Hwf Hacc age strength Hge Hgt res.
  destruct (accepted_ripple_packed s x y t0 timestamp Hwf Hacc Hge Hgt)
    as (k & Hk & _ & Hslot & Hrec & He & _).
  exists k. split; [exact Hk|]. split; [exact Hslot|].
  split; [exact Hrec|exact He].
Qed.

(** In doubles: a ripple at (0.25, 0.75) started at 25 ms is packed at
    1025 ms with strength 0.5 and the start time rounded to binary32. *)
Lemma addRipple_then_update_packs_witness :
  wf (new 128 : t PrimFloat.float)
  /\ exists k,
       entry
         (data
            (update (double_lit 1025)
               (addRipple (double_lit (1 # 4)) (double_lit (3 # 4))
                  (double_lit 25) (new 128))).2) k
       = [double_lit (1 # 4); double_lit (3 # 4); double_lit (1 # 2);
          double_fround (double_lit (25 # 1000))].
Proof.
  assert (wf (new 128 : t PrimFloat.float)) as Hwf by (apply wf_new; lia).
  split; [exact Hwf|].
  destruct (addRipple_then_update_packs (new 128) (double_lit (1 # 4))
              (double_lit (3 # 4)) (double_lit 25) (double_lit 1025) Hwf)
    as (k & _ & _ & _ & He).
  - vm_compute. reflexivity.
  - vm_compute. reflexivity.
  - vm_compute. reflexivity.
  - exists k. rewrite He. vm_compute. reflexivity.
Defined.

(** ** From a press to the buffer *)

Section PressFacts.

Context {num : Type} `{!Arith num}.

Implicit Types (a : App.t num).

Lemma ok_pointerdown clientX clientY now a :
  App.ok a -> App.ok (App.pointerdown clientX clientY now a).
Proof.
  intros (Hwf & Hmax & Hbuf & Htime & Hdot).
  unfold App.ok, App.pointerdown.
  cbn [App.rippleManager App.rippleUniformBuffer App.timeUniformBuffer
       App.cursorDot App.isMouseDown].
  split; [now apply wf_addRipple|].
  rewrite addRipple_unfold.
  destruct (num_lt _ _);
    (split; [exact Hmax|]; split; [exact Hbuf|]; split; [exact Htime|]);
    now intros dot [= <-].
Qed.

End PressFacts.

Lemma ok_page_800x600 : App.ok page_800x600.
Proof.
  unfold App.ok, page_800x600.
  cbn [App.rippleManager App.rippleUniformBuffer App.timeUniformBuffer
       App.cursorDot App.isMouseDown].
  split; [apply wf_new; lia|]. split; [reflexivity|].
  split; [reflexivity|]. split; [reflexivity|]. intros dot H. discriminate H.
Qed.

(** X20.  A press is in the next frame's buffer, once, in every arithmetic
    and by the tests of the code: when a [pointerdown] at
    [(clientX, clientY)] reads a time [now] that passes the rate limit,
    the next animation frame has a timestamp that fails it
    ([timestamp - now < 25]), and the record of the press passes the two
    tests of [update] at that timestamp, then after that frame some
    record position of the ripple buffer on the GPU holds the normalised
    coordinates of the press, the strength [1 - age / maxAge] and the
    start time [now / 1000], each as the [Float32Array] rounds it; and
    the press is the only insert: the frame's own [addRipple] is
    rate-limited away, the cursor has advanced by one slot and the time
    of the last insert is [now]. *)
Theorem press_reaches_next_frame {num : Type} `{!Arith num}
    (a : App.t num) (clientX clientY now timestamp : num) :
  App.ok a ->
  num_lt (num_sub now (lastRippleTime (App.rippleManager a))) (num_lit 25)
    = false ->
  num_lt (num_sub timestamp now) (num_lit 25) = true ->
  let coords := App.getNormalizedCoordinates (App.canvasRect a) clientX clientY in
  let age :=
    num_sub (num_div timestamp (num_lit 1000)) (num_div now (num_lit 1000)) in
  let strength := num_sub (num_lit 1) (num_div age (num_lit 2)) in
  num_ge age (num_lit 2) = false ->
  num_gt strength (num_lit (1 # 100)) = true ->
  exists a' k,
    App.frame timestamp (App.pointerdown clientX clientY now a) = Some a'
    /\ k < 128
    /\ k < activeRippleCount (App.rippleManager a')
    /\ entry (App.rippleUniformBuffer a') k
       = [fround coords.1; fround coords.2; fround strength;
          fround (num_div now (num_lit 1000))]
    /\ nextRippleIndex (App.rippleManager a')
       = (nextRippleIndex (App.rippleManager a) + 1) mod 128
    /\ lastRippleTime (App.rippleManager a') = now.
Proof.
  intros Hok Hacc Hsoon coords age strength Hge Hgt.
  pose proof Hok as (Hwf & Hmax & _).
  pose proof Hwf as (_ & _ & _ & _ & Hint & _).
  set (s := App.rippleManager a) in *.
  set (a1 := App.pointerdown clientX clientY now a).
  pose proof (ok_pointerdown clientX clientY now a Hok) as Hok1.
  fold a1 in Hok1.
  assert (App.frame_manager timestamp a1 = addRipple coords.1 coords.2 now s)
    as Hman.
  { unfold App.frame_manager, a1.
    cbn [App.pointerdown App.isMouseDown App.lastMouseX App.lastMouseY
         App.rippleManager].
    fold coords. fold s.
    apply addRipple_rejected.
    rewrite (addRipple_accepted coords.1 coords.2 now s)
      by (now rewrite Hint).
    cbn [accept lastRippleTime minRippleInterval]. now rewrite Hint. }
  destruct (accepted_ripple_packed s coords.1 coords.2 now timestamp
              Hwf Hacc Hge Hgt)
    as (k & Hk & Hk' & _ & _ & He & Hc & Hl).
  pose proof (frame_ok timestamp a1 Hok1) as Hframe. cbv zeta in Hframe.
  rewrite Hman in Hframe.
  eexists _, k. split; [exact Hframe|].
  cbn [App.rippleUniformBuffer App.rippleManager].
  split; [lia|]. split.
  { rewrite update_result in Hk. exact Hk. }
  split; [exact He|]. split; [|exact Hl].
  rewrite Hc. now rewrite Hmax.
Qed.

(** In doubles: a press at (200, 150) on the 800 by 600 canvas at 1000 ms
    and a frame at 1008 ms. *)
Lemma press_reaches_next_frame_witness :
  App.ok page_800x600
  /\ exists a' k,
       App.frame (double_lit 1008)
         (App.pointerdown (double_lit 200) (double_lit 150) (double_lit 1000)
            page_800x600) = Some a'
       /\ entry (App.rippleUniformBuffer a') k
          = [double_lit (1 # 4); double_lit (3 # 4);
             double_fround
               (PrimFloat.sub (double_lit 1)
                  (PrimFloat.div
                     (PrimFloat.sub
                        (PrimFloat.div (double_lit 1008) (double_lit 1000))
                        (PrimFloat.div (double_lit 1000) (double_lit 1000)))
                     (double_lit 2)));
             double_lit 1]
       /\ nextRippleIndex (App.rippleManager a') = 1.
Proof.
  split; [exact ok_page_800x600|].
  destruct (press_reaches_next_frame page_800x600 (double_lit 200)
              (double_lit 150) (double_lit 1000) (double_lit 1008)
              ok_page_800x600)
    as (a' & k & Hframe & _ & _ & He & Hc & _).
  - vm_compute. reflexivity.
  - vm_compute. reflexivity.
  - vm_compute. reflexivity.
  - vm_compute. reflexivity.
  - exists a', k. split; [exact Hframe|]. split; [|exact Hc].
    rewrite He. vm_compute. reflexivity.
Defined.

(** X21.  Dragging leaves a trail at frame rate, in every arithmetic and
    by the tests of the code: in a frame that finds the pointer down and
    whose timestamp passes the rate limit, [frame] inserts a ripple at
    the last pointer position; if that record passes the two tests of
    [update] at its own start time, the buffer uploaded in that same
    frame holds its position, its strength and the start time
    [timestamp / 1000], each as the [Float32Array] rounds it; the time of
    the last insert becomes [timestamp] and the cursor advances by one
    slot. *)
Theorem drag_inserts_in_frame {num : Type} `{!Arith num}
    (a : App.t num) (timestamp : num) :
  App.ok a ->
  App.isMouseDown a = true ->
  num_lt (num_sub timestamp (lastRippleTime (App.rippleManager a)))
    (num_lit 25) = false ->
  let currentTime := num_div timestamp (num_lit 1000) in
  let age := num_sub currentTime currentTime in
  let strength := num_sub (num_lit 1) (num_div age (num_lit 2)) in
  num_ge age (num_lit 2) = false ->
  num_gt strength (num_lit (1 # 100)) = true ->
  exists a' k,
    App.frame timestamp a = Some a'
    /\ k < 128
    /\ k < activeRippleCount (App.rippleManager a')
    /\ entry (App.rippleUniformBuffer a') k
       = [fround (App.lastMouseX a); fround (App.lastMouseY a);
          fround strength; fround currentTime]
    /\ lastRippleTime (App.rippleManager a') = timestamp
    /\ nextRippleIndex (App.rippleManager a')
       = (nextRippleIndex (App.rippleManager a) + 1) mod 128.
Proof.
  intros Hok Hdown Hacc currentTime age strength Hge Hgt.
  pose proof Hok as (Hwf & Hmax & _).
  pose proof (frame_ok timestamp a Hok) as Hframe. cbv zeta in Hframe.
  unfold App.frame_manager in Hframe. rewrite Hdown in Hframe.
  destruct (accepted_ripple_packed (App.rippleManager a) (App.lastMouseX a)
              (App.lastMouseY a) timestamp timestamp Hwf Hacc Hge Hgt)
    as (k & Hk & Hk' & _ & _ & He & Hc & Hl).
  eexists _, k. split; [exact Hframe|].
  cbn [App.rippleUniformBuffer App.rippleManager].
  split; [lia|]. split.
  { rewrite update_result in Hk. exact Hk. }
  split; [exact He|]. split; [exact Hl|].
  rewrite Hc. now rewrite Hmax.
Qed.

(** In doubles: the pointer held at (200, 150) since 1000 ms, and a frame
    at 1030 ms: the strength is exactly 1. *)
Lemma drag_inserts_in_frame_witness :
  App.ok
    (App.pointerdown (double_lit 200) (double_lit 150) (double_lit 1000)
       page_800x600)
  /\ exists a' k,
       App.frame (double_lit 1030)
         (App.pointerdown (double_lit 200) (double_lit 150) (double_lit 1000)
            page_800x600) = Some a'
       /\ entry (App.rippleUniformBuffer a') k
          = [double_lit (1 # 4); double_lit (3 # 4); double_lit 1;
             double_fround (PrimFloat.div (double_lit 1030) (double_lit 1000))]
       /\ lastRippleTime (App.rippleManager a') = double_lit 1030.
Proof.
  assert (App.ok
            (App.pointerdown (double_lit 200) (double_lit 150)
               (double_lit 1000) page_800x600)) as Hok
    by (apply ok_pointerdown, ok_page_800x600).
  split; [exact Hok|].
  destruct (drag_inserts_in_frame _ (double_lit 1030) Hok)
    as (a' & k & Hframe & _ & _ & He & Hl & _).
  - reflexivity.
  - vm_compute. reflexivity.
  - vm_compute. reflexivity.
  - vm_compute. reflexivity.
  - exists a', k. split; [exact Hframe|]. split; [|exact Hl].
    rewrite He. vm_compute. reflexivity.
Defined.

(** ** What the shader is handed *)

Section Snapshot.

Context {num : Type} `{!Arith num}.

Variable toR : num -> R.

Lemma lookup_entry_fmap (d : list num) k (x y z w : num) j v :
  entry d k = [x; y; z; w] ->
  [x; y; z; w] !! j = Some v ->
  (toR <$> d) !! (k * 4 + j) = Some (toR v).
Proof.
  intros He Hj.
  assert (j < 4) as Hlt by (apply lookup_lt_Some in Hj; simpl in Hj; lia).
  pose proof (lookup_entry d k j) as Hl. rewrite He, Hj in Hl.
  rewrite decide_True in Hl by done.
  now rewrite list_lookup_fmap, <- Hl.
Qed.

(** The struct layout: the four numbers of a record position are
    [position.x], [position.y], [strength] and [startTime]. *)
Lemma uploaded_entry (d : list num) k (x y strength startTime : num) :
  k < 128 ->
  entry d k = [x; y; strength; startTime] ->
  ripplesOfBuffer (toR <$> d) 128 !! k
    = Some (RippleData.mk (Vec2f.mk (toR x) (toR y)) (toR strength)
              (toR startTime)).
Proof.
  intros Hk He. rewrite lookup_ripplesOfBuffer by done.
  replace (k * 4) with (k * 4 + 0) at 1 by lia.
  rewrite (lookup_entry_fmap d k x y strength startTime 0 x He eq_refl).
  rewrite (lookup_entry_fmap d k x y strength startTime 1 y He eq_refl).
  rewrite (lookup_entry_fmap d k x y strength startTime 2 strength He
             eq_refl).
  rewrite (lookup_entry_fmap d k x y strength startTime 3 startTime He
             eq_refl).
  reflexivity.
Qed.

Lemma uniforms_of_frame (timestamp : num) (canvas : Canvas.t num) (n : nat)
    (rest : list num) :
  uniformsOfBuffer (toR <$> (App.timeUniforms timestamp canvas n ++ rest))
  = WavyGrid.mkUniforms
      (toR (fround (num_div timestamp (num_lit 1000))))
      (toR (fround (num_div (Canvas.width canvas) (Canvas.height canvas))))
      (toR (fround (App.num_of_nat n)))
      (toR (fround (num_lit 0))).
Proof. reflexivity. Qed.

(** The uniforms and the array the draw of a frame reads. *)
Lemma frame_snapshot (a : App.t num) (timestamp : num) :
  toR (fround (num_lit 0)) = 0%R ->
  App.ok a ->
  exists a',
    App.frame timestamp a = Some a'
    /\ activeRippleCount (App.rippleManager a') <= 128
    /\ uniformsOfBuffer (toR <$> App.timeUniformBuffer a')
       = WavyGrid.mkUniforms
           (toR (fround (num_div timestamp (num_lit 1000))))
           (toR (fround (num_div (Canvas.width (App.canvas a))
                           (Canvas.height (App.canvas a)))))
           (toR (fround
                   (App.num_of_nat
                      (activeRippleCount (App.rippleManager a')))))
           (toR (fround (num_lit 0)))
    /\ (forall k,
          k < activeRippleCount (App.rippleManager a') ->
          exists r,
            live (ripples (App.rippleManager a')) !! k = Some r
            /\ num_gt (Ripple.strength r) (num_lit (1 # 100)) = true
            /\ ripplesOfBuffer (toR <$> App.rippleUniformBuffer a') 128 !! k
               = Some
                   (RippleData.mk
                      (Vec2f.mk (toR (fround (Ripple.x r)))
                         (toR (fround (Ripple.y r))))
                      (toR (fround (Ripple.strength r)))
                      (toR (fround (Ripple.startTime r)))))
    /\ (forall k,
          activeRippleCount (App.rippleManager a') <= k < 128 ->
          exists ripple,
            ripplesOfBuffer (toR <$> App.rippleUniformBuffer a') 128 !! k
              = Some ripple
            /\ RippleData.strength ripple = 0%R).
Proof.
  intros Hzero Hok. pose proof Hok as (Hwf & Hmax & _).
  pose proof (frame_ok timestamp a Hok) as Hframe. cbv zeta in Hframe.
  pose proof (frame_manager_wf timestamp a Hwf) as Hwf1.
  assert (maxRipples (App.frame_manager timestamp a) = 128) as Hmax1
    by now rewrite frame_manager_maxRipples.
  set (s := App.frame_manager timestamp a) in *.
  pose proof (update_count_le timestamp s Hwf1) as Hle.
  eexists. split; [exact Hframe|].
  cbn [App.timeUniformBuffer App.rippleUniformBuffer App.rippleManager].
  split; [lia|]. split.
  { rewrite uniforms_of_frame. now rewrite update_result. }
  split.
  - intros k Hk.
    rewrite update_count_live in Hk by done.
    destruct (lookup_lt_is_Some_2 _ _ Hk) as [r Hr].
    pose proof (live_active _ _ _ Hr) as Ha.
    assert (r ∈ ripples (update timestamp s).1) as Hin.
    { apply list_elem_of_lookup_2 in Hr. unfold live in Hr.
      now apply list_elem_of_filter in Hr. }
    apply list_elem_of_lookup in Hin as [i Hi].
    destruct (live_record_tests timestamp s i r Hwf1 Hi Ha)
      as (_ & _ & Hthr).
    exists r. split; [exact Hr|]. split; [exact Hthr|].
    apply uploaded_entry.
    + apply lookup_lt_Some in Hr. rewrite <- update_count_live in Hr by done.
      lia.
    + rewrite update_result. cbn [data].
      exact (update_entry timestamp s k r Hwf1 Hr).
  - intros k Hk.
    apply (uploaded_trailing_strength toR s timestamp k Hzero Hwf1 Hmax1).
    now rewrite update_result.
Qed.

End Snapshot.

Section FieldBound.

Local Open Scope R_scope.



End FieldBound.

(** X22.  The shader is handed the live records in its own layout, in
    every arithmetic: after [frame(timestamp)] the four uniform scalars
    are [timestamp / 1000], the aspect ratio of the drawing buffer, the
    active count and 0, each rounded by the [Float32Array] and read by
    the shader; for every [k] below the active count, element [k] of
    [array<RippleData, 128>] has as [position], [strength] and
    [startTime] the rounded [x], [y], [strength] and [startTime] of the
    [k]-th live record of the pool, whose unrounded strength passed the
    threshold test; every element from the count to 127 has strength 0.
    [toR] is the reading of an uploaded number as a real. *)
Theorem frame_hands_live_ripples {num : Type} `{!Arith num}
    (toR : num -> R) (a : App.t num) (timestamp : num) :
  toR (fround (num_lit 0)) = 0%R ->
  App.ok a ->
  exists a',
    App.frame timestamp a = Some a'
    /\ let count := activeRippleCount (App.rippleManager a') in
       let u := uniformsOfBuffer (toR <$> App.timeUniformBuffer a') in
       let rs := ripplesOfBuffer (toR <$> App.rippleUniformBuffer a') 128 in
       count <= 128
       /\ u = WavyGrid.mkUniforms
                (toR (fround (num_div timestamp (num_lit 1000))))
                (toR (fround (num_div (Canvas.width (App.canvas a))
                                (Canvas.height (App.canvas a)))))
                (toR (fround (App.num_of_nat count)))
                (toR (fround (num_lit 0)))
       /\ (forall k,
             k < count ->
             exists r,
               live (ripples (App.rippleManager a')) !! k = Some r
               /\ num_gt (Ripple.strength r) (num_lit (1 # 100)) = true
               /\ rs !! k
                  = Some
                      (RippleData.mk
                         (Vec2f.mk (toR (fround (Ripple.x r)))
                            (toR (fround (Ripple.y r))))
                         (toR (fround (Ripple.strength r)))
                         (toR (fround (Ripple.startTime r)))))
       /\ (forall k,
             count <= k < 128 ->
             exists ripple,
               rs !! k = Some ripple /\ RippleData.strength ripple = 0%R).
Proof.
  intros Hzero Hok.
  destruct (frame_snapshot toR a timestamp Hzero Hok)
    as (a' & Hframe & Hcount & Hu & Hlive & Hrest).
  exists a'. split; [exact Hframe|]. intros count u rs.
  split; [exact Hcount|]. split; [exact Hu|]. split; [exact Hlive|exact Hrest].
Qed.


Lemma double_toR_zero : double_toR (fround (num_lit 0)) = 0%R.
Proof.
  unfold double_toR.
  replace (FloatOps.Prim2SF (fround (num_lit 0)))
    with (SpecFloat.S754_zero false) by (vm_compute; reflexivity).
  reflexivity.
Qed.

(** In doubles: a press at (200, 150) on the 800 by 600 canvas at 1000 ms,
    the pointer held, and a frame at 1500 ms, which inserts a second
    ripple at the same place: two live records are handed over. *)
Lemma frame_hands_live_ripples_witness :
  double_toR (fround (num_lit 0)) = 0%R
  /\ App.ok
       (App.pointerdown (double_lit 200) (double_lit 150) (double_lit 1000)
          page_800x600)
  /\ exists a',
       App.frame (double_lit 1500)
         (App.pointerdown (double_lit 200) (double_lit 150)
            (double_lit 1000) page_800x600) = Some a'
       /\ activeRippleCount (App.rippleManager a') = 2
       /\ ripplesOfBuffer (double_toR <$> App.rippleUniformBuffer a') 128
            !! 0
          = Some
              (RippleData.mk
                 (Vec2f.mk (double_toR (double_lit (1 # 4)))
                    (double_toR (double_lit (3 # 4))))
                 (double_toR (double_lit (3 # 4)))
                 (double_toR (double_lit 1)))
       /\ ripplesOfBuffer (double_toR <$> App.rippleUniformBuffer a') 128
            !! 1
          = Some
              (RippleData.mk
                 (Vec2f.mk (double_toR (double_lit (1 # 4)))
                    (double_toR (double_lit (3 # 4))))
                 (double_toR (double_lit 1))
                 (double_toR (double_lit (3 # 2)))).
Proof.
  assert (App.ok
            (App.pointerdown (double_lit 200) (double_lit 150)
               (double_lit 1000) page_800x600)) as Hok
    by exact (ok_pointerdown _ _ _ _ ok_page_800x600).
  split; [exact double_toR_zero|]. split; [exact Hok|].
  destruct (frame_hands_live_ripples double_toR _ (double_lit 1500)
              double_toR_zero Hok)
    as (a' & Hframe & _ & _ & Hlive & _).
  pose proof Hframe as Hval. vm_compute in Hval.
  apply (inj Some) in Hval. subst a'.
  eexists. split; [exact Hframe|].
  match goal with
  | |- activeRippleCount ?m = 2 /\ _ =>
      assert (activeRippleCount m = 2) as Hc by (vm_compute; reflexivity)
  end.
  split; [exact Hc|]. rewrite Hc in Hlive. split.
  - destruct (Hlive 0 ltac:(lia)) as (r & Hr & _ & Hrs).
    vm_compute in Hr. apply (inj Some) in Hr. subst r.
    etrans; [exact Hrs|]. cbn [Ripple.x Ripple.y Ripple.strength
                               Ripple.startTime].
    repeat f_equal; vm_compute; reflexivity.
  - destruct (Hlive 1 ltac:(lia)) as (r & Hr & _ & Hrs).
    vm_compute in Hr. apply (inj Some) in Hr. subst r.
    etrans; [exact Hrs|]. cbn [Ripple.x Ripple.y Ripple.strength
                               Ripple.startTime].
    repeat f_equal; vm_compute; reflexivity.
Defined.




(** ** The grid lines *)

Section GridLines.

Local Open Scope R_scope.

(** The grid lines are where a scaled coordinate is a whole number; the
    smaller of [fract s] and [1 - fract s] is the distance from [s] to
    the nearest whole number. *)
Lemma nearest_line_le (s : R) (k : Z) :
  Rmin (WavyGrid.fract s) (1 - WavyGrid.fract s) <= Rabs (s - IZR k).
Proof.
  unfold WavyGrid.fract, WavyGrid.floor.
  destruct (base_Int_part s) as [Hlo Hhi].
  destruct (Z_le_gt_dec k (Int_part s)) as [Hk|Hk].
  - apply IZR_le in Hk. rewrite Rabs_right by lra.
    eapply Rle_trans; [apply Rmin_l|]. lra.
  - assert (Int_part s + 1 <= k)%Z as Hk' by lia.
    apply IZR_le in Hk'. rewrite plus_IZR in Hk'.
    rewrite Rabs_left1 by lra.
    eapply Rle_trans; [apply Rmin_r|]. lra.
Qed.

Lemma nearest_line_attained (s : R) :
  Rmin (WavyGrid.fract s) (1 - WavyGrid.fract s)
    = Rabs (s - IZR (Int_part s))
  \/ Rmin (WavyGrid.fract s) (1 - WavyGrid.fract s)
     = Rabs (s - IZR (Int_part s + 1)).
Proof.
  unfold WavyGrid.fract, WavyGrid.floor.
  destruct (base_Int_part s) as [Hlo Hhi]. rewrite plus_IZR.
  unfold Rmin. destruct (Rle_dec _ _).
  - left. rewrite Rabs_right by lra. done.
  - right. rewrite Rabs_left1 by lra. lra.
Qed.

Lemma distToLine_unfold distortedUV :
  WavyGrid.distToLine distortedUV =
    Rmin
      (Rmin
         (WavyGrid.fract (Vec2f.x distortedUV * WavyGrid.GRID_HORIZONTAL_SIZE))
         (1 - WavyGrid.fract
                (Vec2f.x distortedUV * WavyGrid.GRID_HORIZONTAL_SIZE)))
      (Rmin
         (WavyGrid.fract (Vec2f.y distortedUV * WavyGrid.GRID_VERTICAL_SIZE))
         (1 - WavyGrid.fract
                (Vec2f.y distortedUV * WavyGrid.GRID_VERTICAL_SIZE))).
Proof. reflexivity. Qed.

Lemma gridColor_of_intensity distortedUV intensity :
  WavyGrid.lineIntensity (WavyGrid.distToLine distortedUV) = Some intensity ->
  WavyGrid.gridColor distortedUV
    = Some (Vec4f.mk (0.05 + 0.95 * intensity) (0.05 + 0.95 * intensity)
                     (0.15 + 0.85 * intensity) 1).
Proof.
  intros Hi. unfold WavyGrid.gridColor. rewrite Hi. simpl.
  unfold WavyGrid.mix. f_equal. f_equal; lra.
Qed.

End GridLines.

(** C8.  For every distorted coordinate, with [sx] and [sy] the
    coordinate scaled by the horizontal and vertical grid sizes, so that
    the grid lines are where [sx] or [sy] is a whole number:
    [distToLine] is the distance to the nearest grid line (no line is
    nearer in either direction, and some line is exactly that far).
    Where the distance is 0 the line intensity is exactly 1, and the
    distance is 0 exactly on the grid lines, where the colour is the line
    colour.  Where the distance is at least the line width 0.015 the
    intensity is exactly 0; this is so for every sample at least 0.015
    from every grid line, and the colour is then the background colour.
    At the centre of a cell (both fractional parts 0.5) the distance is
    0.5, the intensity 0 and the colour the opaque background colour. *)
Theorem grid_line_intensity (distortedUV : Vec2f.t) :
  let sx := (Vec2f.x distortedUV * WavyGrid.GRID_HORIZONTAL_SIZE)%R in
  let sy := (Vec2f.y distortedUV * WavyGrid.GRID_VERTICAL_SIZE)%R in
  (WavyGrid.distToLine distortedUV = 0%R ->
     WavyGrid.lineIntensity (WavyGrid.distToLine distortedUV) = Some 1%R)
  /\ ((WavyGrid.LINE_WIDTH <= WavyGrid.distToLine distortedUV)%R ->
        WavyGrid.lineIntensity (WavyGrid.distToLine distortedUV) = Some 0%R)
  /\ (WavyGrid.fract sx = 0.5%R ->
      WavyGrid.fract sy = 0.5%R ->
        WavyGrid.distToLine distortedUV = 0.5%R
        /\ WavyGrid.lineIntensity (WavyGrid.distToLine distortedUV) = Some 0%R
        /\ WavyGrid.gridColor distortedUV
           = Some (Vec4f.mk 0.05 0.05 0.15 1))
  /\ (forall k : Z,
        (WavyGrid.distToLine distortedUV <= Rabs (sx - IZR k))%R
        /\ (WavyGrid.distToLine distortedUV <= Rabs (sy - IZR k))%R)
  /\ (exists k : Z,
        WavyGrid.distToLine distortedUV = Rabs (sx - IZR k)
        \/ WavyGrid.distToLine distortedUV = Rabs (sy - IZR k))
  /\ (WavyGrid.distToLine distortedUV = 0%R
      <-> exists k : Z, sx = IZR k \/ sy = IZR k)
  /\ ((exists k : Z, sx = IZR k \/ sy = IZR k) ->
        WavyGrid.lineIntensity (WavyGrid.distToLine distortedUV) = Some 1%R
        /\ WavyGrid.gridColor distortedUV = Some (Vec4f.mk 1 1 1 1))
  /\ ((forall k : Z,
         (WavyGrid.LINE_WIDTH <= Rabs (sx - IZR k))%R
         /\ (WavyGrid.LINE_WIDTH <= Rabs (sy - IZR k))%R) ->
        (WavyGrid.LINE_WIDTH <= WavyGrid.distToLine distortedUV)%R
        /\ WavyGrid.lineIntensity (WavyGrid.distToLine distortedUV) = Some 0%R
        /\ WavyGrid.gridColor distortedUV
           = Some (Vec4f.mk 0.05 0.05 0.15 1)).
Proof.
  intros sx sy.
  assert (forall k : Z,
            (WavyGrid.distToLine distortedUV <= Rabs (sx - IZR k))%R
            /\ (WavyGrid.distToLine distortedUV <= Rabs (sy - IZR k))%R)
    as Hle.
  { intros k. rewrite distToLine_unfold. fold sx sy. split.
    - eapply Rle_trans; [apply Rmin_l|apply nearest_line_le].
    - eapply Rle_trans; [apply Rmin_r|apply nearest_line_le]. }
  assert (exists k : Z,
            WavyGrid.distToLine distortedUV = Rabs (sx - IZR k)
            \/ WavyGrid.distToLine distortedUV = Rabs (sy - IZR k)) as Hat.
  { rewrite distToLine_unfold. fold sx sy.
    set (dx := Rmin (WavyGrid.fract sx) (1 - WavyGrid.fract sx)).
    set (dy := Rmin (WavyGrid.fract sy) (1 - WavyGrid.fract sy)).
    destruct (Rle_dec dx dy) as [Hmin|Hmin].
    - rewrite (Rmin_left dx dy Hmin).
      destruct (nearest_line_attained sx) as [H|H];
        eexists; left; exact H.
    - rewrite (Rmin_right dx dy) by lra.
      destruct (nearest_line_attained sy) as [H|H];
        eexists; right; exact H. }
  assert (WavyGrid.distToLine distortedUV = 0%R
          <-> exists k : Z, sx = IZR k \/ sy = IZR k) as Hzero.
  { split.
    - intros H0. destruct Hat as [k [Hk|Hk]]; exists k; rewrite H0 in Hk;
        symmetry in Hk; [left|right].
      + destruct (Req_dec (sx - IZR k) 0) as [E|E];
          [lra|now apply Rabs_no_R0 in E].
      + destruct (Req_dec (sy - IZR k) 0) as [E|E];
          [lra|now apply Rabs_no_R0 in E].
    - intros [k Hk]. apply Rle_antisym; [|apply distToLine_range].
      destruct (Hle k) as [Hx Hy].
      destruct Hk as [Hk|Hk]; rewrite Hk, Rminus_diag, Rabs_R0 in *;
        assumption. }
  split; [intros ->; apply lineIntensity_on_line|].
  split; [apply lineIntensity_off_line|].
  split.
  { intros Hx Hy.
    assert (WavyGrid.distToLine distortedUV = 0.5%R) as Hd.
    { rewrite distToLine_unfold. fold sx sy. rewrite Hx, Hy.
      unfold Rmin. repeat destruct (Rle_dec _ _); lra. }
    assert (WavyGrid.lineIntensity (WavyGrid.distToLine distortedUV)
            = Some 0%R) as Hi.
    { apply lineIntensity_off_line. rewrite Hd.
      unfold WavyGrid.LINE_WIDTH. lra. }
    split; [exact Hd|]. split; [exact Hi|].
    rewrite (gridColor_of_intensity _ _ Hi). f_equal. f_equal; lra. }
  split; [exact Hle|]. split; [exact Hat|]. split; [exact Hzero|].
  split.
  - intros Hon. apply Hzero in Hon.
    assert (WavyGrid.lineIntensity (WavyGrid.distToLine distortedUV)
            = Some 1%R) as Hi by (rewrite Hon; apply lineIntensity_on_line).
    split; [exact Hi|].
    rewrite (gridColor_of_intensity _ _ Hi). f_equal. f_equal; lra.
  - intros Hfar.
    assert (WavyGrid.LINE_WIDTH <= WavyGrid.distToLine distortedUV)%R as Hd.
    { destruct Hat as [k [Hk|Hk]]; rewrite Hk; apply Hfar. }
    assert (WavyGrid.lineIntensity (WavyGrid.distToLine distortedUV)
            = Some 0%R) as Hi by now apply lineIntensity_off_line.
    split; [exact Hd|]. split; [exact Hi|].
    rewrite (gridColor_of_intensity _ _ Hi). f_equal. f_equal; lra.
Qed.

Lemma grid_line_intensity_witness :
  WavyGrid.distToLine (Vec2f.mk 0 0) = 0%R
  /\ WavyGrid.lineIntensity (WavyGrid.distToLine (Vec2f.mk 0 0)) = Some 1%R
  /\ WavyGrid.gridColor (Vec2f.mk 0.15 0.31) = Some (Vec4f.mk 1 1 1 1)
  /\ WavyGrid.distToLine (Vec2f.mk 0.025 (1 / 30)) = 0.5%R
  /\ WavyGrid.gridColor (Vec2f.mk 0.025 (1 / 30))
     = Some (Vec4f.mk 0.05 0.05 0.15 1).
Proof.
  assert (WavyGrid.distToLine (Vec2f.mk 0 0) = 0%R) as H0.
  { apply (proj1 (proj2 (proj2 (proj2 (proj2 (proj2
             (grid_line_intensity (Vec2f.mk 0 0)))))))).
    exists 0%Z. left. simpl. lra. }
  assert (WavyGrid.fract
            (Vec2f.x (Vec2f.mk 0.025 (1 / 30)) * WavyGrid.GRID_HORIZONTAL_SIZE)
          = 0.5%R) as Hx.
  { simpl. unfold WavyGrid.GRID_HORIZONTAL_SIZE.
    replace (0.025 * 20)%R with 0.5%R by lra. apply fract_half. }
  assert (WavyGrid.fract
            (Vec2f.y (Vec2f.mk 0.025 (1 / 30)) * WavyGrid.GRID_VERTICAL_SIZE)
          = 0.5%R) as Hy.
  { simpl. unfold WavyGrid.GRID_VERTICAL_SIZE.
    replace (1 / 30 * 15)%R with 0.5%R by lra. apply fract_half. }
  split; [exact H0|].
  split; [exact (proj1 (grid_line_intensity (Vec2f.mk 0 0)) H0)|].
  split.
  { apply (proj1 (proj2 (proj2 (proj2 (proj2 (proj2 (proj2
             (grid_line_intensity (Vec2f.mk 0.15 0.31))))))))).
    exists 3%Z. left. simpl. unfold WavyGrid.GRID_HORIZONTAL_SIZE. lra. }
  destruct (proj1 (proj2 (proj2 (grid_line_intensity
                                   (Vec2f.mk 0.025 (1 / 30))))) Hx Hy)
    as (Hd & _ & Hc).
  split; [exact Hd | exact Hc].
Defined.
